(** * Fonlok escrow backend: settlement, payment processing, disputes, referral withdrawals

    A shallow embedding of the money-movement handlers of the backend
    (payout routes, [processSuccessfulPayment], dispute resolution,
    milestone completion, referral withdrawal) and the properties the
    specification states about them.

    Conventions of the embedding.
    - A table is the list of its rows, in insertion order.  One [db.query]
      is one atomic statement ([stmt]) run by [exec].
    - A handler is a program tree ([prog]): every [await] is a node, the
      continuation is the rest of the JavaScript function.
    - Concurrency is interleaving of whole statements of several handler
      instances ([sys_step], [run_sched]); the payment gateway and the random
      generators answer through the [input] of each step.
    - Amounts are integers (XAF); the fee rates are exact rationals, so
      [Math_floor (gross * rate)] is the mathematical floor.  Timestamps
      ([NOW()]) and the text of e-mails are left out.
    - A statement fails where a request can make it fail: an integer of the
      request, or a referral balance, out of the range of INTEGER (SQLSTATE
      22003).  Faults of the database itself are left out. *)

From Stdlib Require Import ZArith List Ascii String Bool Lia QArith Qround Arith DecimalString.
Import ListNotations.
Local Open Scope string_scope.
Local Open Scope Z_scope.
Local Open Scope list_scope.

Set Implicit Arguments.

(** ** Rows of the ledger store *)

Record invoice := mkInvoice {
  i_id : Z;
  i_invoicenumber : string;
  i_invoicename : string;
  i_userid : Z;
  i_amount : Z;
  i_status : string
}.

Record user := mkUser {
  u_id : Z;
  u_name : string;
  u_email : string;
  u_phone : string;
  u_referred_by : option Z;
  u_referral_balance : Z
}.

Record payment := mkPayment {
  p_id : Z;
  p_invoiceid : Z;
  p_providerpaymentid : string;
  p_amount : Z;
  p_status : string
}.

Record confirmation_code := mkCode {
  c_code : string;
  c_code_id : Z;
  c_verification_token : string;
  c_userid : Z;
  c_invoiceid : Z;
  c_is_used : bool
}.

Record milestone := mkMilestone {
  m_id : Z;
  m_invoice_id : Z;
  m_invoice_number : string;
  m_milestone_number : Z;
  m_label : string;
  m_amount : Z;
  m_status : string;
  m_release_token : option string
}.

Record payout := mkPayout {
  po_userid : Z;
  po_amount : Z;
  po_method : string;
  po_status : string;
  po_invoice_id : Z;
  po_invoice_number : string
}.

Record referral_earning := mkEarning {
  re_id : Z;
  re_referrer_userid : Z;
  re_referred_userid : Z;
  re_invoice_number : string;
  re_invoice_amount : Z;
  re_earned_amount : Z
}.

Record referral_withdrawal := mkWithdrawal {
  w_id : Z;
  w_userid : Z;
  w_amount : Z;
  w_momo_number : string;
  w_status : string
}.

Record dispute := mkDispute {
  d_invoicenumber : string;
  d_opened_by : string;
  d_admin_token : string;
  d_status : string
}.

Record guest := mkGuest {
  g_invoicenumber : string;
  g_name : option string;
  g_email : option string;
  g_momo_number : option string;
  g_chat_token : option string;
  g_created_at : Z
}.

Record chat := mkChat {
  ch_id : Z;
  ch_invoiceid : Z;
  ch_invoicenumber : string
}.

Record message := mkMessage {
  msg_chat_id : Z;
  msg_sender_type : string;
  msg_sender_email : string;
  msg_message : string
}.

(** The store: one field per table the handlers touch. *)
Record db := mkDb {
  invoices : list invoice;
  users : list user;
  payments : list payment;
  confirmation_codes : list confirmation_code;
  invoice_milestones : list milestone;
  payouts : list payout;
  referral_earnings : list referral_earning;
  referral_withdrawals : list referral_withdrawal;
  processed_payments : list string;
  disputes : list dispute;
  guests : list guest;
  chats : list chat;
  messages : list message
}.

Definition empty_db : db :=
  mkDb [] [] [] [] [] [] [] [] [] [] [] [] [].

Definition with_invoices (f : list invoice -> list invoice) (d : db) : db :=
  mkDb (f (invoices d)) (users d) (payments d) (confirmation_codes d)
       (invoice_milestones d) (payouts d) (referral_earnings d)
       (referral_withdrawals d) (processed_payments d) (disputes d)
       (guests d) (chats d) (messages d).

Definition with_users (f : list user -> list user) (d : db) : db :=
  mkDb (invoices d) (f (users d)) (payments d) (confirmation_codes d)
       (invoice_milestones d) (payouts d) (referral_earnings d)
       (referral_withdrawals d) (processed_payments d) (disputes d)
       (guests d) (chats d) (messages d).

Definition with_payments (f : list payment -> list payment) (d : db) : db :=
  mkDb (invoices d) (users d) (f (payments d)) (confirmation_codes d)
       (invoice_milestones d) (payouts d) (referral_earnings d)
       (referral_withdrawals d) (processed_payments d) (disputes d)
       (guests d) (chats d) (messages d).

Definition with_confirmation_codes
  (f : list confirmation_code -> list confirmation_code) (d : db) : db :=
  mkDb (invoices d) (users d) (payments d) (f (confirmation_codes d))
       (invoice_milestones d) (payouts d) (referral_earnings d)
       (referral_withdrawals d) (processed_payments d) (disputes d)
       (guests d) (chats d) (messages d).

Definition with_invoice_milestones
  (f : list milestone -> list milestone) (d : db) : db :=
  mkDb (invoices d) (users d) (payments d) (confirmation_codes d)
       (f (invoice_milestones d)) (payouts d) (referral_earnings d)
       (referral_withdrawals d) (processed_payments d) (disputes d)
       (guests d) (chats d) (messages d).

Definition with_payouts (f : list payout -> list payout) (d : db) : db :=
  mkDb (invoices d) (users d) (payments d) (confirmation_codes d)
       (invoice_milestones d) (f (payouts d)) (referral_earnings d)
       (referral_withdrawals d) (processed_payments d) (disputes d)
       (guests d) (chats d) (messages d).

Definition with_referral_earnings
  (f : list referral_earning -> list referral_earning) (d : db) : db :=
  mkDb (invoices d) (users d) (payments d) (confirmation_codes d)
       (invoice_milestones d) (payouts d) (f (referral_earnings d))
       (referral_withdrawals d) (processed_payments d) (disputes d)
       (guests d) (chats d) (messages d).

Definition with_referral_withdrawals
  (f : list referral_withdrawal -> list referral_withdrawal) (d : db) : db :=
  mkDb (invoices d) (users d) (payments d) (confirmation_codes d)
       (invoice_milestones d) (payouts d) (referral_earnings d)
       (f (referral_withdrawals d)) (processed_payments d) (disputes d)
       (guests d) (chats d) (messages d).

Definition with_processed_payments
  (f : list string -> list string) (d : db) : db :=
  mkDb (invoices d) (users d) (payments d) (confirmation_codes d)
       (invoice_milestones d) (payouts d) (referral_earnings d)
       (referral_withdrawals d) (f (processed_payments d)) (disputes d)
       (guests d) (chats d) (messages d).

Definition with_disputes (f : list dispute -> list dispute) (d : db) : db :=
  mkDb (invoices d) (users d) (payments d) (confirmation_codes d)
       (invoice_milestones d) (payouts d) (referral_earnings d)
       (referral_withdrawals d) (processed_payments d) (f (disputes d))
       (guests d) (chats d) (messages d).

Definition with_guests (f : list guest -> list guest) (d : db) : db :=
  mkDb (invoices d) (users d) (payments d) (confirmation_codes d)
       (invoice_milestones d) (payouts d) (referral_earnings d)
       (referral_withdrawals d) (processed_payments d) (disputes d)
       (f (guests d)) (chats d) (messages d).

Definition with_chats (f : list chat -> list chat) (d : db) : db :=
  mkDb (invoices d) (users d) (payments d) (confirmation_codes d)
       (invoice_milestones d) (payouts d) (referral_earnings d)
       (referral_withdrawals d) (processed_payments d) (disputes d)
       (guests d) (f (chats d)) (messages d).

Definition with_messages (f : list message -> list message) (d : db) : db :=
  mkDb (invoices d) (users d) (payments d) (confirmation_codes d)
       (invoice_milestones d) (payouts d) (referral_earnings d)
       (referral_withdrawals d) (processed_payments d) (disputes d)
       (guests d) (chats d) (f (messages d)).

(** ** Statements

    One constructor per SQL statement text of the handlers; the index is the
    type of what the handler reads from the result ([rows], [rowCount], the
    error code of a failed statement). *)

Inductive stmt : Type -> Type :=
(* confirmation_codes *)
| ClaimConfirmationCode (code_id : Z) : stmt (list Z)
| SelectCodesByCodeId (code_id : Z) : stmt (list confirmation_code)
| SelectCodesByToken (token : string) : stmt (list confirmation_code)
| InsertConfirmationCode (code : string) (code_id : Z) (token : string)
    (userid invoiceid : Z) : stmt (option string)
(* invoices *)
| SelectInvoiceById (id : Z) : stmt (list invoice)
| SelectInvoiceByNumber (number : string) : stmt (list invoice)
| UpdateInvoiceStatus (status : string) (id : Z) : stmt unit
(* users *)
| SelectUserById (id : Z) : stmt (list user)
| CreditReferralBalance (amount id : Z) : stmt (option string)
| DeductReferralBalance (amount id : Z) : stmt (list Z)
| RecheckBalance (id : Z) : stmt (list (Z * nat))
(* payments, processed_payments *)
| SelectPaymentsByInvoice (invoiceid : Z) : stmt (list payment)
| SelectPaymentsByProvider (uuid : string) : stmt (list payment)
| MarkPaymentPaid (uuid : string) : stmt unit
| InsertProcessedPayment (uuid : string) : stmt nat
(* invoice_milestones *)
| SelectMilestonesByToken (token : string) : stmt (list milestone)
| SelectMilestoneById (id : Z) : stmt (list milestone)
| SelectUnreleasedBefore (invoice_id number : Z) : stmt (list milestone)
| ClaimMilestone (id : Z) : stmt (list Z)
| CompleteMilestone (token : string) (id : Z) : stmt unit
| CountUnreleased (invoice_id : Z) : stmt nat
(* payouts, referral_earnings, referral_withdrawals *)
| InsertPayout (row : payout) : stmt unit
| InsertReferralEarning (referrer referred : Z) (invoice_number : string)
    (invoice_amount earned : Z) : stmt (list Z)
| InsertWithdrawal (userid amount : Z) (momo : string) : stmt Z
| UpdateWithdrawalStatus (status : string) (id : Z) : stmt unit
(* disputes *)
| SelectDisputesByAdminToken (token : string) : stmt (list dispute)
| UpdateDisputeStatus (status token : string) : stmt unit
(* guests, chats, messages *)
| SelectGuestsByInvoiceNumber (number : string) : stmt (list guest)
| SelectLatestGuest (number : string) : stmt (list guest)
| UpdateGuestChatToken (token number : string) : stmt unit
| InsertChat (invoiceid : Z) (number : string) : stmt unit
| SelectChatsByInvoiceNumber (number : string) : stmt (list chat)
| InsertMessage (row : message) : stmt unit.

(** The range of an INTEGER column or parameter.  [users.referral_balance]
    is INTEGER: a statement that is given, or would store, a value out of
    this range fails with SQLSTATE 22003 and changes nothing. *)
Definition INT4_MIN : Z := -2147483648.
Definition INT4_MAX : Z := 2147483647.
Definition int4 (z : Z) : bool := (INT4_MIN <=? z) && (z <=? INT4_MAX).

(** The next value of a SERIAL column: above every id in the table. *)
Definition next_id (ids : list Z) : Z := 1 + fold_right Z.max 0 ids.

Definition token_is (o : option string) (t : string) : bool :=
  match o with Some s => String.eqb s t | None => false end.

(** WHERE clauses. *)
Definition code_unclaimed (id : Z) (c : confirmation_code) : bool :=
  (c_code_id c =? id) && negb (c_is_used c).

Definition milestone_claimable (id : Z) (m : milestone) : bool :=
  (m_id m =? id) && String.eqb (m_status m) "completed".

Definition milestone_unreleased (invoice_id : Z) (m : milestone) : bool :=
  (m_invoice_id m =? invoice_id) && negb (String.eqb (m_status m) "released").

Definition is_pending_of (userid : Z) (w : referral_withdrawal) : bool :=
  (w_userid w =? userid) && String.eqb (w_status w) "pending".

Definition can_deduct (amount id : Z) (ws : list referral_withdrawal) (u : user) : bool :=
  (u_id u =? id) && (amount <=? u_referral_balance u)
  && negb (existsb (is_pending_of id) ws).

(** SET clauses. *)
Definition set_used (c : confirmation_code) : confirmation_code :=
  mkCode (c_code c) (c_code_id c) (c_verification_token c) (c_userid c)
         (c_invoiceid c) true.

Definition set_milestone (status : string) (token : option string) (m : milestone)
  : milestone :=
  mkMilestone (m_id m) (m_invoice_id m) (m_invoice_number m)
              (m_milestone_number m) (m_label m) (m_amount m) status token.

Definition set_invoice_status (status : string) (i : invoice) : invoice :=
  mkInvoice (i_id i) (i_invoicenumber i) (i_invoicename i) (i_userid i)
            (i_amount i) status.

Definition set_payment_status (status : string) (p : payment) : payment :=
  mkPayment (p_id p) (p_invoiceid p) (p_providerpaymentid p) (p_amount p) status.

Definition add_balance (delta : Z) (u : user) : user :=
  mkUser (u_id u) (u_name u) (u_email u) (u_phone u) (u_referred_by u)
         (u_referral_balance u + delta).

Definition set_withdrawal_status (status : string) (w : referral_withdrawal)
  : referral_withdrawal :=
  mkWithdrawal (w_id w) (w_userid w) (w_amount w) (w_momo_number w) status.

Definition set_dispute_status (status : string) (x : dispute) : dispute :=
  mkDispute (d_invoicenumber x) (d_opened_by x) (d_admin_token x) status.

Definition set_chat_token (token : string) (g : guest) : guest :=
  mkGuest (g_invoicenumber g) (g_name g) (g_email g) (g_momo_number g)
          (Some token) (g_created_at g).

(** UPDATE ... WHERE: every row the predicate selects is rewritten. *)
Definition update_where {T} (p : T -> bool) (f : T -> T) (l : list T) : list T :=
  map (fun x => if p x then f x else x) l.

(** ORDER BY created_at DESC LIMIT 1. *)
Fixpoint latest_guest (l : list guest) : list guest :=
  match l with
  | [] => []
  | g :: tl =>
      match latest_guest tl with
      | [] => [g]
      | h :: _ => if g_created_at h <? g_created_at g then [g] else [h]
      end
  end.

(** [exec q d] runs one statement: the new store and what the handler gets.
    The foreign keys of an inserted row are taken to hold: the handlers
    insert the ids of rows they have just read. *)
Definition exec {R} (q : stmt R) (d : db) : db * R :=
  match q in stmt R return db * R with
  | ClaimConfirmationCode id =>
      (with_confirmation_codes (update_where (code_unclaimed id) set_used) d,
       map c_code_id (filter (code_unclaimed id) (confirmation_codes d)))
  | SelectCodesByCodeId id =>
      (d, filter (fun c => c_code_id c =? id) (confirmation_codes d))
  | SelectCodesByToken t =>
      (d, filter (fun c => String.eqb (c_verification_token c) t)
                 (confirmation_codes d))
  | InsertConfirmationCode code id token userid invoiceid =>
      if existsb (fun c => String.eqb (c_code c) code) (confirmation_codes d)
      then (d, Some "23505")
      else (with_confirmation_codes
              (fun l => l ++ [mkCode code id token userid invoiceid false]) d,
            None)
  | SelectInvoiceById id =>
      (d, filter (fun i => i_id i =? id) (invoices d))
  | SelectInvoiceByNumber n =>
      (d, filter (fun i => String.eqb (i_invoicenumber i) n) (invoices d))
  | UpdateInvoiceStatus status id =>
      (with_invoices (update_where (fun i => i_id i =? id)
                                   (set_invoice_status status)) d, tt)
  | SelectUserById id =>
      (d, filter (fun u => u_id u =? id) (users d))
  | CreditReferralBalance amount id =>
      if int4 amount
         && forallb (fun u => int4 (u_referral_balance u + amount))
                    (filter (fun u => u_id u =? id) (users d))
      then (with_users (update_where (fun u => u_id u =? id)
                                     (add_balance amount)) d, None)
      else (d, Some "22003")
  | DeductReferralBalance amount id =>
      let ok := can_deduct amount id (referral_withdrawals d) in
      (with_users (update_where ok (add_balance (- amount))) d,
       map (fun u => u_referral_balance u - amount) (filter ok (users d)))
  | RecheckBalance id =>
      (d, map (fun u => (u_referral_balance u,
                         List.length (filter (is_pending_of id)
                                        (referral_withdrawals d))))
              (filter (fun u => u_id u =? id) (users d)))
  | SelectPaymentsByInvoice id =>
      (d, filter (fun p => p_invoiceid p =? id) (payments d))
  | SelectPaymentsByProvider uuid =>
      (d, filter (fun p => String.eqb (p_providerpaymentid p) uuid) (payments d))
  | MarkPaymentPaid uuid =>
      (with_payments
         (update_where (fun p => String.eqb (p_providerpaymentid p) uuid)
                       (set_payment_status "paid")) d, tt)
  | InsertProcessedPayment uuid =>
      if existsb (String.eqb uuid) (processed_payments d)
      then (d, 0%nat)
      else (with_processed_payments (fun l => l ++ [uuid]) d, 1%nat)
  | SelectMilestonesByToken t =>
      (d, filter (fun m => token_is (m_release_token m) t) (invoice_milestones d))
  | SelectMilestoneById id =>
      (d, filter (fun m => m_id m =? id) (invoice_milestones d))
  | SelectUnreleasedBefore invoice_id number =>
      (d, filter (fun m => milestone_unreleased invoice_id m
                           && (m_milestone_number m <? number))
                 (invoice_milestones d))
  | ClaimMilestone id =>
      (with_invoice_milestones
         (update_where (milestone_claimable id) (set_milestone "released" None)) d,
       map m_id (filter (milestone_claimable id) (invoice_milestones d)))
  | CompleteMilestone token id =>
      (with_invoice_milestones
         (update_where (fun m => m_id m =? id)
                       (set_milestone "completed" (Some token))) d, tt)
  | CountUnreleased invoice_id =>
      (d, List.length (filter (milestone_unreleased invoice_id) (invoice_milestones d)))
  | InsertPayout row =>
      (with_payouts (fun l => l ++ [row]) d, tt)
  | InsertReferralEarning referrer referred number amount earned =>
      if existsb (fun e => String.eqb (re_invoice_number e) number)
                 (referral_earnings d)
      then (d, [])
      else
        let id := next_id (map re_id (referral_earnings d)) in
        (with_referral_earnings
           (fun l => l ++ [mkEarning id referrer referred number amount earned]) d,
         [id])
  | InsertWithdrawal userid amount momo =>
      let id := next_id (map w_id (referral_withdrawals d)) in
      (with_referral_withdrawals
         (fun l => l ++ [mkWithdrawal id userid amount momo "pending"]) d, id)
  | UpdateWithdrawalStatus status id =>
      (with_referral_withdrawals
         (update_where (fun w => w_id w =? id) (set_withdrawal_status status)) d,
       tt)
  | SelectDisputesByAdminToken t =>
      (d, filter (fun x => String.eqb (d_admin_token x) t) (disputes d))
  | UpdateDisputeStatus status t =>
      (with_disputes
         (update_where (fun x => String.eqb (d_admin_token x) t)
                       (set_dispute_status status)) d, tt)
  | SelectGuestsByInvoiceNumber n =>
      (d, filter (fun g => String.eqb (g_invoicenumber g) n) (guests d))
  | SelectLatestGuest n =>
      (d, latest_guest
            (filter (fun g => String.eqb (g_invoicenumber g) n) (guests d)))
  | UpdateGuestChatToken token n =>
      (with_guests
         (update_where (fun g => String.eqb (g_invoicenumber g) n)
                       (set_chat_token token)) d, tt)
  | InsertChat invoiceid n =>
      if existsb (fun c => String.eqb (ch_invoicenumber c) n) (chats d)
      then (d, tt)
      else (with_chats
              (fun l => l ++ [mkChat (next_id (map ch_id (chats d))) invoiceid n]) d,
            tt)
  | SelectChatsByInvoiceNumber n =>
      (d, filter (fun c => String.eqb (ch_invoicenumber c) n) (chats d))
  | InsertMessage row =>
      (with_messages (fun l => l ++ [row]) d, tt)
  end.

(** ** Handlers as program trees *)

(** JavaScript exceptions the handlers raise or meet. *)
Inductive error :=
| AlreadyProcessedError (invoiceId : Z)
    (* "Payout for invoice id .. has already been processed or the
       confirmation code was not found." *)
| InvoiceNotFoundError      (* "Invoice not found" *)
| SellerNotFoundError       (* "Seller account not found" *)
| GatewayError              (* axios rejects: the gateway call failed *)
| TypeError                 (* a property of [undefined] is read *)
| PgError (code : string).  (* a failed statement, by SQLSTATE *)

(** Calls to the payment rail (Campay). *)
Inductive call :=
| CampayToken
| CampayWithdraw (amount : Z) (to description external_reference : string).

(** Fire-and-forget or best-effort notifications and log lines: their
    failure is caught and logged by every handler, so they return nothing. *)
Inductive notice :=
| NotifyUser (userid : Z) (type : string)
| SendEmail (to subject : string)
| LogFees (gross totalFee fonlokNet referralEarning sellerReceives : Z)
    (* console.log of the fee breakdown of a seller payout *)
| LogRefund (gross fonlokFee refundToBuyer : Z).
    (* console.log of the breakdown of a dispute refund *)

Inductive prog (A : Type) : Type :=
| Ret (a : A)
| Throw (e : error)
| Query {R : Type} (q : stmt R) (k : R -> prog A)
| Gateway (c : call) (k : bool -> prog A)
| Random (k : string -> prog A)
| Emit (e : notice) (k : prog A)
| Spin.
    (* a retry loop that has not ended within the unrolling bound *)

Arguments Ret {A} a.
Arguments Throw {A} e.
Arguments Query {A R} q k.
Arguments Gateway {A} c k.
Arguments Random {A} k.
Arguments Emit {A} e k.
Arguments Spin {A}.

Fixpoint bind {A B} (p : prog A) (f : A -> prog B) : prog B :=
  match p with
  | Ret a => f a
  | Throw e => Throw e
  | Query q k => Query q (fun r => bind (k r) f)
  | Gateway c k => Gateway c (fun b => bind (k b) f)
  | Random k => Random (fun s => bind (k s) f)
  | Emit e k => Emit e (bind k f)
  | Spin => Spin
  end.

(** [try { p } catch (e) { h e }]. *)
Fixpoint catch {A} (p : prog A) (h : error -> prog A) : prog A :=
  match p with
  | Ret a => Ret a
  | Throw e => h e
  | Query q k => Query q (fun r => catch (k r) h)
  | Gateway c k => Gateway c (fun b => catch (k b) h)
  | Random k => Random (fun s => catch (k s) h)
  | Emit e k => Emit e (catch k h)
  | Spin => Spin
  end.

(** [await db.query(..)], [await axios.post(..)] (throws when the call
    fails), [crypto.randomBytes(32).toString("hex")] and the like. *)
Definition query {R} (q : stmt R) : prog R := Query q Ret.
Definition axios_post (c : call) : prog unit :=
  Gateway c (fun ok => if ok then Ret tt else Throw GatewayError).
Definition random_string : prog string := Random Ret.
Definition emit (e : notice) : prog unit := Emit e (Ret tt).

Declare Scope prog_scope.
Delimit Scope prog_scope with prog.
Notation "x <- p ;; k" := (bind p (fun x => k))
  (at level 61, p at next level, right associativity) : prog_scope.
Notation "p ;; k" := (bind p (fun _ => k))
  (at level 61, right associativity) : prog_scope.
Local Open Scope prog_scope.

(** [await db.query(..)] of a statement that can fail: the error is thrown. *)
Definition query_or_throw (q : stmt (option string)) : prog unit :=
  err <- query q ;;
  match err with
  | None => Ret tt
  | Some code => Throw (PgError code)
  end.

(** [await db.query(..)] with integer parameters that come from the
    request: a value out of the range of INTEGER is refused (SQLSTATE 22003)
    when the parameters are bound, before the statement runs. *)
Definition query_bound {R} (params : list Z) (q : stmt R) : prog R :=
  if forallb int4 params then query q else Throw (PgError "22003").

(** ** Running programs *)

(** What the outside world answers at one step: whether the gateway call
    succeeds, and the next random string. *)
Record input := mkInput { gw_ok : bool; rnd : string }.

Inductive event :=
| EvQuery {R : Type} (q : stmt R) (r : R)
| EvGateway (c : call) (ok : bool)
| EvRandom (s : string)
| EvNotice (e : notice).

(** One step of one handler instance; [None] when it has finished. *)
Definition step1 {A} (p : prog A) (i : input) (d : db)
  : option (db * event * prog A) :=
  match p with
  | Ret _ | Throw _ | Spin => None
  | Query q k => let (d', r) := exec q d in Some (d', EvQuery q r, k r)
  | Gateway c k => Some (d, EvGateway c (gw_ok i), k (gw_ok i))
  | Random k => Some (d, EvRandom (rnd i), k (rnd i))
  | Emit e k => Some (d, EvNotice e, k)
  end.

Definition finished {A} (p : prog A) : bool :=
  match p with Ret _ | Throw _ => true | _ => false end.

Inductive outcome (A : Type) :=
| Returned (a : A)
| Thrown (e : error)
| Spinning.
Arguments Returned {A} a.
Arguments Thrown {A} e.
Arguments Spinning {A}.

(** A whole handler run alone: the [n]-th step reads [o n].  Events are in
    the order they happen. *)
Fixpoint exec_prog {A} (p : prog A) (o : nat -> input) (n : nat) (d : db)
  : db * list event * outcome A :=
  match p with
  | Ret a => (d, [], Returned a)
  | Throw e => (d, [], Thrown e)
  | Query q k =>
      let (d', r) := exec q d in
      let '(d'', evs, out) := exec_prog (k r) o (S n) d' in
      (d'', EvQuery q r :: evs, out)
  | Gateway c k =>
      let '(d'', evs, out) := exec_prog (k (gw_ok (o n))) o (S n) d in
      (d'', EvGateway c (gw_ok (o n)) :: evs, out)
  | Random k =>
      let '(d'', evs, out) := exec_prog (k (rnd (o n))) o (S n) d in
      (d'', EvRandom (rnd (o n)) :: evs, out)
  | Emit e k =>
      let '(d'', evs, out) := exec_prog k o (S n) d in
      (d'', EvNotice e :: evs, out)
  | Spin => (d, [], Spinning)
  end.

(** Several handler instances over one store.  [trace] is newest first and
    tags every event with the index of the instance that made it. *)
Record sys (A : Type) := mkSys {
  store : db;
  threads : list (prog A);
  trace : list (nat * event)
}.
Arguments mkSys {A} store threads trace.

Fixpoint set_nth {T} (n : nat) (x : T) (l : list T) : list T :=
  match l, n with
  | [], _ => []
  | _ :: tl, O => x :: tl
  | y :: tl, S m => y :: set_nth m x tl
  end.

Definition sys_step {A} (t : nat) (i : input) (s : sys A) : sys A :=
  match nth_error (threads s) t with
  | None => s
  | Some p =>
      match step1 p i (store s) with
      | None => s
      | Some (d', e, p') =>
          mkSys d' (set_nth t p' (threads s)) ((t, e) :: trace s)
      end
  end.

(** A schedule names, step by step, the instance that moves and what the
    outside world answers it. *)
Definition schedule := list (nat * input).

Definition run_sched {A} (sch : schedule) (s : sys A) : sys A :=
  fold_left (fun s ti => sys_step (fst ti) (snd ti) s) sch s.

Definition start {A} (d : db) (ps : list (prog A)) : sys A := mkSys d ps [].

Definition all_finished {A} (s : sys A) : bool := forallb finished (threads s).

(** The events of instance [t], oldest first. *)
Definition events_of (t : nat) (tr : list (nat * event)) : list event :=
  map snd (filter (fun te => Nat.eqb (fst te) t) (rev tr)).

(** ** Shared helpers of the handlers *)

Record response := mkResp { res_status : Z; res_body : string }.

Definition Z_to_string (z : Z) : string := NilZero.string_of_int (Z.to_int z).

Infix "^^" := String.append (at level 60, right associativity).

(** [n.toLocaleString()] of an integer in the default (en-US) locale: the
    digits in groups of three, separated by commas. *)
Fixpoint group_thousands (digits : list Ascii.ascii) (n : nat) : list Ascii.ascii :=
  match digits with
  | [] => []
  | c :: tl =>
      match n, tl with
      | S (S O), _ :: _ => c :: ","%char :: group_thousands tl 0
      | _, _ => c :: group_thousands tl (S n)
      end
  end.

Definition toLocaleString (z : Z) : string :=
  let digits := list_ascii_of_string (Z_to_string (Z.abs z)) in
  (if z <? 0 then "-" else "")
  ^^ string_of_list_ascii (rev (group_thousands (rev digits) 0)).

(** JavaScript truthiness of a string ([!code] is [negb (truthy code)]) and
    of a nullable column. *)
Definition truthy (s : string) : bool := negb (String.eqb s "").
Definition truthy_opt (o : option string) : bool :=
  match o with Some s => truthy s | None => false end.

Definition is_some {T} (o : option T) : bool :=
  match o with Some _ => true | None => false end.

(** [rows[0]?.referred_by ?? null]. *)
Definition referred_by_of (rows : list user) : option Z :=
  match rows with u :: _ => u_referred_by u | [] => None end.

(** Fee constants

    When a referral is involved the platform keeps 1.5% and the referrer
    earns 0.5%; otherwise the platform keeps the full 2%.  The seller always
    receives gross - 2%.  The JavaScript literals are binary doubles; here
    they are the exact decimal fractions they denote. *)
Definition PLATFORM_FEE_RATE : Q := 15 # 1000.
Definition REFERRAL_FEE_RATE : Q := 5 # 1000.
Definition TOTAL_FEE_RATE : Q := 2 # 100.

Definition Math_floor (x : Q) : Z := Qfloor x.

(** [n * rate] for an integer amount [n]. *)
Definition times (n : Z) (rate : Q) : Q := (inject_Z n * rate)%Q.

(** Referral credit: INSERT first, balance only if new.  The block is
    written out in each of the payout paths (direct, link, milestone and
    dispute); the paths differ only in the key they pass.  An error of
    either statement is caught and logged: the payout still succeeds. *)
Definition creditReferral (referrerId sellerId : Z) (key : string)
  (grossAmount referralEarning : Z) : prog unit :=
  catch
    (earningsInsert <-
       query (InsertReferralEarning referrerId sellerId key grossAmount
                                    referralEarning) ;;
     match earningsInsert with
     | _ :: _ => query_or_throw (CreditReferralBalance referralEarning referrerId)
     | [] => Ret tt
     end)
    (fun _ => Ret tt).

(** [if (hasReferral && referralEarning > 0) { ... }]. *)
Definition creditReferralIf (referrerId : option Z) (sellerId : Z) (key : string)
  (grossAmount referralEarning : Z) : prog unit :=
  match referrerId with
  | Some r =>
      if 0 <? referralEarning
      then creditReferral r sellerId key grossAmount referralEarning
      else Ret tt
  | None => Ret tt
  end.

(** ** Payout routes (code, e-mail link, milestone) *)

Module Payout.

(** Shared core for Method 1 (code-based release): [invoiceId] is
    [invoices.id]. *)
Definition executePayout (invoiceId : Z) : prog bool :=
  (* Step 1: atomically claim the payout slot *)
  lockResult <- query (ClaimConfirmationCode invoiceId) ;;
  match lockResult with
  | [] => Throw (AlreadyProcessedError invoiceId)
  | _ :: _ =>
  (* Step 2: fetch invoice and seller *)
  invoiceRes <- query (SelectInvoiceById invoiceId) ;;
  match invoiceRes with
  | [] => Throw InvoiceNotFoundError
  | invoiceRow :: _ =>
  let sellerId := i_userid invoiceRow in
  let grossAmount := i_amount invoiceRow in
  userResult <- query (SelectUserById sellerId) ;;
  match userResult with
  | [] => Throw SellerNotFoundError
  | invoiceUser :: _ =>
  (* Step 3: referral and fees *)
  referrerCheck <- query (SelectUserById sellerId) ;;
  let referrerId := referred_by_of referrerCheck in
  let hasReferral := is_some referrerId in
  let totalFee := Math_floor (times grossAmount TOTAL_FEE_RATE) in
  let referralEarning :=
    if hasReferral then Math_floor (times grossAmount REFERRAL_FEE_RATE) else 0 in
  let fonlokNet := totalFee - referralEarning in
  let sellerReceives := grossAmount - totalFee in
  emit (LogFees grossAmount totalFee fonlokNet referralEarning sellerReceives) ;;
  (* Step 4: transfer to the seller *)
  axios_post CampayToken ;;
  axios_post (CampayWithdraw sellerReceives (u_phone invoiceUser)
                ("Fonlok payout for invoice " ^^ i_invoicenumber invoiceRow)
                (i_invoicenumber invoiceRow)) ;;
  (* Step 5: record the payout, mark the invoice completed *)
  query (InsertPayout (mkPayout sellerId sellerReceives "Mobile Money" "paid"
                                invoiceId (i_invoicenumber invoiceRow))) ;;
  query (UpdateInvoiceStatus "completed" invoiceId) ;;
  (* Step 6: notify the seller *)
  emit (NotifyUser sellerId "payout_sent") ;;
  (* Step 7: referral earnings *)
  creditReferralIf referrerId sellerId (i_invoicenumber invoiceRow)
                   grossAmount referralEarning ;;
  (* Step 8: receipt to the seller *)
  emit (SendEmail (u_email invoiceUser)
          ("Payout Confirmed  - Invoice " ^^ i_invoicenumber invoiceRow
           ^^ " | Fonlok")) ;;
  Ret true
  end end end.

(** Shared core for Method 2 (e-mail link release): the same steps. *)
Definition executePayoutLink (invoiceId : Z) : prog bool :=
  lockResult <- query (ClaimConfirmationCode invoiceId) ;;
  match lockResult with
  | [] => Throw (AlreadyProcessedError invoiceId)
  | _ :: _ =>
  invoiceRes <- query (SelectInvoiceById invoiceId) ;;
  match invoiceRes with
  | [] => Throw InvoiceNotFoundError
  | invoiceRow :: _ =>
  let sellerId := i_userid invoiceRow in
  let grossAmount := i_amount invoiceRow in
  userResult <- query (SelectUserById sellerId) ;;
  match userResult with
  | [] => Throw SellerNotFoundError
  | invoiceUser :: _ =>
  referrerCheck <- query (SelectUserById sellerId) ;;
  let referrerId := referred_by_of referrerCheck in
  let hasReferral := is_some referrerId in
  let totalFee := Math_floor (times grossAmount TOTAL_FEE_RATE) in
  let referralEarning :=
    if hasReferral then Math_floor (times grossAmount REFERRAL_FEE_RATE) else 0 in
  let fonlokNet := totalFee - referralEarning in
  let sellerReceives := grossAmount - totalFee in
  emit (LogFees grossAmount totalFee fonlokNet referralEarning sellerReceives) ;;
  axios_post CampayToken ;;
  axios_post (CampayWithdraw sellerReceives (u_phone invoiceUser)
                ("Fonlok payout for invoice " ^^ i_invoicenumber invoiceRow)
                (i_invoicenumber invoiceRow)) ;;
  query (InsertPayout (mkPayout sellerId sellerReceives "Mobile Money" "paid"
                                invoiceId (i_invoicenumber invoiceRow))) ;;
  query (UpdateInvoiceStatus "completed" invoiceId) ;;
  emit (NotifyUser sellerId "payout_sent") ;;
  creditReferralIf referrerId sellerId (i_invoicenumber invoiceRow)
                   grossAmount referralEarning ;;
  emit (SendEmail (u_email invoiceUser)
          ("Payout Confirmed  - Invoice " ^^ i_invoicenumber invoiceRow
           ^^ " | Fonlok")) ;;
  Ret true
  end end end.

(** Responses of the routes. *)
Definition already_paid_out (invoiceNumber : string) : response :=
  mkResp 400 ("Invoice " ^^ invoiceNumber ^^ " has already been paid out.").
Definition invoice_does_not_exist (invoiceNumber : string) : response :=
  mkResp 404 ("Invoice " ^^ invoiceNumber ^^ " does not exist.").
Definition not_paid_yet (invoiceNumber : string) : response :=
  mkResp 400 ("Invoice " ^^ invoiceNumber ^^ " has not been paid yet.").
Definition no_confirmation_code : response :=
  mkResp 404 "No confirmation code found for this invoice.".
Definition code_incorrect : response :=
  mkResp 401
    "The code you entered is incorrect. Please ask the buyer for their code.".
Definition payout_processed : response :=
  mkResp 200
    "Payout processed successfully. Funds are on their way to your Mobile Money account.".
Definition payout_error : response :=
  mkResp 500
    "An error occurred while processing your payout. Please try again or contact support.".

(** METHOD 1: POST /release-funds { code, invoiceNumber }. *)
Definition post_release_funds (code invoiceNumber : string) : prog response :=
  if negb (truthy code) || negb (truthy invoiceNumber)
  then Ret (mkResp 400 "Both code and invoice number are required.")
  else
  catch
    ((* Step 1: resolve the invoice number *)
     invoiceRes <- query (SelectInvoiceByNumber invoiceNumber) ;;
     match invoiceRes with
     | [] => Ret (invoice_does_not_exist invoiceNumber)
     | invoice :: _ =>
     let invoiceId := i_id invoice in
     if String.eqb (i_status invoice) "completed"
     then Ret (already_paid_out invoiceNumber)
     else
     (* Step 2: the invoice has been paid *)
     paymentCheck <- query (SelectPaymentsByInvoice invoiceId) ;;
     if negb (match paymentCheck with
              | payment :: _ => String.eqb (p_status payment) "paid"
              | [] => false
              end)
     then Ret (not_paid_yet invoiceNumber)
     else
     (* Step 3 and 4: the confirmation code *)
     codeCheck <- query (SelectCodesByCodeId invoiceId) ;;
     match codeCheck with
     | [] => Ret no_confirmation_code
     | codeRow :: _ =>
     if c_is_used codeRow then Ret (already_paid_out invoiceNumber)
     else if negb (String.eqb (c_code codeRow) code) then Ret code_incorrect
     else
     (* Step 5: execute the payout *)
     executePayout invoiceId ;;
     Ret payout_processed
     end end)
    (fun _ => Ret payout_error).

Definition token_does_not_exist : response :=
  mkResp 404 "<h1>Invalid Link: This token does not exist.</h1>".
Definition link_expired : response :=
  mkResp 400 "<h1>Link Expired: Payout already processed.</h1>".
Definition system_error : response :=
  mkResp 500 "<h1>System Error: Please contact support.</h1>".
Definition confirm_release_page (token id : string) : response :=
  mkResp 200
    ("<h2>Release Funds to Seller?</h2><form method=POST action=/api/verify-payout/"
     ^^ token ^^ "/" ^^ id ^^ ">").

(** METHOD 2, step 1: GET /verify-payout/:token/:id renders the page. *)
Definition get_verify_payout (token id : string) : prog response :=
  catch
    (user <- query (SelectCodesByToken token) ;;
     match user with
     | [] => Ret token_does_not_exist
     | users :: _ =>
     if c_is_used users then Ret link_expired
     else Ret (confirm_release_page token id)
     end)
    (fun _ => Ret system_error).

(** METHOD 2, step 2: POST /verify-payout/:token/:id executes the payout. *)
Definition post_verify_payout (token id : string) : prog response :=
  catch
    (user <- query (SelectCodesByToken token) ;;
     match user with
     | [] => Ret token_does_not_exist
     | users :: _ =>
     let userInvoiceId := c_code_id users in
     if c_is_used users then Ret link_expired
     else if negb (String.eqb (Z_to_string userInvoiceId) id)
     then Ret (mkResp 400 "<h1>Invalid Request: Link parameters do not match.</h1>")
     else
     paymentCheck <- query (SelectPaymentsByInvoice userInvoiceId) ;;
     if negb (match paymentCheck with
              | payment :: _ => String.eqb (p_status payment) "paid"
              | [] => false
              end)
     then Ret (mkResp 400 "<h1>Wait: The buyer hasn't completed the payment yet.</h1>")
     else
     executePayoutLink userInvoiceId ;;
     Ret (mkResp 200 "<h1>Success! Funds have been released to the seller.</h1>")
     end)
    (fun _ => Ret system_error).

Definition ms_invalid_link : response :=
  mkResp 404
    "<h2>Invalid Link</h2><p>This release link is invalid or has already been used.</p>".
Definition ms_already_released : response :=
  mkResp 400
    "<h2>Already Released</h2><p>This milestone has already been paid out to the seller.</p>".
Definition ms_not_ready : response :=
  mkResp 400
    "<h2>Not Ready</h2><p>This milestone has not been marked as complete by the seller yet.</p>".
Definition ms_confirm_page (token label : string) : response :=
  mkResp 200
    ("<h2>Release Milestone Payment?</h2><strong>" ^^ label
     ^^ "</strong><form method=POST action=/api/release-milestone/" ^^ token ^^ ">").
Definition ms_released_page (sellerReceives : Z) (label : string) (remaining : nat)
  : response :=
  mkResp 200
    ("<h1>Funds Released</h1>You have successfully released "
     ^^ Z_to_string sellerReceives ^^ " XAF to the seller for: " ^^ label
     ^^ (if Nat.eqb remaining 0
         then " All milestones are now complete. This invoice is fully settled."
         else " The seller will be notified to proceed with the next milestone.")).
Definition ms_error : response :=
  mkResp 500 "<h2>Something went wrong</h2>".

(** METHOD 3: GET /release-milestone/:token shows the confirmation page. *)
Definition get_release_milestone (token : string) : prog response :=
  catch
    (msResult <- query (SelectMilestonesByToken token) ;;
     match msResult with
     | [] => Ret ms_invalid_link
     | milestone :: _ =>
     if String.eqb (m_status milestone) "released" then Ret ms_already_released
     else if negb (String.eqb (m_status milestone) "completed") then Ret ms_not_ready
     else Ret (ms_confirm_page token (m_label milestone))
     end)
    (fun _ => Ret system_error).

(** METHOD 3: POST /release-milestone/:token executes the payout. *)
Definition post_release_milestone (token : string) : prog response :=
  catch
    ((* 1. the milestone of the token *)
     msResult <- query (SelectMilestonesByToken token) ;;
     match msResult with
     | [] => Ret ms_invalid_link
     | milestone :: _ =>
     (* 2. guard checks *)
     if String.eqb (m_status milestone) "released" then Ret ms_already_released
     else if negb (String.eqb (m_status milestone) "completed") then Ret ms_not_ready
     else
     (* 3. the invoice *)
     invoiceResult <- query (SelectInvoiceById (m_invoice_id milestone)) ;;
     match invoiceResult with
     | [] => Ret (mkResp 404 "<h2>Invoice not found.</h2>")
     | invoice :: _ =>
     (* 4. the seller *)
     sellerResult <- query (SelectUserById (i_userid invoice)) ;;
     match sellerResult with
     | [] => Ret (mkResp 404 "<h2>Seller not found.</h2>")
     | seller :: _ =>
     (* Step 5: atomically claim this milestone *)
     milestoneLock <- query (ClaimMilestone (m_id milestone)) ;;
     match milestoneLock with
     | [] => Ret ms_already_released
     | _ :: _ =>
     (* Step 6: fees *)
     let milestoneAmount := m_amount milestone in
     referrerCheckMs <- query (SelectUserById (i_userid invoice)) ;;
     let referrerIdMs := referred_by_of referrerCheckMs in
     let hasReferralMs := is_some referrerIdMs in
     let msTotalFee := Math_floor (times milestoneAmount TOTAL_FEE_RATE) in
     let msReferralEarning :=
       if hasReferralMs
       then Math_floor (times milestoneAmount REFERRAL_FEE_RATE) else 0 in
     let msFonlokNet := msTotalFee - msReferralEarning in
     let sellerReceives := milestoneAmount - msTotalFee in
     emit (LogFees milestoneAmount msTotalFee msFonlokNet msReferralEarning
                   sellerReceives) ;;
     (* Step 7: transfer to the seller *)
     axios_post CampayToken ;;
     axios_post (CampayWithdraw sellerReceives (u_phone seller)
                   ("Fonlok milestone payout: " ^^ m_label milestone
                    ^^ " (Invoice " ^^ i_invoicenumber invoice ^^ ")")
                   ("milestone-" ^^ Z_to_string (m_id milestone))) ;;
     (* Step 8: record the payout *)
     query (InsertPayout (mkPayout (i_userid invoice) sellerReceives
                            "Mobile Money" "paid" (i_id invoice)
                            (i_invoicenumber invoice))) ;;
     emit (NotifyUser (i_userid invoice) "milestone_released") ;;
     (* Step 9: referral earnings *)
     creditReferralIf referrerIdMs (i_userid invoice)
       (i_invoicenumber invoice ^^ "-ms" ^^ Z_to_string (m_id milestone))
       milestoneAmount msReferralEarning ;;
     (* Step 10: are all milestones of the invoice released now? *)
     remaining <- query (CountUnreleased (m_invoice_id milestone)) ;;
     (if Nat.eqb remaining 0
      then query (UpdateInvoiceStatus "completed" (m_invoice_id milestone))
      else Ret tt) ;;
     (* Step 11: receipt to the seller *)
     emit (SendEmail (u_email seller)
             ("Milestone Payment Released  - " ^^ m_label milestone ^^ " | Fonlok")) ;;
     Ret (ms_released_page sellerReceives (m_label milestone) remaining)
     end end end end)
    (fun _ => Ret ms_error).

End Payout.

(** ** Payment processing (webhook and poll converge here) *)

Module Payments.

(** Step 5 of [processSuccessfulPayment]: [while (!isSaved)] draws a code and
    a token and inserts them; a unique violation (23505) draws again, any
    other error is rethrown.  [fuel] bounds the unrolling of the loop. *)
Fixpoint mintConfirmation (fuel : nat) (invoiceId idUser : Z)
  : prog (string * string) :=
  match fuel with
  | O => Spin
  | S fuel' =>
      finalCode <- random_string ;;
      verificationToken <- random_string ;;
      err <- query (InsertConfirmationCode finalCode invoiceId verificationToken
                                           idUser invoiceId) ;;
      match err with
      | None => Ret (finalCode, verificationToken)
      | Some code =>
          if String.eqb code "23505"
          then mintConfirmation fuel' invoiceId idUser
          else Throw (PgError code)
      end
  end.

Definition opt_string (o : option string) : string :=
  match o with Some s => s | None => "" end.

(** Returns "done", "already_done" or "no_payment". *)
Definition processSuccessfulPayment (fuel : nat) (paymentUUID : string)
  : prog string :=
  (* atomic idempotency claim *)
  claim <- query (InsertProcessedPayment paymentUUID) ;;
  if Nat.eqb claim 0 then Ret "already_done"
  else
  (* 1. the payments row *)
  paymentResult <- query (SelectPaymentsByProvider paymentUUID) ;;
  match paymentResult with
  | [] => Ret "no_payment"
  | payment :: _ =>
  let invoiceId := p_invoiceid payment in
  (* 2. belt and braces: a confirmation code of the invoice *)
  alreadyProcessed <- query (SelectCodesByCodeId invoiceId) ;;
  match alreadyProcessed with
  | _ :: _ => Ret "already_done"
  | [] =>
  (* 3. payment and invoice become paid *)
  query (MarkPaymentPaid paymentUUID) ;;
  query (UpdateInvoiceStatus "paid" invoiceId) ;;
  (* 4. invoice details *)
  invoiceResult <- query (SelectInvoiceById invoiceId) ;;
  match invoiceResult with
  | [] => Ret "done"
  | invoice :: _ =>
  let invoice_number := i_invoicenumber invoice in
  let idUser := i_userid invoice in
  (* 5. a unique confirmation code *)
  minted <- mintConfirmation fuel invoiceId idUser ;;
  (* 6. buyer e-mail *)
  guestResult <- query (SelectLatestGuest invoice_number) ;;
  let buyerEmail :=
    match guestResult with g :: _ => g_email g | [] => None end in
  (* 7. confirmation e-mail and receipt to the buyer *)
  (if truthy_opt buyerEmail
   then emit (SendEmail (opt_string buyerEmail)
                ("Payment Confirmed - Invoice " ^^ invoice_number ^^ " | Fonlok"))
   else Ret tt) ;;
  (* 8. chat room and chat invite *)
  chatToken <- random_string ;;
  query (UpdateGuestChatToken chatToken invoice_number) ;;
  query (InsertChat invoiceId invoice_number) ;;
  (if truthy_opt buyerEmail
   then emit (SendEmail (opt_string buyerEmail)
                ("Your Secure Chat Link - Invoice " ^^ invoice_number ^^ " | Fonlok"))
   else Ret tt) ;;
  (* 9. the seller *)
  emit (NotifyUser idUser "invoice_paid") ;;
  catch
    (sellerResult <- query (SelectUserById idUser) ;;
     match sellerResult with
     | seller :: _ =>
         query (SelectLatestGuest invoice_number) ;;
         emit (SendEmail (u_email seller)
                 ("Invoice Paid - Please Deliver | Invoice " ^^ invoice_number
                  ^^ " | Fonlok"))
     | [] => Ret tt
     end)
    (fun _ => Ret tt) ;;
  Ret "done"
  end end end.

End Payments.

(** ** Milestone completion (invoice routes) *)

Module Invoice.

(** PATCH /milestone/:milestone_id/complete: the seller marks a milestone
    complete; a release token is drawn and mailed to the buyer. *)
Definition patch_milestone_complete (milestone_id : Z) : prog response :=
  catch
    ((* 1. the milestone *)
     msResult <- query (SelectMilestoneById milestone_id) ;;
     match msResult with
     | [] => Ret (mkResp 404 "Milestone not found.")
     | milestone :: _ =>
     if negb (String.eqb (m_status milestone) "pending")
     then Ret (mkResp 400 ("This milestone is already marked as '"
                           ^^ m_status milestone ^^ "'."))
     else
     (* 2. ordering: the previous milestones are released *)
     blocked <-
       (if 1 <? m_milestone_number milestone
        then
          prevCheck <- query (SelectUnreleasedBefore (m_invoice_id milestone)
                                (m_milestone_number milestone)) ;;
          Ret (match prevCheck with _ :: _ => true | [] => false end)
        else Ret false) ;;
     if (blocked : bool)
     then Ret (mkResp 400
       "Previous milestones must be released before marking this one complete.")
     else
     (* 3. the invoice *)
     invoiceResult <- query (SelectInvoiceById (m_invoice_id milestone)) ;;
     (* 4. the buyer *)
     guestResult <- query (SelectGuestsByInvoiceNumber (m_invoice_number milestone)) ;;
     match guestResult with
     | [] => Ret (mkResp 400 "Buyer information not found. Has the buyer paid yet?")
     | buyer :: _ =>
     (* 5. a release token *)
     releaseToken <- random_string ;;
     (* 6. save the token, mark the milestone completed *)
     query (CompleteMilestone releaseToken milestone_id) ;;
     (* 8. e-mail to the buyer: reads [invoice.invoicenumber] *)
     match invoiceResult with
     | [] => Throw TypeError
     | invoice :: _ =>
     emit (SendEmail (Payments.opt_string (g_email buyer))
             ("Action Required: Confirm Milestone "
              ^^ Z_to_string (m_milestone_number milestone) ^^ "  - "
              ^^ i_invoicenumber invoice ^^ " | Fonlok")) ;;
     Ret (mkResp 200 ("Milestone " ^^ Z_to_string (m_milestone_number milestone)
            ^^ " marked as complete. The buyer has been emailed a release link."))
     end end end)
    (fun _ => Ret (mkResp 500 "Something went wrong. Please try again.")).

End Invoice.

(** ** Dispute resolution *)

Module Dispute.

Definition DISPUTE_TOTAL_FEE_RATE : Q := 2 # 100.
Definition DISPUTE_REFERRAL_FEE_RATE : Q := 5 # 1000.

(** Post a system message in the chat of the invoice, when there is one. *)
Definition system_message (chatResult : list chat) (text : string) : prog unit :=
  match chatResult with
  | c :: _ => query (InsertMessage (mkMessage (ch_id c) "system" "system" text))
  | [] => Ret tt
  end.

(** POST /dispute/admin/:admin_token/resolve { decision }. *)
Definition post_resolve (admin_token decision : string) : prog response :=
  catch
    ((* 1. the dispute of the admin token *)
     disputeResult <- query (SelectDisputesByAdminToken admin_token) ;;
     match disputeResult with
     | [] => Ret (mkResp 404 "Invalid admin link.")
     | dispute :: _ =>
     if negb (String.eqb (d_status dispute) "open")
     then Ret (mkResp 400 "This dispute has already been resolved.")
     else
     (* 2. the invoice, 3. the chat *)
     invoiceResult <- query (SelectInvoiceByNumber (d_invoicenumber dispute)) ;;
     chatResult <- query (SelectChatsByInvoiceNumber (d_invoicenumber dispute)) ;;
     if String.eqb decision "seller" then
       (* release the funds to the seller *)
       axios_post CampayToken ;;
       match invoiceResult with
       | [] => Throw TypeError
       | invoice :: _ =>
       sellerResult <- query (SelectUserById (i_userid invoice)) ;;
       let grossAmountD := i_amount invoice in
       referrerCheckD <- query (SelectUserById (i_userid invoice)) ;;
       let referrerIdD := referred_by_of referrerCheckD in
       let hasReferralD := is_some referrerIdD in
       let totalFeeD := Math_floor (times grossAmountD DISPUTE_TOTAL_FEE_RATE) in
       let referralEarningD :=
         if hasReferralD
         then Math_floor (times grossAmountD DISPUTE_REFERRAL_FEE_RATE) else 0 in
       let fonlokNetD := totalFeeD - referralEarningD in
       let sellerShare := grossAmountD - totalFeeD in
       emit (LogFees grossAmountD totalFeeD fonlokNetD referralEarningD
                     sellerShare) ;;
       match sellerResult with
       | [] => Throw TypeError
       | seller :: _ =>
       axios_post (CampayWithdraw sellerShare (u_phone seller)
                     ("Dispute resolved - payout for invoice "
                      ^^ i_invoicenumber invoice)
                     (i_invoicenumber invoice)) ;;
       query (UpdateInvoiceStatus "completed" (i_id invoice)) ;;
       query (UpdateDisputeStatus "resolved_seller" admin_token) ;;
       query (InsertPayout (mkPayout (i_userid invoice) sellerShare "Mobile Money"
                              "paid" (i_id invoice) (i_invoicenumber invoice))) ;;
       creditReferralIf referrerIdD (i_userid invoice) (i_invoicenumber invoice)
                        grossAmountD referralEarningD ;;
       system_message chatResult
         "Dispute resolved by admin. Decision: Funds have been released to the seller." ;;
       emit (SendEmail (u_email seller)
               ("Dispute Resolved: Funds Released to You  - Invoice "
                ^^ i_invoicenumber invoice ^^ " | Fonlok")) ;;
       guestResult <- query (SelectGuestsByInvoiceNumber (i_invoicenumber invoice)) ;;
       match guestResult with
       | g :: _ =>
           emit (SendEmail (Payments.opt_string (g_email g))
                   ("Dispute Update: Decision Issued  - Invoice "
                    ^^ i_invoicenumber invoice ^^ " | Fonlok"))
       | [] => Ret tt
       end ;;
       Ret (mkResp 200 "Dispute resolved. Funds released to seller.")
       end end
     else if String.eqb decision "buyer" then
       (* refund the buyer, who pays the 2% fee *)
       match invoiceResult with
       | [] => Throw TypeError
       | invoice :: _ =>
       (* 1. the buyer record *)
       guestResult <- query (SelectGuestsByInvoiceNumber (i_invoicenumber invoice)) ;;
       match guestResult with
       | [] => Ret (mkResp 400
           "Cannot process refund: no buyer payment number found for this invoice. Please process the refund manually.")
       | buyer :: _ =>
       if negb (truthy_opt (g_momo_number buyer))
       then Ret (mkResp 400
           "Cannot process refund: no buyer payment number found for this invoice. Please process the refund manually.")
       else
       (* 2. the refund *)
       let grossAmountB := i_amount invoice in
       let fonlokFeeB := Math_floor (times grossAmountB (2 # 100)) in
       let refundAmount := grossAmountB - fonlokFeeB in
       emit (LogRefund grossAmountB fonlokFeeB refundAmount) ;;
       (* 3. withdraw to the number the buyer paid from *)
       axios_post CampayToken ;;
       axios_post (CampayWithdraw refundAmount
                     (Payments.opt_string (g_momo_number buyer))
                     ("Dispute refund for invoice " ^^ i_invoicenumber invoice)
                     ("refund-" ^^ i_invoicenumber invoice)) ;;
       (* 4. invoice refunded, dispute resolved *)
       query (UpdateInvoiceStatus "refunded" (i_id invoice)) ;;
       query (UpdateDisputeStatus "resolved_buyer" admin_token) ;;
       (* 5. the refund payout *)
       query (InsertPayout (mkPayout (i_userid invoice) refundAmount
                              "Refund to Buyer" "refunded" (i_id invoice)
                              (i_invoicenumber invoice))) ;;
       (* 6. chat message *)
       system_message chatResult
         ("Dispute resolved by admin. Decision: Refund of "
          ^^ Z_to_string refundAmount ^^ " XAF processed to the buyer's MoMo account.") ;;
       (* 7. e-mail to the buyer *)
       (if truthy_opt (g_email buyer)
        then emit (SendEmail (Payments.opt_string (g_email buyer))
                     ("Refund Processed  - Invoice " ^^ i_invoicenumber invoice
                      ^^ " | Fonlok"))
        else Ret tt) ;;
       (* 8. e-mail to the seller *)
       sellerResultB <- query (SelectUserById (i_userid invoice)) ;;
       match sellerResultB with
       | s :: _ =>
           emit (SendEmail (u_email s)
                   ("Dispute Resolved: Refund Issued to Buyer  - Invoice "
                    ^^ i_invoicenumber invoice ^^ " | Fonlok"))
       | [] => Ret tt
       end ;;
       Ret (mkResp 200 ("Dispute resolved. Refund of " ^^ Z_to_string refundAmount
              ^^ " XAF has been sent to the buyer's MoMo account."))
       end end
     else Ret (mkResp 400 "Invalid decision. Must be 'seller' or 'buyer'.")
     end)
    (fun _ => Ret (mkResp 500 "Something went wrong. Please try again.")).

End Dispute.

(** ** Referral withdrawal *)

Module Referral.

Definition MIN_WITHDRAWAL_AMOUNT : Z := 2000.

Definition is_digit (c : Ascii.ascii) : bool :=
  let n := Ascii.nat_of_ascii c in (48 <=? n)%nat && (n <=? 57)%nat.

(** [/^237[62]\d{8}$/]. *)
Definition valid_momo (s : string) : bool :=
  match s with
  | String "2"%char (String "3"%char (String "7"%char (String c rest))) =>
      (Ascii.eqb c "6"%char || Ascii.eqb c "2"%char)
      && Nat.eqb (String.length rest) 8
      && forallb is_digit (list_ascii_of_string rest)
  | _ => false
  end.

(** POST /referral/withdraw { amount, momo_number } of the authenticated
    user [userId]; [amount] is the parsed integer (0 when absent) and
    [momo_number] the trimmed string.  The deduction binds [amount] and
    [userId] as INTEGER parameters; an error of a statement, also inside the
    handler of a failed transfer, is answered 500. *)
Definition post_withdraw (userId amount : Z) (momo_number : string)
  : prog response :=
  if (amount =? 0) || negb (truthy momo_number)
  then Ret (mkResp 400 "Amount and MoMo number are required.")
  else if amount <=? 0
  then Ret (mkResp 400 "Amount must be a positive number.")
  else if amount <? MIN_WITHDRAWAL_AMOUNT
  then Ret (mkResp 400 ("Minimum withdrawal amount is "
                        ^^ toLocaleString MIN_WITHDRAWAL_AMOUNT ^^ " XAF."))
  else if negb (valid_momo momo_number)
  then Ret (mkResp 400
    "Please provide a valid Cameroonian MoMo number (e.g. 2376XXXXXXXX).")
  else
  catch
    ((* atomic deduction *)
     deductResult <- query_bound [amount; userId]
                                 (DeductReferralBalance amount userId) ;;
     match deductResult with
     | [] =>
         recheckResult <- query (RecheckBalance userId) ;;
         match recheckResult with
         | [] => Ret (mkResp 404 "User not found.")
         | rc :: _ =>
             if (0 <? snd rc)%nat
             then Ret (mkResp 400
               "You already have a pending withdrawal. Please wait for it to be processed before requesting another.")
             else Ret (mkResp 400 ("Insufficient balance. You have "
                                   ^^ toLocaleString (fst rc) ^^ " XAF available."))
         end
     | _ :: _ =>
     (* 5. log the withdrawal as pending before calling the gateway *)
     withdrawalId <- query (InsertWithdrawal userId amount momo_number) ;;
     (* 6. the transfer *)
     catch
       (axios_post CampayToken ;;
        axios_post (CampayWithdraw amount momo_number
                      "Referral earnings withdrawal"
                      ("ref-withdrawal-" ^^ Z_to_string withdrawalId)) ;;
        (* 7. mark the withdrawal paid *)
        query (UpdateWithdrawalStatus "paid" withdrawalId) ;;
        Ret (mkResp 200 ("Your withdrawal of " ^^ toLocaleString amount
               ^^ " XAF has been sent to " ^^ momo_number
               ^^ ". It should arrive within a few minutes.")))
       (fun _ =>
          (* restore the balance, mark the withdrawal failed *)
          query_or_throw (CreditReferralBalance amount userId) ;;
          query (UpdateWithdrawalStatus "failed" withdrawalId) ;;
          Ret (mkResp 502
            "The payment gateway could not process your withdrawal. Your balance has been restored. Please try again later."))
     end)
    (fun _ => Ret (mkResp 500 "An unexpected error occurred. Please try again.")).

End Referral.

(** ** The fee split as the specification words it, and observations on runs *)

Record split := mkSplit {
  totalFee : Z;
  referralShare : Z;
  platformShare : Z;
  sellerReceives : Z
}.

(** totalFee = floor(gross * 0.02); with a referrer, referralShare =
    floor(gross * 0.005) and platformShare = totalFee - referralShare;
    otherwise platformShare = totalFee and referralShare = 0; the seller
    receives gross - totalFee. *)
Definition fee_split (gross : Z) (hasReferrer : bool) : split :=
  let total := Qfloor (inject_Z gross * (2 # 100))%Q in
  if hasReferrer
  then let referral := Qfloor (inject_Z gross * (5 # 1000))%Q in
       mkSplit total referral (total - referral) (gross - total)
  else mkSplit total 0 total (gross - total).

(** Keep what [f] recognises. *)
Definition pick {T U} (f : T -> option U) (l : list T) : list U :=
  flat_map (fun x => match f x with Some y => [y] | None => [] end) l.

(** The withdraw calls sent to the gateway, whatever it answered. *)
Definition withdraw_of (e : event) : option call :=
  match e with
  | EvGateway (CampayWithdraw a to descr ref) _ =>
      Some (CampayWithdraw a to descr ref)
  | _ => None
  end.

Definition withdrawals (evs : list event) : list call := pick withdraw_of evs.

Definition log_of (e : event) : option notice :=
  match e with
  | EvNotice (LogFees g t f r s) => Some (LogFees g t f r s)
  | EvNotice (LogRefund g f r) => Some (LogRefund g f r)
  | _ => None
  end.

Definition logged (evs : list event) : list notice := pick log_of evs.

(** Every gateway call succeeds. *)
Definition gateway_up (o : nat -> input) : Prop := forall n, gw_ok (o n) = true.

(** ** Claim-then-act discipline

    The settlement paths, payment processing and the referral credit follow
    one idiom: a single statement claims a unit (a conditional UPDATE or an
    INSERT that ignores conflicts), and only the instance whose claim
    affected a row goes on to the guarded actions.  A [protocol] names the
    claiming statements, when a claim has won, the guarded ([costly])
    events, how many of them the winner may do ([budget]), when a unit can
    still be claimed in a store, and the statements the handlers under study
    use ([allowed]). *)

Record protocol (U : Type) := mkProtocol {
  unit_eqb : U -> U -> bool;
  claim_unit : forall R, stmt R -> option U;
  claim_won : forall R, stmt R -> R -> bool;
  costly : event -> bool;
  budget : nat;
  claimable : db -> U -> bool;
  allowed : forall R, stmt R -> bool
}.

(** The claim an event makes, with its unit and whether it won. *)
Definition claim_ev {U} (P : protocol U) (e : event) : option (U * bool) :=
  match e with
  | EvQuery q r =>
      match claim_unit P q with
      | Some u => Some (u, claim_won P q r)
      | None => None
      end
  | _ => None
  end.

(** Where an instance stands: before its claim, after a claim it won with so
    many guarded actions left, or after a claim it lost. *)
Inductive phase := Pre | Won (left : nat) | Lost.

(** An instance claims once; it acts only after a claim it won and within
    the budget; after a lost claim it does nothing at all. *)
Definition advance {U} (P : protocol U) (ph : phase) (e : event) : option phase :=
  match claim_ev P e with
  | Some (_, won) =>
      match ph with
      | Pre => Some (if won then Won (budget P) else Lost)
      | _ => None
      end
  | None =>
      match ph with
      | Pre => if costly P e then None else Some Pre
      | Won n =>
          if costly P e
          then match n with S m => Some (Won m) | O => None end
          else Some (Won n)
      | Lost => None
      end
  end.

(** How an instance that has finished ended. *)
Definition ended {A} (p : prog A) : option (outcome A) :=
  match p with
  | Ret a => Some (Returned a)
  | Throw e => Some (Thrown e)
  | Spin => Some Spinning
  | _ => None
  end.

(** [follows P L ph p]: whatever the store and the outside world answer, the
    program [p], started in phase [ph], keeps to [advance]; and when it ends
    after a lost claim, it ends as [L] says. *)
Inductive follows {U} (P : protocol U) {A} (L : outcome A -> Prop)
  : phase -> prog A -> Prop :=
| follows_Ret ph a : (ph = Lost -> L (Returned a)) -> follows P L ph (Ret a)
| follows_Throw ph e : (ph = Lost -> L (Thrown e)) -> follows P L ph (Throw e)
| follows_Spin ph : (ph = Lost -> L Spinning) -> follows P L ph Spin
| follows_Query ph R (q : stmt R) k (next : R -> phase) :
    allowed P q = true ->
    (forall r, advance P ph (EvQuery q r) = Some (next r)) ->
    (forall r, follows P L (next r) (k r)) ->
    follows P L ph (Query q k)
| follows_Gateway ph c k (next : bool -> phase) :
    (forall b, advance P ph (EvGateway c b) = Some (next b)) ->
    (forall b, follows P L (next b) (k b)) ->
    follows P L ph (Gateway c k)
| follows_Random ph k (next : string -> phase) :
    (forall s, advance P ph (EvRandom s) = Some (next s)) ->
    (forall s, follows P L (next s) (k s)) ->
    follows P L ph (Random k)
| follows_Emit ph e k ph' :
    advance P ph (EvNotice e) = Some ph' -> follows P L ph' k ->
    follows P L ph (Emit e k).

(** The phase an instance has reached after its events [es], oldest first. *)
Definition replay {U} (P : protocol U) (es : list event) : option phase :=
  fold_left (fun o e => match o with Some ph => advance P ph e | None => None end)
            es (Some Pre).

Definition is_claim {U} (P : protocol U) (e : event) : bool :=
  is_some (claim_ev P e).

Definition is_win {U} (P : protocol U) (e : event) : bool :=
  match claim_ev P e with Some (_, true) => true | _ => false end.

Definition is_win_on {U} (P : protocol U) (u : U) (e : event) : bool :=
  match claim_ev P e with Some (v, true) => unit_eqb P u v | _ => false end.

(** A guarded action: a costly event that is not itself a claim. *)
Definition is_act {U} (P : protocol U) (e : event) : bool :=
  costly P e && negb (is_claim P e).

Definition count {T} (f : T -> bool) (l : list T) : nat := List.length (filter f l).

(** The claims on [u] that won, over the whole system. *)
Definition wins_on {U} (P : protocol U) (u : U) (tr : list (nat * event)) : nat :=
  count (fun te => is_win_on P u (snd te)) tr.

(** One step is the statement it names, run on the store. *)
Definition step_sound {U} (P : protocol U) (d : db) (e : event) (d' : db) : Prop :=
  match e with
  | EvQuery q r => allowed P q = true /\ exec q d = (d', r)
  | _ => d' = d
  end.

(** What makes a protocol fit the store: a winning claim needs a claimable
    unit and uses it up, and no allowed statement makes a unit claimable. *)
Record sound {U} (P : protocol U) : Prop := mkSound {
  unit_eqb_eq : forall u v, unit_eqb P u v = true <-> u = v;
  claim_consumes : forall R (q : stmt R) u d,
    claim_unit P q = Some u ->
    claim_won P q (snd (exec q d)) = true ->
    claimable P d u = true /\ claimable P (fst (exec q d)) u = false;
  allowed_keeps : forall R (q : stmt R) d u,
    allowed P q = true ->
    claimable P d u = false -> claimable P (fst (exec q d)) u = false
}.

(** What a phase says about the events that led to it. *)
Definition accounts {U} (P : protocol U) (ph : phase) (es : list event) : Prop :=
  match ph with
  | Pre => count (is_claim P) es = 0%nat /\ count (is_act P) es = 0%nat
  | Won n =>
      count (is_claim P) es = 1%nat /\ count (is_win P) es = 1%nat /\
      (count (is_act P) es + n = budget P)%nat
  | Lost =>
      count (is_claim P) es = 1%nat /\ count (is_win P) es = 0%nat /\
      count (is_act P) es = 0%nat /\
      exists es' e, es = es' ++ [e] /\ is_claim P e = true
  end.

(** The invariant of a system of instances that follow the protocol. *)
Record disciplined {U} (P : protocol U) {A} (L : outcome A -> Prop) (s : sys A)
  : Prop := mkDisciplined {
  phase_of_thread : forall t, exists ph,
      replay P (events_of t (trace s)) = Some ph /\
      forall p, nth_error (threads s) t = Some p -> follows P L ph p;
  one_win : forall u, (wins_on P u (trace s) <= 1)%nat;
  win_consumed : forall u, wins_on P u (trace s) = 1%nat ->
                           claimable P (store s) u = false
}.

(** The instance [t] won a claim on [u]; the guarded actions made by the
    instances that won [u]. *)
Definition holds {U} (P : protocol U) (u : U) (tr : list (nat * event)) (t : nat)
  : bool :=
  existsb (is_win_on P u) (events_of t tr).

Definition acts_for {U} (P : protocol U) (u : U) (tr : list (nat * event)) : nat :=
  count (fun te => is_act P (snd te) && holds P u tr (fst te)) tr.

(** What the protocol guarantees of every interleaving. *)
Definition safe_outcome {U} (P : protocol U) {A} (L : outcome A -> Prop)
  (s : sys A) : Prop :=
  (* each unit is won at most once *)
  (forall u, (wins_on P u (trace s) <= 1)%nat) /\
  (* the instances that won a unit act within the budget, all together *)
  (forall u, (acts_for P u (trace s) <= budget P)%nat) /\
  forall t, let es := events_of t (trace s) in
    (* an instance claims at most once and acts within the budget of a win *)
    (count (is_claim P) es <= 1)%nat /\
    (count (is_win P) es <= count (is_claim P) es)%nat /\
    (count (is_act P) es <= budget P * count (is_win P) es)%nat /\
    (* every guarded action comes after a claim the instance won *)
    (forall es1 e es2, es = es1 ++ e :: es2 -> is_act P e = true ->
                       count (is_win P) es1 = 1%nat) /\
    (* a lost claim is the last thing the instance did, and it has ended *)
    (count (is_claim P) es = 1%nat -> count (is_win P) es = 0%nat ->
     (exists es' e, es = es' ++ [e] /\ is_claim P e = true) /\
     forall p, nth_error (threads s) t = Some p ->
               exists o, ended p = Some o /\ L o).

(** ** A race on a claim that is the first step

    [solo_steps ins p d] moves one instance alone, one step per input. *)
Fixpoint solo_steps {A} (ins : list input) (p : prog A) (d : db)
  : db * list event * prog A :=
  match ins with
  | [] => (d, [], p)
  | i :: ins' =>
      match step1 p i d with
      | None => (d, [], p)
      | Some (d', e, p') =>
          let '(d'', es, p'') := solo_steps ins' p' d' in (d'', e :: es, p'')
      end
  end.

(** [N] instances of the same program [Query q k], whose first step [q]
    claims the unit, started on [d0].  Either none has moved, or one
    instance [w] was first: the store and [w] are where [w] alone would be
    after the inputs [ins] it was given, and every other instance has either
    not moved or lost its claim at its only step. *)
Inductive race {A R} (claim_lost : R -> Prop) (q : stmt R) (k : R -> prog A)
  (d0 : db) (N : nat) (s : sys A) : Prop :=
| race_idle :
    store s = d0 -> trace s = [] -> threads s = repeat (Query q k) N ->
    race claim_lost q k d0 N s
| race_on (w : nat) (ins : list input) :
    (w < N)%nat -> ins <> [] ->
    store s = fst (fst (solo_steps ins (Query q k) d0)) ->
    events_of w (trace s) = snd (fst (solo_steps ins (Query q k) d0)) ->
    nth_error (threads s) w = Some (snd (solo_steps ins (Query q k) d0)) ->
    (forall t, t <> w ->
       (nth_error (threads s) t = Some (Query q k) /\
        events_of t (trace s) = []) \/
       (exists r, nth_error (threads s) t = Some (k r) /\
                  events_of t (trace s) = [EvQuery q r] /\ claim_lost r) \/
       (nth_error (threads s) t = None /\ events_of t (trace s) = [])) ->
    race claim_lost q k d0 N s.

(** The outside world that answers the [n]-th step with the [n]-th input. *)
Definition oracle_of (ins : list input) : nat -> input :=
  fun n => nth n ins (mkInput true "").

(** ** The settlement protocol (code, link, milestone) *)

Inductive settlement_unit :=
| CodeUnit (code_id : Z)        (* the confirmation code/token row of an invoice *)
| MilestoneUnit (id : Z).       (* a milestone *)

Definition settlement_unit_eqb (u v : settlement_unit) : bool :=
  match u, v with
  | CodeUnit i, CodeUnit j => i =? j
  | MilestoneUnit i, MilestoneUnit j => i =? j
  | _, _ => false
  end.

Definition settle_claim_unit R (q : stmt R) : option settlement_unit :=
  match q with
  | ClaimConfirmationCode i => Some (CodeUnit i)
  | ClaimMilestone m => Some (MilestoneUnit m)
  | _ => None
  end.

(** [lockResult.rows.length > 0]. *)
Definition some_row {T} (rows : list T) : bool :=
  match rows with [] => false | _ :: _ => true end.

Definition settle_claim_won R (q : stmt R) : R -> bool :=
  match q in stmt R return R -> bool with
  | ClaimConfirmationCode _ => some_row
  | ClaimMilestone _ => some_row
  | _ => fun _ => false
  end.

Definition settle_claimable (d : db) (u : settlement_unit) : bool :=
  match u with
  | CodeUnit i => existsb (code_unclaimed i) (confirmation_codes d)
  | MilestoneUnit m => existsb (milestone_claimable m) (invoice_milestones d)
  end.

(** The settlement routes issue no credential: they neither insert a
    confirmation code nor mark a milestone completed. *)
Definition settle_allowed R (q : stmt R) : bool :=
  match q with
  | InsertConfirmationCode _ _ _ _ _ => false
  | CompleteMilestone _ _ => false
  | _ => true
  end.

Definition is_withdraw (e : event) : bool :=
  match e with
  | EvGateway (CampayWithdraw _ _ _ _) _ => true
  | _ => false
  end.

Definition is_payout_insert (e : event) : bool :=
  match e with
  | EvQuery q _ => match q with InsertPayout _ => true | _ => false end
  | _ => false
  end.

(** The winner of a claim may send one withdraw call ... *)
Definition transfer_protocol : protocol settlement_unit :=
  mkProtocol settlement_unit_eqb settle_claim_unit settle_claim_won
             is_withdraw 1 settle_claimable settle_allowed.

(** ... and record one payout. *)
Definition payout_protocol : protocol settlement_unit :=
  mkProtocol settlement_unit_eqb settle_claim_unit settle_claim_won
             is_payout_insert 1 settle_claimable settle_allowed.

(** A settlement attempt is a request to one of the three POST routes. *)
Definition settlement_attempt (p : prog response) : Prop :=
  (exists code invoiceNumber, p = Payout.post_release_funds code invoiceNumber) \/
  (exists token id, p = Payout.post_verify_payout token id) \/
  (exists token, p = Payout.post_release_milestone token).

(** How a route answers an attempt whose claim affected no row:
    [executePayout] and [executePayoutLink] throw, which their routes answer
    with the generic error; the milestone route says "Already Released". *)
Definition settlement_abort (o : outcome response) : Prop :=
  o = Returned Payout.payout_error \/
  o = Returned Payout.system_error \/
  o = Returned Payout.ms_already_released.

(** The answer of a successful link release. *)
Definition link_success : response :=
  mkResp 200 "<h1>Success! Funds have been released to the seller.</h1>".

(** The answers that tell the user the unit was already settled. *)
Definition already_processed_response (r : response) : Prop :=
  r = Payout.link_expired \/
  r = Payout.ms_already_released \/
  exists invoiceNumber, r = Payout.already_paid_out invoiceNumber.

(** A concrete store.  Invoice INV-1 of 100,000 XAF (seller 10, referred by
    user 11) is paid and has its confirmation code; INV-2 of 60,000 XAF is in
    two milestones, the first completed and awaiting release; INV-3 of
    100,000 XAF (seller 12, no referrer) is delivered and under an open
    dispute.  User 11 has 5,000 XAF of referral balance. *)
Definition invoice1 : invoice := mkInvoice 1 "INV-1" "Logo" 10 100000 "paid".
Definition invoice2 : invoice := mkInvoice 2 "INV-2" "Site" 10 60000 "paid".
Definition invoice3 : invoice := mkInvoice 3 "INV-3" "Shoes" 12 100000 "delivered".
Definition seller10 : user :=
  mkUser 10 "Sel" "sel@x.cm" "237600000001" (Some 11) 0.
Definition referrer11 : user :=
  mkUser 11 "Ref" "ref@x.cm" "237600000002" None 5000.
Definition seller12 : user :=
  mkUser 12 "Tes" "tes@x.cm" "237600000004" None 0.
Definition milestone1 : milestone :=
  mkMilestone 1 2 "INV-2" 1 "Design" 20000 "completed" (Some "rel-1").
Definition milestone2 : milestone :=
  mkMilestone 2 2 "INV-2" 2 "Build" 40000 "pending" None.
Definition dispute3 : dispute := mkDispute "INV-3" "buyer" "adm-3" "open".
Definition buyer3 : guest :=
  mkGuest "INV-3" (Some "Buyer") (Some "buy@x.cm") (Some "237600000003") None 3.

Definition sample_db : db :=
  mkDb [invoice1; invoice2; invoice3]
       [seller10; referrer11; seller12]
       [mkPayment 1 1 "uuid-1" 100000 "paid";
        mkPayment 2 2 "uuid-2" 60000 "paid";
        mkPayment 3 3 "uuid-3" 100000 "paid"]
       [mkCode "ABCD2345" 1 "tok-1" 10 1 false;
        mkCode "WXYZ6789" 3 "tok-3" 12 3 false]
       [milestone1; milestone2]
       [] [] [] ["uuid-1"; "uuid-2"; "uuid-3"]
       [dispute3]
       [mkGuest "INV-1" (Some "Buyer") (Some "buy@x.cm") (Some "237600000003")
                None 1;
        mkGuest "INV-2" (Some "Buyer") (Some "buy@x.cm") (Some "237600000003")
                None 2;
        buyer3]
       [mkChat 1 3 "INV-3"] [].

(** The outside world when the gateway is up. *)
Definition world_up : nat -> input := fun _ => mkInput true "r4nd0m".
Definition step_up : input := mkInput true "r4nd0m".
Definition step_down : input := mkInput false "r4nd0m".

Definition final_store {A} (r : db * list event * outcome A) : db := fst (fst r).
Definition events_in {A} (r : db * list event * outcome A) : list event := snd (fst r).
Definition outcome_in {A} (r : db * list event * outcome A) : outcome A := snd r.

(** Four attempts on [sample_db]: the code and the link of INV-1, and the
    release link of the first milestone of INV-2 twice; and one way to
    interleave them. *)
Definition sample_attempts : list (prog response) :=
  [Payout.post_release_funds "ABCD2345" "INV-1";
   Payout.post_verify_payout "tok-1" "1";
   Payout.post_release_milestone "rel-1";
   Payout.post_release_milestone "rel-1"].

Definition sample_schedule : schedule :=
  map (fun t => (t, step_up))
      [0; 1; 2; 3; 0; 1; 2; 3; 0; 1; 2; 3; 0; 1; 2; 3; 0; 1; 2; 3; 1; 2; 1; 2;
       1; 2; 1; 2; 1; 2; 1; 2; 1; 2; 1; 2; 1; 2; 1; 2; 1; 2]%nat.

(** [sample_db] after the first milestone of INV-2 was released. *)
Definition released_db : db :=
  final_store (exec_prog (Payout.post_release_milestone "rel-1") world_up 0
                         sample_db).

(** ** Stores after an update, row by row *)

(** The invoices with the status of invoice [id] set to [status]. *)
Definition invoices_marked (id : Z) (status : string) (l : list invoice)
  : list invoice :=
  map (fun i => if i_id i =? id
                then mkInvoice (i_id i) (i_invoicenumber i) (i_invoicename i)
                               (i_userid i) (i_amount i) status
                else i) l.



(** ** What a payout shows of the fee split *)

(** What a seller-payout run shows of the split of [gross]: the logged
    breakdown, the one withdraw call, the one payout row. *)
Definition paid_out_as {A} (run : db * list event * outcome A) (d : db)
  (gross : Z) (seller : user) (invoice_id : Z) (invoice_number : string)
  (descr ref : string) : Prop :=
  let sp := fee_split gross (is_some (u_referred_by seller)) in
  logged (events_in run)
    = [LogFees gross (totalFee sp) (platformShare sp) (referralShare sp)
               (sellerReceives sp)] /\
  withdrawals (events_in run)
    = [CampayWithdraw (sellerReceives sp) (u_phone seller) descr ref] /\
  payouts (final_store run)
    = payouts d ++ [mkPayout (u_id seller) (sellerReceives sp) "Mobile Money"
                             "paid" invoice_id invoice_number].

(** The users after [amount] was added to the balance of [id]. *)
Definition credited_once (id amount : Z) (l : list user) : list user :=
  map (fun u => if u_id u =? id
                then mkUser (u_id u) (u_name u) (u_email u) (u_phone u)
                            (u_referred_by u) (u_referral_balance u + amount)
                else u) l.

(** [amount] can be added to the balance of [u]: the amount and the sum are
    within INTEGER. *)
Definition credit_fits (amount : Z) (u : user) : bool :=
  int4 amount && int4 (u_referral_balance u + amount).

(** The referrer of the seller earns the referral share, when there is a
    referrer, the share is positive and [key] has no earning yet: an
    earnings row of that amount is recorded under [key]; the share is added
    to the balance of the referrer when it fits it, and no balance changes
    when it does not. *)
Definition credits_referrer {A} (run : db * list event * outcome A) (d : db)
  (gross : Z) (seller : user) (key : string) : Prop :=
  let sp := fee_split gross (is_some (u_referred_by seller)) in
  forall r referrer,
    u_referred_by seller = Some r ->
    filter (fun u => u_id u =? r) (users d) = [referrer] ->
    0 < referralShare sp ->
    existsb (fun e => String.eqb (re_invoice_number e) key) (referral_earnings d)
      = false ->
    referral_earnings (final_store run)
      = referral_earnings d
        ++ [mkEarning (next_id (map re_id (referral_earnings d))) r (u_id seller)
                      key gross (referralShare sp)] /\
    (credit_fits (referralShare sp) referrer = true ->
     users (final_store run) = credited_once r (referralShare sp) (users d) /\
     map u_referral_balance
         (filter (fun u => u_id u =? r) (users (final_store run)))
       = [u_referral_balance referrer + referralShare sp]) /\
    (credit_fits (referralShare sp) referrer = false ->
     users (final_store run) = users d).

(** [sample_db] with the seller of the disputed invoice INV-3 referred by
    user 11. *)
Definition seller12_referred : user :=
  mkUser 12 "Tes" "tes@x.cm" "237600000004" (Some 11) 0.

Definition referred_dispute_db : db :=
  with_users (fun _ => [seller10; referrer11; seller12_referred]) sample_db.

(** [sample_db] with the balance of user 11 near the top of INTEGER. *)
Definition referrer11_full : user :=
  mkUser 11 "Ref" "ref@x.cm" "237600000002" None 2147483600.

Definition full_balance_db : db :=
  with_users (fun _ => [seller10; referrer11_full; seller12]) sample_db.

(** Events that read the store and do nothing else. *)
Definition is_select (e : event) : bool :=
  match e with
  | EvQuery q _ =>
      match q with
      | SelectCodesByCodeId _ | SelectCodesByToken _ | SelectInvoiceById _
      | SelectInvoiceByNumber _ | SelectUserById _ | RecheckBalance _
      | SelectPaymentsByInvoice _ | SelectPaymentsByProvider _
      | SelectMilestonesByToken _ | SelectMilestoneById _
      | SelectUnreleasedBefore _ _ | CountUnreleased _
      | SelectDisputesByAdminToken _ | SelectGuestsByInvoiceNumber _
      | SelectLatestGuest _ | SelectChatsByInvoiceNumber _ => true
      | _ => false
      end
  | _ => false
  end.



(** ** The payment-processing protocol *)

Definition payment_claim_unit R (q : stmt R) : option string :=
  match q with
  | InsertProcessedPayment uuid => Some uuid
  | _ => None
  end.

(** [claim.rowCount !== 0]. *)
Definition payment_claim_won R (q : stmt R) : R -> bool :=
  match q in stmt R return R -> bool with
  | InsertProcessedPayment _ => fun rowCount => negb (Nat.eqb rowCount 0)
  | _ => fun _ => false
  end.

(** A payment reference can be claimed while it has no marker. *)
Definition marker_free (d : db) (uuid : string) : bool :=
  negb (existsb (String.eqb uuid) (processed_payments d)).

(** The invoice is set to 'paid'. *)
Definition is_paid_transition (e : event) : bool :=
  match e with
  | EvQuery q _ =>
      match q with
      | UpdateInvoiceStatus status _ => String.eqb status "paid"
      | _ => false
      end
  | _ => false
  end.

(** A confirmation code/token pair is inserted without error. *)
Definition is_code_minted (e : event) : bool :=
  match e with
  | EvQuery q r =>
      match q in stmt R return R -> bool with
      | InsertConfirmationCode _ _ _ _ _ => fun err => negb (is_some err)
      | _ => fun _ => false
      end r
  | _ => false
  end.

Definition any_stmt R (q : stmt R) : bool := true.

Definition paid_protocol : protocol string :=
  mkProtocol String.eqb payment_claim_unit payment_claim_won
             is_paid_transition 1 marker_free any_stmt.

Definition mint_protocol : protocol string :=
  mkProtocol String.eqb payment_claim_unit payment_claim_won
             is_code_minted 1 marker_free any_stmt.



(** The caller whose insert affected no row returns "already_done". *)
Definition payment_abort (o : outcome string) : Prop :=
  o = Returned "already_done".


(** A store in which the payment "uuid-4" of invoice INV-4 (50,000 XAF,
    seller 10) awaits processing: no marker, no confirmation code yet. *)
Definition invoice4 : invoice := mkInvoice 4 "INV-4" "Bag" 10 50000 "pending".

Definition pending_db : db :=
  with_invoices (fun l => l ++ [invoice4])
    (with_payments (fun l => l ++ [mkPayment 4 4 "uuid-4" 50000 "pending"])
       (with_guests
          (fun l => l ++ [mkGuest "INV-4" (Some "Buyer") (Some "buy@x.cm")
                                  (Some "237600000003") None 4])
          sample_db)).


(** ** The referral-credit protocol *)

Definition credit_claim_unit R (q : stmt R) : option string :=
  match q with
  | InsertReferralEarning _ _ key _ _ => Some key
  | _ => None
  end.

(** [earningsInsert.rows.length > 0]. *)
Definition credit_claim_won R (q : stmt R) : R -> bool :=
  match q in stmt R return R -> bool with
  | InsertReferralEarning _ _ _ _ _ => fun rows => some_row rows
  | _ => fun _ => false
  end.

(** No earning is recorded under the key yet. *)
Definition key_free (d : db) (key : string) : bool :=
  negb (existsb (fun e => String.eqb (re_invoice_number e) key)
                (referral_earnings d)).

(** The balance update of the credit step, whether it goes through or not. *)
Definition is_credit (e : event) : bool :=
  match e with
  | EvQuery q _ =>
      match q with CreditReferralBalance _ _ => true | _ => false end
  | _ => false
  end.

(** The balance update went through. *)
Definition is_credited (e : event) : bool :=
  match e with
  | EvQuery q r =>
      match q in stmt R return R -> bool with
      | CreditReferralBalance _ _ => fun err => negb (is_some err)
      | _ => fun _ => false
      end r
  | _ => false
  end.

Definition credit_protocol : protocol string :=
  mkProtocol String.eqb credit_claim_unit credit_claim_won
             is_credit 1 key_free any_stmt.

(** The step whose insert returned no row ends without an error. *)
Definition credit_abort (o : outcome unit) : Prop := o = Returned tt.

(** Runs of the referral-credit step, whatever their arguments. *)
Definition credit_step (p : prog unit) : Prop :=
  exists referrerId sellerId key grossAmount referralEarning,
    p = creditReferral referrerId sellerId key grossAmount referralEarning.

(** The step for INV-1 (referrer 11, seller 10, 500 XAF) three times at once. *)
Definition credit_schedule : schedule :=
  map (fun t => (t, step_up)) [0; 1; 2; 1; 0; 2; 0; 1; 2]%nat.

(** ** Requests that race without a claim *)

(** Two instances move in turn, [n] rounds, the gateway up. *)
Definition turn_by_turn (n : nat) : schedule :=
  map (fun t => (t, step_up)) (List.concat (repeat [0; 1]%nat n)).

(** The withdraw calls of all instances, oldest first. *)
Definition sys_withdrawals {A} (s : sys A) : list call :=
  withdrawals (map snd (rev (trace s))).

(** The HTTP status each instance answered with, if it has answered. *)
Definition statuses (s : sys response) : list (option Z) :=
  map (fun p => match p with Ret r => Some (res_status r) | _ => None end)
      (threads s).

Definition res_status_of (o : outcome response) : option Z :=
  match o with Returned r => Some (res_status r) | _ => None end.

(** Two resolve requests on the open dispute of INV-3. *)
Definition resolve_requests (a b : string) : list (prog response) :=
  [Dispute.post_resolve "adm-3" a; Dispute.post_resolve "adm-3" b].

(** Two withdrawal requests of 2,000 XAF by user 11, whose balance is 5,000. *)
Definition withdraw_requests : list (prog response) :=
  [Referral.post_withdraw 11 2000 "237600000002";
   Referral.post_withdraw 11 2000 "237600000002"].

Definition pending_withdrawals (userid : Z) (d : db) : list referral_withdrawal :=
  filter (is_pending_of userid) (referral_withdrawals d).

Definition balances_nonneg (d : db) : bool :=
  forallb (fun u => 0 <=? u_referral_balance u) (users d).

Definition balance_of (userid : Z) (d : db) : list Z :=
  map u_referral_balance (filter (fun u => u_id u =? userid) (users d)).

(** The gateway refuses every call. *)
Definition world_down : nat -> input := fun _ => mkInput false "r4nd0m".

(** * More of the routes

    The webhook that calls [processSuccessfulPayment], the delivery route
    of the invoices, and two helpers. *)

(** ** The Campay webhook *)

Module Webhook.

(** POST /confirmation { signature, external_reference, status }.
    [verify] is what [jwt.verify(signature, webhookSecret)] does: [None]
    when it returns, [Some name] when it throws an error of that name. *)
Definition post_confirmation (fuel : nat) (verify : option string)
  (paymentUUID status : string) : prog response :=
  match verify with
  | Some name =>
      if String.eqb name "JsonWebTokenError" || String.eqb name "TokenExpiredError"
      then Ret (mkResp 401 "Invalid Signature")
      else Ret (mkResp 500 "Internal error")
  | None =>
      catch
        ((if String.eqb status "SUCCESSFUL"
          then Payments.processSuccessfulPayment fuel paymentUUID ;; Ret tt
          else Ret tt) ;;
         Ret (mkResp 200 "OK"))
        (fun _ => Ret (mkResp 500 "Internal error"))
  end.

End Webhook.

(** ** Marking an invoice delivered *)

Module Delivery.

Definition not_found : response := mkResp 404 "Invoice not found".
Definition not_paid : response :=
  mkResp 403
    "You can only mark an invoice as delivered after the buyer has made a payment.".
Definition delivered_no_buyer : response :=
  mkResp 200 "Invoice marked as delivered, but buyer email not found.".
Definition delivered : response :=
  mkResp 200 "Invoice marked as delivered and buyer has been notified.".

Definition failed : response :=
  mkResp 500 "Something went wrong. Please try again.".

(** PATCH /mark-delivered/:id.  [id] is what PostgreSQL reads of the URL
    segment when it binds it to the INTEGER column: [None] when the segment
    is not the text of an integer (SQLSTATE 22P02), and an integer out of
    the range of INTEGER is refused (22003); both errors are answered 500.
    The update also stamps [delivered_at], a column the store above does not
    carry. *)
Definition patch_mark_delivered (id : option Z) : prog response :=
  catch
    (match id with
     | None => Throw (PgError "22P02")
     | Some invoiceId =>
     (* 1. the invoice *)
     invoiceCheck <- query_bound [invoiceId] (SelectInvoiceById invoiceId) ;;
     match invoiceCheck with
     | [] => Ret not_found
     | invoice :: _ =>
     (* 2. only after the buyer has paid *)
     if negb (String.eqb (i_status invoice) "paid") then Ret not_paid
     else
     (* 3. the invoice becomes 'delivered' *)
     query (UpdateInvoiceStatus "delivered" invoiceId) ;;
     (* 4. the buyer *)
     guestCheck <- query (SelectGuestsByInvoiceNumber (i_invoicenumber invoice)) ;;
     match guestCheck with
     | [] => Ret delivered_no_buyer
     | buyer :: _ =>
     (* 5. e-mail to the buyer *)
     emit (SendEmail (Payments.opt_string (g_email buyer))
             ("Action Required: Confirm Your Delivery  - Invoice "
              ^^ i_invoicenumber invoice ^^ " | Fonlok")) ;;
     Ret delivered
     end end end)
    (fun _ => Ret failed).

End Delivery.

(** ** Helpers *)

(** [s.charAt(i)]: the character at [i], the empty string out of range. *)
Definition charAt (s : string) (i : Z) : string :=
  if i <? 0 then ""
  else match String.get (Z.to_nat i) s with
       | Some c => String c EmptyString
       | None => ""
       end.

(** [generate8CharCode]: eight characters drawn from an alphabet without
    0, O, I and 1.  [random i] is what the [i]-th call of [Math.random()]
    returns. *)
Definition chars : string := "ABCDEFGHJKLMNPQRSTUVWXYZ23456789".

Fixpoint generate_from (n i : nat) (random : nat -> Q) (result : string) : string :=
  match n with
  | O => result
  | S n' =>
      generate_from n' (S i) random
        (result ^^ charAt chars
                     (Math_floor (random i * inject_Z (Z.of_nat (String.length chars)))%Q))
  end.

Definition generate8CharCode (random : nat -> Q) : string :=
  generate_from 8 0 random "".

(** ** Numbers of JavaScript

    [getPagination] computes on what [parseInt] returns: [NaN], an infinity,
    or a double whose value is an integer.  [Int n] is the double of value
    [n]; the result of an operation is rounded to the nearest double, to the
    even one of two that are as near. *)
Inductive number :=
| NaN
| Int (n : Z)
| Infinity
| NegInfinity.








(** ** Pagination *)



(** ** More sample stores *)

(** [released_db] after the seller marked the second milestone of INV-2
    complete: the release token drawn is "r4nd0m". *)
Definition second_completed_db : db :=
  final_store (exec_prog (Invoice.patch_milestone_complete 2) world_up 0
                         released_db).

(** ** Runs that do not depend on a table *)

(** The store with its disputes table replaced. *)
Definition under_disputes (disp : list dispute) (d : db) : db :=
  with_disputes (fun _ => disp) d.

(** The program runs alike, step for step, whatever the disputes table holds. *)
Definition same_run_under {A} (disp : list dispute) (p : prog A) : Prop :=
  forall d o n,
    exec_prog p o n (under_disputes disp d)
    = (under_disputes disp (final_store (exec_prog p o n d)),
       events_in (exec_prog p o n d), outcome_in (exec_prog p o n d)).


(** ** Webhook deliveries *)

(** What the webhook makes of the way [processSuccessfulPayment] ended. *)
Definition webhook_answer {A} (o : outcome A) : outcome response :=
  match o with
  | Returned _ => Returned (mkResp 200 "OK")
  | Thrown _ => Returned (mkResp 500 "Internal error")
  | Spinning => Spinning
  end.

(** A delivery whose claim affected no row answers 200. *)
Definition webhook_abort (o : outcome response) : Prop :=
  o = Returned (mkResp 200 "OK").

(** Deliveries to the webhook: what [jwt.verify] does with the signature,
    the reference and the status of each. *)
Definition webhook_deliveries (fuel : nat)
  (deliveries : list (option string * string * string)) : list (prog response) :=
  map (fun x => Webhook.post_confirmation fuel (fst (fst x)) (snd (fst x)) (snd x))
      deliveries.

(** ** The referral ledger of a user *)

Definition sum_Z (l : list Z) : Z := fold_right Z.add 0 l.

(** The referral balance held by [userid]; what [userid] has withdrawn or is
    withdrawing (the withdrawals that did not fail); what [userid] has
    earned. *)
Definition balance_total (userid : Z) (d : db) : Z := sum_Z (balance_of userid d).

Definition counts_as_withdrawn (userid : Z) (w : referral_withdrawal) : bool :=
  (w_userid w =? userid) && negb (String.eqb (w_status w) "failed").

Definition withdrawn_total (userid : Z) (d : db) : Z :=
  sum_Z (map w_amount (filter (counts_as_withdrawn userid) (referral_withdrawals d))).

Definition earned_total (userid : Z) (d : db) : Z :=
  sum_Z (map re_earned_amount
             (filter (fun e => re_referrer_userid e =? userid) (referral_earnings d))).

(** * Proof automation *)

(** ** Running a handler symbolically *)

Ltac run_prog :=
  cbn [bind catch query query_or_throw query_bound exec_prog exec emit
       axios_post random_string
       referred_by_of is_some some_row
       with_invoices with_users with_payments with_confirmation_codes
       with_invoice_milestones with_payouts with_referral_earnings
       with_referral_withdrawals with_processed_payments with_disputes
       with_guests with_chats with_messages
       invoices users payments confirmation_codes invoice_milestones payouts
       referral_earnings referral_withdrawals processed_payments disputes
       guests chats messages fst snd].

(** The value a stuck program waits for. *)
Ltac stuck_head p :=
  match p with
  | bind ?p' _ => stuck_head p'
  | catch ?p' _ => stuck_head p'
  | match ?x with _ => _ end => x
  end.

Ltac split_run :=
  match goal with
  | |- context [exec_prog ?p _ _ _] =>
      let x := stuck_head p in destruct x eqn:?
  | |- context [if ?c then _ else _] => destruct c eqn:?
  end.

Ltac run_all :=
  unfold creditReferralIf, creditReferral;
  repeat (run_prog; try split_run).

(** Rewrite with what is known of the answers of the store and the gateway. *)
Ltac rew_hyps :=
  match goal with
  | H : filter _ _ = _ |- _ => rewrite H
  | H : map _ (filter _ _) = _ |- _ => rewrite H
  | H : forall n, gw_ok (_ n) = true |- _ => rewrite H
  | H : forall n, gw_ok (_ n) = false |- _ => rewrite H
  | H : String.eqb _ _ = _ |- _ => rewrite H
  | H : existsb _ _ = _ |- _ => rewrite H
  end.

Ltac run_known := repeat (progress (run_prog; try rew_hyps)).

(** ** Walking a handler against a protocol *)

Ltac break_prog :=
  match goal with
  | |- follows _ _ _ ?p =>
      match p with
      | context [match ?x with _ => _ end] => destruct x
      end
  end.

Ltac unfold_prog :=
  first
    [ progress unfold creditReferralIf, creditReferral, query_or_throw,
        query_bound, query, emit, axios_post, random_string
    | progress cbn [bind catch some_row negb] ].

(** Walks a program tree; [tacL] proves how the tree ends after a lost claim. *)
Ltac follows_with tacL :=
  repeat first
    [ apply follows_Ret; intros ?H; cbn in * |-; first [discriminate | tacL]
    | apply follows_Throw; intros ?H; cbn in * |-; first [discriminate | tacL]
    | apply follows_Spin; intros ?H; cbn in * |-; first [discriminate | tacL]
    | eapply follows_Emit; [reflexivity|]
    | eapply follows_Query; [reflexivity | intros ?; cbn; reflexivity | intros ?]
    | eapply follows_Gateway; [intros ?; reflexivity | intros ?]
    | eapply follows_Random; [intros ?; reflexivity | intros ?]
    | unfold_prog
    | break_prog ].

Ltac settlement_abort_tac :=
  unfold settlement_abort;
  first [ left; reflexivity | right; left; reflexivity | right; right; reflexivity ].

Ltac break_if :=
  match goal with
  | |- context [if ?c then _ else _] => destruct c
  end.

Ltac payment_abort_tac := unfold payment_abort; reflexivity.


(** * Properties *)



(** ** Lists, counting, traces *)

Lemma count_snoc {T} (f : T -> bool) l x :
  count f (l ++ [x]) = (count f l + if f x then 1 else 0)%nat.
Proof.
  unfold count. rewrite filter_app, length_app. simpl.
  destruct (f x); reflexivity.
Qed.

Lemma count_cons {T} (f : T -> bool) l x :
  count f (x :: l) = ((if f x then 1 else 0) + count f l)%nat.
Proof. unfold count. simpl. destruct (f x); reflexivity. Qed.


Lemma count_le {T} (f g : T -> bool) l :
  (forall x, f x = true -> g x = true) -> (count f l <= count g l)%nat.
Proof.
  intros H. induction l as [|x l IH]; [apply Nat.le_refl|].
  rewrite !count_cons. specialize (H x).
  destruct (f x), (g x); lia || discriminate (H eq_refl).
Qed.

Lemma events_of_cons t t' e tr :
  events_of t ((t', e) :: tr) =
  events_of t tr ++ (if Nat.eqb t' t then [e] else []).
Proof.
  unfold events_of. simpl. rewrite filter_app, map_app. simpl.
  destruct (Nat.eqb t' t); reflexivity.
Qed.

Lemma nth_error_set_nth_eq {T} (l : list T) n x y :
  nth_error l n = Some y -> nth_error (set_nth n x l) n = Some x.
Proof.
  revert n. induction l as [|z l IH]; intros [|n]; simpl; try discriminate; auto.
Qed.

Lemma nth_error_set_nth_neq {T} (l : list T) n m x :
  n <> m -> nth_error (set_nth n x l) m = nth_error l m.
Proof.
  revert n m. induction l as [|z l IH]; intros [|n] [|m] H; simpl; auto.
  congruence.
Qed.

Lemma count_map {T V} (g : T -> V) (f : V -> bool) l :
  count f (map g l) = count (fun x => f (g x)) l.
Proof.
  unfold count. induction l as [|x l IH]; simpl; [reflexivity|].
  destruct (f (g x)); simpl; rewrite IH; reflexivity.
Qed.

Lemma count_filter {T} (f h : T -> bool) l :
  count f (filter h l) = count (fun x => h x && f x) l.
Proof.
  unfold count. induction l as [|x l IH]; simpl; [reflexivity|].
  destruct (h x); simpl; [destruct (f x); simpl|]; rewrite IH; reflexivity.
Qed.

Lemma count_rev {T} (f : T -> bool) l : count f (rev l) = count f l.
Proof.
  induction l as [|x l IH]; simpl; [reflexivity|].
  rewrite count_snoc, count_cons, IH. lia.
Qed.

Lemma count_events_of f t tr :
  count f (events_of t tr) = count (fun te => Nat.eqb (fst te) t && f (snd te)) tr.
Proof.
  unfold events_of. rewrite count_map, count_filter, count_rev. reflexivity.
Qed.

Lemma count_ext {T} (f g : T -> bool) l :
  (forall x, In x l -> f x = g x) -> count f l = count g l.
Proof.
  intros H. induction l as [|x l IH]; [reflexivity|].
  rewrite !count_cons, (H x) by (left; reflexivity).
  rewrite IH; [reflexivity|]. intros y Hy. apply H. right. exact Hy.
Qed.

Lemma count_pos_existsb {T} (f : T -> bool) l :
  existsb f l = true -> (1 <= count f l)%nat.
Proof.
  induction l as [|x l IH]; simpl; [discriminate|].
  rewrite count_cons. destruct (f x); simpl; [lia|]. intros H. apply IH in H. lia.
Qed.

Lemma count_two_tags (g : event -> bool) t1 t2 tr :
  t1 <> t2 ->
  (count (fun te => Nat.eqb (fst te) t1 && g (snd te)) tr
   + count (fun te => Nat.eqb (fst te) t2 && g (snd te)) tr
   <= count (fun te => g (snd te)) tr)%nat.
Proof.
  intros Hne. induction tr as [|[t e] tr IH]; [reflexivity|].
  rewrite !count_cons. simpl.
  destruct (Nat.eqb t t1) eqn:E1; destruct (Nat.eqb t t2) eqn:E2;
    destruct (g e); simpl; try lia.
  apply Nat.eqb_eq in E1, E2. congruence.
Qed.


(** ** The claim-then-act discipline is safe under every interleaving *)

Section Discipline.

Context {U : Type} (P : protocol U) (HP : sound P).
Context {A : Type} (L : outcome A -> Prop).

Lemma replay_snoc es e :
  replay P (es ++ [e]) =
  match replay P es with Some ph => advance P ph e | None => None end.
Proof. unfold replay. rewrite fold_left_app. reflexivity. Qed.

Lemma replay_prefix es1 es2 ph :
  replay P (es1 ++ es2) = Some ph -> exists ph1, replay P es1 = Some ph1.
Proof.
  revert ph. induction es2 as [|e es2 IH] using rev_ind; intros ph H.
  - rewrite app_nil_r in H. eauto.
  - rewrite app_assoc, replay_snoc in H.
    destruct (replay P (es1 ++ es2)) as [ph2|] eqn:E; [eauto|discriminate].
Qed.

Lemma is_win_claim e : is_win P e = true -> is_claim P e = true.
Proof.
  unfold is_win, is_claim. destruct (claim_ev P e) as [[u b]|]; simpl; auto.
Qed.

Lemma advance_accounts ph ph' es e :
  accounts P ph es -> advance P ph e = Some ph' -> accounts P ph' (es ++ [e]).
Proof.
  unfold advance. intros Hacc Hadv.
  assert (Hwc := count_le (is_win P) (is_claim P) es is_win_claim).
  destruct (claim_ev P e) as [[u won]|] eqn:Ec.
  - destruct ph as [|n|]; try discriminate. destruct Hacc as [Hc Hs].
    assert (Hic : is_claim P e = true) by (unfold is_claim; rewrite Ec; reflexivity).
    assert (Hia : is_act P e = false)
      by (unfold is_act; rewrite Hic, andb_false_r; reflexivity).
    assert (Hiw : is_win P e = won) by (unfold is_win; rewrite Ec; destruct won; reflexivity).
    destruct won; inversion Hadv; subst; simpl; rewrite !count_snoc, Hic, Hia, Hiw.
    + repeat split; lia.
    + repeat split; try lia. eauto.
  - assert (Hic : is_claim P e = false) by (unfold is_claim; rewrite Ec; reflexivity).
    assert (Hiw : is_win P e = false) by (unfold is_win; rewrite Ec; reflexivity).
    assert (Hia : is_act P e = costly P e)
      by (unfold is_act; rewrite Hic, andb_true_r; reflexivity).
    destruct ph as [|n|]; try discriminate.
    + destruct (costly P e); [discriminate|]. inversion Hadv; subst.
      simpl in *. rewrite !count_snoc, Hic, Hia. lia.
    + destruct (costly P e).
      * destruct n as [|m]; [discriminate|]. inversion Hadv; subst.
        simpl in *. rewrite !count_snoc, Hic, Hia, Hiw. lia.
      * inversion Hadv; subst. simpl in *. rewrite !count_snoc, Hic, Hia, Hiw. lia.
Qed.

Lemma replay_accounts es ph : replay P es = Some ph -> accounts P ph es.
Proof.
  revert ph. induction es as [|e es IH] using rev_ind; intros ph H.
  - inversion H; subst. simpl. split; reflexivity.
  - rewrite replay_snoc in H.
    destruct (replay P es) as [ph0|] eqn:E; [|discriminate].
    eapply advance_accounts; eauto.
Qed.

Lemma follows_step ph (p : prog A) i d d' e p' :
  follows P L ph p -> step1 p i d = Some (d', e, p') ->
  exists ph', advance P ph e = Some ph' /\ follows P L ph' p' /\ step_sound P d e d'.
Proof.
  intros Hf.
  destruct Hf as [ | | |ph R q k next Hq Ha Hk|ph c k next Ha Hk
                 |ph k next Ha Hk|ph e0 k ph0 Ha Hk];
    simpl; intros Hs; try discriminate.
  - destruct (exec q d) as [d1 r] eqn:E. inversion Hs; subst; clear Hs.
    exists (next r). simpl. auto.
  - inversion Hs; subst; clear Hs. exists (next (gw_ok i)). simpl. auto.
  - inversion Hs; subst; clear Hs. exists (next (rnd i)). simpl. auto.
  - inversion Hs; subst; clear Hs. exists ph0. simpl. auto.
Qed.

(** After a lost claim the instance has ended, the way [L] says. *)
Lemma follows_Lost (p : prog A) :
  follows P L Lost p -> exists o, ended p = Some o /\ L o.
Proof.
  intros Hf. remember Lost as ph eqn:Eph.
  destruct Hf as [ph a Ha|ph e Ha|ph Ha|ph R q k next Hq Ha Hk|ph c k next Ha Hk
                 |ph k next Ha Hk|ph e0 k ph0 Ha Hk]; subst ph; simpl.
  - eauto.
  - eauto.
  - eauto.
  - exfalso. specialize (Ha (snd (exec q empty_db))). unfold advance in Ha.
    destruct (claim_ev P _) as [[u w]|]; discriminate.
  - exfalso. specialize (Ha true). unfold advance in Ha.
    destruct (claim_ev P _) as [[u w]|]; discriminate.
  - exfalso. specialize (Ha ""%string). unfold advance in Ha.
    destruct (claim_ev P _) as [[u w]|]; discriminate.
  - exfalso. unfold advance in Ha.
    destruct (claim_ev P _) as [[u w]|]; discriminate.
Qed.

Lemma disciplined_start d (ps : list (prog A)) :
  Forall (follows P L Pre) ps -> disciplined P L (start d ps).
Proof.
  intros H. split; simpl.
  - intros t. exists Pre. split; [reflexivity|].
    intros p Hp. rewrite Forall_forall in H. apply H.
    eapply nth_error_In; eauto.
  - intros u. unfold wins_on, count. simpl. lia.
  - intros u. unfold wins_on, count. simpl. discriminate.
Qed.

Lemma is_win_on_spec u e :
  is_win_on P u e = true <-> claim_ev P e = Some (u, true).
Proof.
  unfold is_win_on. destruct (claim_ev P e) as [[v [|]]|]; split; intros H;
    try discriminate.
  - apply (unit_eqb_eq HP) in H. subst. reflexivity.
  - inversion H; subst. apply (unit_eqb_eq HP). reflexivity.
Qed.

Lemma disciplined_step (s : sys A) t i :
  disciplined P L s -> disciplined P L (sys_step t i s).
Proof.
  intros [Hph Hone Hcons]. unfold sys_step.
  destruct (nth_error (threads s) t) as [p|] eqn:Ep; [|split; assumption].
  destruct (step1 p i (store s)) as [[[d' e] p']|] eqn:Es; [|split; assumption].
  destruct (Hph t) as (ph & Hr & Hf).
  assert (Hstep := Es).
  eapply follows_step in Hstep; [|apply Hf; exact Ep].
  destruct Hstep as (ph' & Ha & Hf' & Hsound).
  assert (Hstore : forall u, claimable P (store s) u = false ->
                             claimable P d' u = false).
  { intros u Hu. unfold step_sound in Hsound.
    destruct e as [R q r| | |]; try (subst d'; exact Hu).
    destruct Hsound as [Hal Hex].
    pose proof (allowed_keeps HP q (store s) u Hal Hu) as Hk.
    rewrite Hex in Hk. exact Hk. }
  assert (Hwin : forall u, is_win_on P u e = true ->
                   claimable P (store s) u = true /\ claimable P d' u = false).
  { intros u Hu. apply is_win_on_spec in Hu.
    destruct e as [R q r| | |]; try discriminate.
    simpl in Hu. destruct (claim_unit P q) as [v|] eqn:Ecu; [|discriminate].
    assert (Hvw : v = u /\ claim_won P q r = true) by (split; congruence).
    destruct Hvw as [-> Hw]. destruct Hsound as [Hal Hex].
    pose proof (claim_consumes HP q (store s) Ecu) as Hc.
    rewrite Hex in Hc. simpl in Hc. apply Hc. exact Hw. }
  split; simpl.
  - intros t0. rewrite events_of_cons.
    destruct (Nat.eqb t t0) eqn:Et.
    + apply Nat.eqb_eq in Et. subst t0. exists ph'. split.
      * rewrite replay_snoc, Hr. exact Ha.
      * intros q Hq. erewrite nth_error_set_nth_eq in Hq by eauto.
        inversion Hq; subst. exact Hf'.
    + apply Nat.eqb_neq in Et. rewrite app_nil_r.
      destruct (Hph t0) as (ph0 & Hr0 & Hf0). exists ph0. split; [exact Hr0|].
      intros q Hq. rewrite nth_error_set_nth_neq in Hq by exact Et. auto.
  - intros u. unfold wins_on. rewrite count_cons. simpl.
    destruct (is_win_on P u e) eqn:Ew.
    + destruct (Hwin u Ew) as [Hc _].
      specialize (Hone u). specialize (Hcons u). unfold wins_on in *.
      destruct (count (fun te => is_win_on P u (snd te)) (trace s)) as [|[|n]];
        try lia.
      rewrite Hcons in Hc by reflexivity. discriminate.
    + apply Hone.
  - intros u. unfold wins_on. rewrite count_cons. simpl.
    destruct (is_win_on P u e) eqn:Ew.
    + intros _. apply (Hwin u Ew).
    + intros H. apply Hstore. apply Hcons. exact H.
Qed.

Lemma disciplined_run sch (s : sys A) :
  disciplined P L s -> disciplined P L (run_sched sch s).
Proof.
  revert s. induction sch as [|[t i] sch IH]; intros s H; simpl; [exact H|].
  apply IH. apply disciplined_step. exact H.
Qed.

Lemma per_thread_safe (s : sys A) t :
  disciplined P L s ->
  let es := events_of t (trace s) in
  (count (is_claim P) es <= 1)%nat /\
  (count (is_win P) es <= count (is_claim P) es)%nat /\
  (count (is_act P) es <= budget P * count (is_win P) es)%nat /\
  (forall es1 e es2, es = es1 ++ e :: es2 -> is_act P e = true ->
                     count (is_win P) es1 = 1%nat) /\
  (count (is_claim P) es = 1%nat -> count (is_win P) es = 0%nat ->
   (exists es' e, es = es' ++ [e] /\ is_claim P e = true) /\
   forall p, nth_error (threads s) t = Some p ->
             exists o, ended p = Some o /\ L o).
Proof.
  intros Hd es. destruct (phase_of_thread Hd t) as (ph & Hr & Hf).
  fold es in Hr. pose proof (replay_accounts _ Hr) as Hacc.
  assert (Hwc := count_le (is_win P) (is_claim P) es is_win_claim).
  split; [destruct ph; simpl in Hacc; lia|].
  split; [exact Hwc|].
  split; [destruct ph; simpl in Hacc; lia|].
  split.
  - intros es1 e es2 Hes He. rewrite Hes in Hr.
    change (es1 ++ e :: es2) with (es1 ++ [e] ++ es2) in Hr.
    rewrite app_assoc in Hr.
    destruct (replay_prefix _ _ Hr) as (ph1 & Hr1).
    rewrite replay_snoc in Hr1.
    destruct (replay P es1) as [ph0|] eqn:E0; [|discriminate].
    pose proof (replay_accounts _ E0) as Hacc0.
    unfold advance in Hr1. unfold is_act, is_claim in He.
    apply andb_prop in He. destruct He as [Hc Hn].
    destruct (claim_ev P e); [discriminate|]. rewrite Hc in Hr1.
    destruct ph0 as [|n|]; try discriminate.
    simpl in Hacc0. apply Hacc0.
  - intros Hc Hw. destruct ph as [|n|]; simpl in Hacc; try lia.
    split; [apply Hacc|].
    intros p Hp. apply follows_Lost. apply Hf. exact Hp.
Qed.

End Discipline.

Section Holders.

Context {U : Type} (P : protocol U).

Lemma two_holders u tr t1 t2 :
  t1 <> t2 -> holds P u tr t1 = true -> holds P u tr t2 = true ->
  (2 <= wins_on P u tr)%nat.
Proof.
  intros Hne H1 H2. unfold holds in *.
  apply count_pos_existsb in H1, H2. rewrite count_events_of in H1, H2.
  pose proof (count_two_tags (is_win_on P u) tr Hne) as H.
  unfold wins_on. lia.
Qed.

Lemma is_win_on_win u e : is_win_on P u e = true -> is_win P e = true.
Proof.
  unfold is_win_on, is_win. destruct (claim_ev P e) as [[v [|]]|]; auto.
Qed.

(** When a unit is won at most once and every instance acts within the
    budget of its wins, the instances that won [u] act at most [budget]
    times in all. *)
Lemma acts_for_bounded u tr :
  (wins_on P u tr <= 1)%nat ->
  (forall t, (count (is_claim P) (events_of t tr) <= 1)%nat /\
             (count (is_act P) (events_of t tr)
              <= budget P * count (is_win P) (events_of t tr))%nat) ->
  (acts_for P u tr <= budget P)%nat.
Proof.
  intros Hone Hper. unfold acts_for.
  destruct (filter (fun te => is_act P (snd te) && holds P u tr (fst te)) tr)
    as [|[t0 e0] rest] eqn:E.
  - unfold count. rewrite E. simpl. lia.
  - assert (Hin : In (t0, e0)
       (filter (fun te => is_act P (snd te) && holds P u tr (fst te)) tr))
      by (rewrite E; left; reflexivity).
    apply filter_In in Hin. destruct Hin as [_ H0]. simpl in H0.
    apply andb_prop in H0. destruct H0 as [_ Hh0].
    assert (Hle : (count (fun te => is_act P (snd te) && holds P u tr (fst te)) tr
                   <= count (fun te => Nat.eqb (fst te) t0 && is_act P (snd te)) tr)%nat).
    { apply count_le. intros [t e] H. simpl in *.
      apply andb_prop in H. destruct H as [Ha Hh]. rewrite Ha, andb_true_r.
      apply Nat.eqb_eq. destruct (Nat.eq_dec t t0) as [|Hne]; [assumption|].
      pose proof (two_holders u tr Hne Hh Hh0). lia. }
    rewrite <- count_events_of in Hle.
    destruct (Hper t0) as [Hc Ha].
    assert (Hw := count_le (is_win P) (is_claim P) (events_of t0 tr)
                           (@is_win_claim _ P)).
    nia.
Qed.

End Holders.

(** Every interleaving of instances that follow a sound protocol is safe. *)
Theorem discipline_safe {U} (P : protocol U) (HP : sound P) {A}
  (L : outcome A -> Prop) d (ps : list (prog A)) sch :
  Forall (follows P L Pre) ps ->
  safe_outcome P L (run_sched sch (start d ps)).
Proof.
  intros Hps. set (s := run_sched sch (start d ps)).
  assert (Hd : disciplined P L s)
    by (apply disciplined_run, disciplined_start; assumption).
  split; [exact (one_win Hd)|]. split.
  - intros u. apply acts_for_bounded; [apply (one_win Hd)|].
    intros t. destruct (per_thread_safe t Hd) as (H1 & _ & H3 & _). auto.
  - intros t. apply (per_thread_safe t Hd).
Qed.

(** ** A race on a first-step claim ends as one call alone *)

Lemma step1_None_any {A} (p : prog A) i j d :
  step1 p i d = None -> step1 p j d = None.
Proof.
  destruct p; simpl; try reflexivity; try discriminate.
  destruct (exec q d); discriminate.
Qed.

Lemma solo_steps_snoc {A} ins i (p : prog A) d :
  solo_steps (ins ++ [i]) p d =
  let '(dw, es, pw) := solo_steps ins p d in
  match step1 pw i dw with
  | None => (dw, es, pw)
  | Some (d', e, p') => (d', es ++ [e], p')
  end.
Proof.
  revert p d. induction ins as [|j ins IH]; intros p d; simpl.
  - destruct (step1 p i d) as [[[d' e] p']|]; reflexivity.
  - destruct (step1 p j d) as [[[d' e] p']|] eqn:E.
    + rewrite IH. destruct (solo_steps ins p' d') as [[dw es] pw].
      destruct (step1 pw i dw) as [[[d2 e2] p2]|]; reflexivity.
    + rewrite (@step1_None_any _ p j i d E). reflexivity.
Qed.

Lemma nth_error_repeat {T} (x : T) N t :
  nth_error (repeat x N) t = if (t <? N)%nat then Some x else None.
Proof.
  revert t. induction N as [|N IH]; intros [|t]; simpl; try reflexivity.
  rewrite IH. reflexivity.
Qed.

Lemma nth_error_set_nth_None {T} (l : list T) n m x :
  nth_error l m = None -> nth_error (set_nth n x l) m = None.
Proof.
  revert n m. induction l as [|z l IH]; intros [|n] [|m]; simpl; auto; discriminate.
Qed.

Lemma ended_step1 {A} (p : prog A) o i d :
  ended p = Some o -> step1 p i d = None.
Proof. destruct p; simpl; intros H; try discriminate; reflexivity. Qed.


Lemma In_events_of t e tr : In (t, e) tr -> In e (events_of t tr).
Proof.
  intros H. unfold events_of. apply in_map_iff. exists (t, e). split; [reflexivity|].
  apply filter_In. split; [apply in_rev in H; exact H|]. simpl. apply Nat.eqb_refl.
Qed.

(** When only the instance [w] makes events that [f] counts, the count over
    the whole trace is the count over the events of [w]. *)
Lemma count_trace_single (f : event -> bool) w tr :
  (forall t e, t <> w -> In e (events_of t tr) -> f e = false) ->
  count (fun te => f (snd te)) tr = count f (events_of w tr).
Proof.
  intros H. rewrite count_events_of. apply count_ext.
  intros [t e] Hin. simpl.
  destruct (Nat.eqb t w) eqn:E; [reflexivity|]. simpl.
  apply Nat.eqb_neq in E. apply (H t e E). apply In_events_of. exact Hin.
Qed.

Lemma exec_prog_ended {A} (p : prog A) out o n d :
  ended p = Some out -> exec_prog p o n d = (d, [], out).
Proof.
  destruct p; simpl; intros H; try discriminate; inversion H; reflexivity.
Qed.

(** Moving alone step by step until the end is running the handler. *)
Lemma solo_exec {A} ins (p : prog A) d n out :
  ended (snd (solo_steps ins p d)) = Some out ->
  forall o, (forall m, (m < List.length ins)%nat -> o (n + m)%nat = nth m ins (mkInput true "")) ->
  exec_prog p o n d
    = (fst (fst (solo_steps ins p d)), snd (fst (solo_steps ins p d)), out).
Proof.
  revert p d n. induction ins as [|i ins IH]; intros p d n Hend o Ho.
  - simpl in *. apply exec_prog_ended. exact Hend.
  - cbn [solo_steps] in *.
    destruct (step1 p i d) as [[[d' e] p']|] eqn:E.
    + assert (Hi : o n = i).
      { specialize (Ho 0%nat). rewrite Nat.add_0_r in Ho. apply Ho. simpl. lia. }
      assert (Ho' : forall m, (m < List.length ins)%nat ->
                              o (S n + m)%nat = nth m ins (mkInput true "")).
      { intros m Hm. specialize (Ho (S m)). simpl in Ho.
        replace (S n + m)%nat with (n + S m)%nat by lia. apply Ho. lia. }
      specialize (IH p' d' (S n)).
      destruct (solo_steps ins p' d') as [[d2 es] p2]. simpl in *.
      specialize (IH Hend o Ho').
      destruct p; simpl in E; try discriminate.
      * destruct (exec q d) as [d1 r] eqn:Ex. inversion E; subst d' e p'.
        simpl. rewrite Ex, IH. reflexivity.
      * inversion E; subst d' e p'. simpl. rewrite Hi, IH. reflexivity.
      * inversion E; subst d' e p'. simpl. rewrite Hi, IH. reflexivity.
      * inversion E; subst d' e p'. simpl. rewrite IH. reflexivity.
    + simpl in *. apply exec_prog_ended. exact Hend.
Qed.

Lemma solo_exec_oracle {A} ins (p : prog A) d out :
  ended (snd (solo_steps ins p d)) = Some out ->
  exec_prog p (oracle_of ins) 0 d
    = (fst (fst (solo_steps ins p d)), snd (fst (solo_steps ins p d)), out).
Proof.
  intros H. apply solo_exec; [exact H|]. intros m _. reflexivity.
Qed.

Lemma exec_prog_bind {A B} (p : prog A) (f : A -> prog B) o n d :
  exec_prog (bind p f) o n d =
  let '(d1, ev1, out1) := exec_prog p o n d in
  match out1 with
  | Returned a =>
      let '(d2, ev2, out2) := exec_prog (f a) o (n + List.length ev1) d1 in
      (d2, ev1 ++ ev2, out2)
  | Thrown e => (d1, ev1, Thrown e)
  | Spinning => (d1, ev1, Spinning)
  end.
Proof.
  revert n d. induction p as [a|e|R q k IH|c k IH|k IH|e p IH|]; intros n d;
    cbn [bind exec_prog].
  - simpl. rewrite Nat.add_0_r. destruct (exec_prog (f a) o n d) as [[? ?] ?].
    reflexivity.
  - reflexivity.
  - destruct (exec q d) as [d' r]. rewrite IH.
    destruct (exec_prog (k r) o (S n) d') as [[d1 ev1] out1].
    destruct out1; try reflexivity. simpl List.length.
    replace (n + S (List.length ev1))%nat with (S n + List.length ev1)%nat by lia.
    destruct (exec_prog (f a) o _ d1) as [[? ?] ?]. reflexivity.
  - rewrite IH.
    destruct (exec_prog (k _) o (S n) d) as [[d1 ev1] out1].
    destruct out1; try reflexivity. simpl List.length.
    replace (n + S (List.length ev1))%nat with (S n + List.length ev1)%nat by lia.
    destruct (exec_prog (f a) o _ d1) as [[? ?] ?]. reflexivity.
  - rewrite IH.
    destruct (exec_prog (k _) o (S n) d) as [[d1 ev1] out1].
    destruct out1; try reflexivity. simpl List.length.
    replace (n + S (List.length ev1))%nat with (S n + List.length ev1)%nat by lia.
    destruct (exec_prog (f a) o _ d1) as [[? ?] ?]. reflexivity.
  - rewrite IH.
    destruct (exec_prog p o (S n) d) as [[d1 ev1] out1].
    destruct out1; try reflexivity. simpl List.length.
    replace (n + S (List.length ev1))%nat with (S n + List.length ev1)%nat by lia.
    destruct (exec_prog (f a) o _ d1) as [[? ?] ?]. reflexivity.
  - reflexivity.
Qed.

Lemma length_set_nth {T} n (x : T) l : List.length (set_nth n x l) = List.length l.
Proof.
  revert n. induction l as [|y l IH]; intros [|n]; simpl; auto.
Qed.

Lemma threads_length {A} sch (s : sys A) :
  List.length (threads (run_sched sch s)) = List.length (threads s).
Proof.
  revert s. induction sch as [|[t i] sch IH]; intros s; [reflexivity|].
  change (run_sched ((t, i) :: sch) s) with (run_sched sch (sys_step t i s)).
  rewrite IH. unfold sys_step.
  destruct (nth_error (threads s) t); [|reflexivity].
  destruct (step1 p i (store s)) as [[[d' e] p']|]; [|reflexivity].
  simpl. apply length_set_nth.
Qed.

Lemma finished_ended {A} (p : prog A) :
  finished p = true -> exists out, ended p = Some out /\ out <> Spinning.
Proof.
  destruct p; simpl; try discriminate; intros _; eexists; split; try reflexivity; discriminate.
Qed.

Lemma all_finished_nth {A} (s : sys A) t p :
  all_finished s = true -> nth_error (threads s) t = Some p -> finished p = true.
Proof.
  unfold all_finished. intros H E. rewrite forallb_forall in H. apply H.
  eapply nth_error_In; eauto.
Qed.

Section Race.

Context {U : Type} (P : protocol U) (HP : sound P).
Context {A : Type} (L : outcome A -> Prop).
Context {R : Type} (q : stmt R) (k : R -> prog A) (u : U).

Hypothesis Hfollows : follows P L Pre (Query q k).
Hypothesis Hunit : claim_unit P q = Some u.
Hypothesis Hclaimed : forall d, claimable P (fst (exec q d)) u = false.
Hypothesis Hlost : forall d, claimable P d u = false ->
  fst (exec q d) = d /\ claim_won P q (snd (exec q d)) = false.

Lemma solo_follows ins (p : prog A) d ph u' :
  follows P L ph p ->
  claimable P d u' = false ->
  claimable P (fst (fst (solo_steps ins p d))) u' = false.
Proof.
  revert p d ph. induction ins as [|i ins IH]; intros p d ph Hf Hu; simpl;
    [exact Hu|].
  destruct (step1 p i d) as [[[d' e] p']|] eqn:E; [|exact Hu].
  destruct (@follows_step _ P _ L ph p i d d' e p' Hf E) as (ph' & Ha & Hf' & Hs).
  specialize (IH p' d' ph' Hf').
  destruct (solo_steps ins p' d') as [[d2 es] p2]. simpl in *.
  apply IH. unfold step_sound in Hs.
  destruct e as [R0 q0 r0| | |]; try (subst d'; exact Hu).
  destruct Hs as [Hal Hex].
  pose proof (allowed_keeps HP q0 d u' Hal Hu) as Hk. rewrite Hex in Hk. exact Hk.
Qed.

Lemma solo_claimed ins d :
  ins <> [] ->
  claimable P (fst (fst (solo_steps ins (Query q k) d))) u = false.
Proof.
  destruct ins as [|i ins]; [congruence|]. intros _.
  assert (E : step1 (Query q k) i d
              = Some (fst (exec q d), EvQuery q (snd (exec q d)), k (snd (exec q d))))
    by (simpl; destruct (exec q d); reflexivity).
  destruct (@follows_step _ P _ L _ _ _ _ _ _ _ Hfollows E) as (ph' & _ & Hf' & _).
  cbn [solo_steps]. rewrite E.
  pose proof (@solo_follows ins _ _ _ u Hf' (Hclaimed d)) as Hs.
  destruct (solo_steps ins _ _) as [[d2 es] p2]. exact Hs.
Qed.

Lemma race_step d0 N (s : sys A) t i :
  disciplined P L s ->
  race (fun r => claim_won P q r = false) q k d0 N s ->
  race (fun r => claim_won P q r = false) q k d0 N (sys_step t i s).
Proof.
  intros Hd Hr. destruct Hr as [Hst Htr Hth|w ins Hw Hins Hst Hev Hth Hoth].
  - (* nobody has moved *)
    unfold sys_step. rewrite Hth, nth_error_repeat.
    destruct (t <? N)%nat eqn:Et; [|apply race_idle; assumption].
    apply Nat.ltb_lt in Et.
    assert (E : step1 (Query q k) i (store s)
       = Some (fst (exec q (store s)), EvQuery q (snd (exec q (store s))),
               k (snd (exec q (store s)))))
      by (simpl; destruct (exec q (store s)); reflexivity).
    rewrite E.
    assert (Esolo : solo_steps [i] (Query q k) d0
       = (fst (exec q (store s)), [EvQuery q (snd (exec q (store s)))],
          k (snd (exec q (store s)))))
      by (cbn [solo_steps]; rewrite <- Hst, E; reflexivity).
    apply race_on with (w := t) (ins := [i]); rewrite ?Esolo; simpl.
    + exact Et.
    + discriminate.
    + reflexivity.
    + rewrite Htr. unfold events_of. simpl. rewrite Nat.eqb_refl. reflexivity.
    + eapply nth_error_set_nth_eq. rewrite nth_error_repeat.
      apply Nat.ltb_lt in Et. rewrite Et. reflexivity.
    + intros t' Hne. rewrite nth_error_set_nth_neq by congruence.
      rewrite Htr. unfold events_of. simpl.
      destruct (Nat.eqb t t') eqn:E'; [apply Nat.eqb_eq in E'; congruence|].
      simpl. rewrite nth_error_repeat.
      destruct (t' <? N)%nat; [left|right; right]; split; reflexivity.
  - (* instance [w] was first *)
    unfold sys_step.
    destruct (nth_error (threads s) t) as [p|] eqn:Ep;
      [|eapply race_on; eassumption].
    destruct (step1 p i (store s)) as [[[d' e] p']|] eqn:Es;
      [|eapply race_on; eassumption].
    destruct (Nat.eq_dec t w) as [->|Hne].
    + (* the first instance moves on *)
      apply race_on with (w := w) (ins := ins ++ [i]); simpl; try assumption.
      * destruct ins; discriminate.
      * rewrite solo_steps_snoc.
        destruct (solo_steps ins (Query q k) d0) as [[dw es] pw]. simpl in *.
        rewrite Ep in Hth. inversion Hth; subst pw. rewrite <- Hst, Es. reflexivity.
      * rewrite events_of_cons, Nat.eqb_refl, solo_steps_snoc.
        destruct (solo_steps ins (Query q k) d0) as [[dw es] pw]. simpl in *.
        rewrite Ep in Hth. inversion Hth; subst pw. rewrite <- Hst, Es, Hev.
        reflexivity.
      * erewrite nth_error_set_nth_eq by eassumption.
        rewrite solo_steps_snoc.
        destruct (solo_steps ins (Query q k) d0) as [[dw es] pw]. simpl in *.
        rewrite Ep in Hth. inversion Hth; subst pw. rewrite <- Hst, Es.
        reflexivity.
      * intros t' Hne. rewrite nth_error_set_nth_neq by congruence.
        rewrite events_of_cons.
        destruct (Nat.eqb w t') eqn:E'; [apply Nat.eqb_eq in E'; congruence|].
        rewrite app_nil_r. apply Hoth. exact Hne.
    + (* another instance moves: it can only lose its claim *)
      assert (Hcl : claimable P (store s) u = false)
        by (rewrite Hst; apply solo_claimed; exact Hins).
      destruct (Hoth t Hne) as [[Hp He]|[(r & Hp & He & Hl)|[Hp He]]].
      * rewrite Ep in Hp. inversion Hp; subst p. simpl in Es.
        destruct (Hlost _ Hcl) as [Hsame Hl].
        destruct (exec q (store s)) as [d1 r] eqn:Ex. simpl in *.
        inversion Es; subst d' e p'. subst d1.
        apply race_on with (w := w) (ins := ins); simpl; try assumption.
        -- rewrite events_of_cons.
           destruct (Nat.eqb t w) eqn:E'; [apply Nat.eqb_eq in E'; congruence|].
           rewrite app_nil_r. exact Hev.
        -- rewrite nth_error_set_nth_neq by congruence. exact Hth.
        -- intros t' Hne'. rewrite events_of_cons.
           destruct (Nat.eq_dec t t') as [->|Hne2].
           ++ rewrite Nat.eqb_refl, He. right. left. exists r.
              erewrite nth_error_set_nth_eq by eassumption. auto.
           ++ rewrite nth_error_set_nth_neq by congruence.
              destruct (Nat.eqb t t') eqn:E'; [apply Nat.eqb_eq in E'; congruence|].
              rewrite app_nil_r. apply Hoth. exact Hne'.
      * (* it had lost already: it has ended *)
        exfalso. destruct (per_thread_safe t Hd) as (_ & _ & _ & _ & Hend).
        rewrite He in Hend.
        assert (Hc1 : count (is_claim P) [EvQuery q r] = 1%nat)
          by (unfold count, is_claim; simpl; rewrite Hunit; reflexivity).
        assert (Hc0 : count (is_win P) [EvQuery q r] = 0%nat)
          by (unfold count, is_win; simpl; rewrite Hunit, Hl; reflexivity).
        destruct (Hend Hc1 Hc0) as [_ Hended].
        destruct (Hended _ Ep) as (o & Ho & _).
        rewrite (@ended_step1 _ p o i (store s) Ho) in Es. discriminate.
      * rewrite Ep in Hp. discriminate.
Qed.


Lemma race_run d0 N sch :
  race (fun r => claim_won P q r = false) q k d0 N
       (run_sched sch (start d0 (repeat (Query q k) N))).
Proof.
  assert (H : forall s : sys A,
    disciplined P L s -> race (fun r => claim_won P q r = false) q k d0 N s ->
    race (fun r => claim_won P q r = false) q k d0 N (run_sched sch s)).
  { induction sch as [|[t i] sch IH]; intros s Hd Hr; simpl; [exact Hr|].
    apply IH; [apply (disciplined_step HP); exact Hd|].
    apply race_step; assumption. }
  apply H.
  - apply disciplined_start. apply Forall_forall. intros p Hp.
    apply repeat_spec in Hp. subst p. exact Hfollows.
  - apply race_idle; reflexivity.
Qed.

(** Once [N] instances racing on the claim have all finished, one of them,
    [w], ran as if alone from the first store, and every other instance made
    one step, a claim that lost. *)
Lemma race_finished d0 N sch :
  (0 < N)%nat ->
  let s := run_sched sch (start d0 (repeat (Query q k) N)) in
  all_finished s = true ->
  exists w ins out,
    (w < N)%nat /\ out <> Spinning /\
    exec_prog (Query q k) (oracle_of ins) 0 d0
      = (store s, events_of w (trace s), out) /\
    (exists pw, nth_error (threads s) w = Some pw /\ ended pw = Some out) /\
    (forall t, t <> w -> (t < N)%nat ->
       exists r, nth_error (threads s) t = Some (k r) /\
                 events_of t (trace s) = [EvQuery q r] /\
                 claim_won P q r = false) /\
    (forall f : event -> bool, (forall r, f (EvQuery q r) = false) ->
       count (fun te => f (snd te)) (trace s) = count f (events_of w (trace s))).
Proof.
  intros HN s Hfin.
  pose proof (race_run d0 N sch) as Hr.
  fold s in Hr.
  destruct Hr as [Hst Htr Hth|w ins Hw Hins Hst Hev Hth Hoth].
  - exfalso. unfold all_finished in Hfin. rewrite Hth in Hfin.
    destruct N as [|N]; [lia|]. simpl in Hfin. discriminate.
  - destruct (finished_ended _ (all_finished_nth _ _ Hfin Hth)) as (out & Hout & Hns).
    exists w, ins, out. split; [exact Hw|]. split; [exact Hns|].
    split.
    { rewrite (solo_exec_oracle _ _ _ Hout), Hst, Hev. reflexivity. }
    split; [eexists; split; [exact Hth|exact Hout]|].
    split.
    + intros t Htw HtN.
      destruct (Hoth t Htw) as [[Hq _]|[(r & Hk & He & Hl)|[Hn _]]].
      * pose proof (all_finished_nth _ _ Hfin Hq) as F. discriminate F.
      * exists r. auto.
      * exfalso. apply nth_error_None in Hn. subst s.
        rewrite threads_length in Hn. simpl in Hn. rewrite repeat_length in Hn. lia.
    + intros f Hf. apply count_trace_single. intros t e Htw Hin.
      destruct (Hoth t Htw) as [[_ He]|[(r & _ & He & _)|[_ He]]];
        rewrite He in Hin; simpl in Hin; try contradiction.
      destruct Hin as [<-|[]]. apply Hf.
Qed.

End Race.

(** ** Settlement: one claim, one transfer *)

Lemma existsb_update_where_keeps {T} (p q : T -> bool) f l :
  (forall x, p (f x) = true -> p x = true) ->
  existsb p l = false -> existsb p (update_where q f l) = false.
Proof.
  intros Hf. unfold update_where.
  induction l as [|x l IH]; simpl; [reflexivity|].
  intros H. apply orb_false_iff in H. destruct H as [Hx Hl].
  rewrite IH by exact Hl. rewrite orb_false_r.
  destruct (q x); [|exact Hx].
  destruct (p (f x)) eqn:E; [|reflexivity]. rewrite (Hf x E) in Hx. discriminate.
Qed.

Lemma existsb_update_where_self {T} (p : T -> bool) f l :
  (forall x, p (f x) = false) -> existsb p (update_where p f l) = false.
Proof.
  intros Hf. unfold update_where.
  induction l as [|x l IH]; simpl; [reflexivity|].
  rewrite IH, orb_false_r. destruct (p x) eqn:E; [apply Hf|exact E].
Qed.

Lemma some_row_filter {T V} (f : T -> V) (p : T -> bool) l :
  some_row (map f (filter p l)) = existsb p l.
Proof.
  induction l as [|x l IH]; simpl; [reflexivity|].
  destruct (p x); simpl; [reflexivity|exact IH].
Qed.

Lemma code_unclaimed_set_used i c : code_unclaimed i (set_used c) = false.
Proof. unfold code_unclaimed, set_used. simpl. apply andb_false_r. Qed.

Lemma milestone_claimable_released i t m :
  milestone_claimable i (set_milestone "released" t m) = false.
Proof. unfold milestone_claimable, set_milestone. simpl. apply andb_false_r. Qed.

Lemma settlement_sound cost n :
  sound (mkProtocol settlement_unit_eqb settle_claim_unit settle_claim_won
                    cost n settle_claimable settle_allowed).
Proof.
  split; simpl.
  - intros [i|i] [j|j]; simpl; split; intros H; try discriminate;
      try (apply Z.eqb_eq in H; congruence);
      inversion H; subst; apply Z.eqb_refl.
  - intros R q u d Hq Hw. destruct q; try discriminate Hq;
      inversion Hq; subst; simpl in *; rewrite some_row_filter in Hw.
    + split; [exact Hw|].
      apply existsb_update_where_self. apply code_unclaimed_set_used.
    + split; [exact Hw|].
      apply existsb_update_where_self. intros x.
      apply milestone_claimable_released.
  - intros R q d u Hal Hu.
    destruct q; try discriminate Hal; destruct u; simpl in *;
      repeat break_if; simpl; try exact Hu.
    + apply existsb_update_where_keeps; [|exact Hu].
      intros x. rewrite code_unclaimed_set_used. discriminate.
    + apply existsb_update_where_keeps; [|exact Hu].
      intros x. rewrite milestone_claimable_released. discriminate.
Qed.

Lemma transfer_protocol_sound : sound transfer_protocol.
Proof. apply settlement_sound. Qed.

Lemma payout_protocol_sound : sound payout_protocol.
Proof. apply settlement_sound. Qed.

Lemma settlement_attempt_follows_transfer p :
  settlement_attempt p -> follows transfer_protocol settlement_abort Pre p.
Proof.
  intros [(code & n & ->)|[(tok & id & ->)|(tok & ->)]].
  - unfold Payout.post_release_funds, Payout.executePayout.
    follows_with settlement_abort_tac.
  - unfold Payout.post_verify_payout, Payout.executePayoutLink.
    follows_with settlement_abort_tac.
  - unfold Payout.post_release_milestone.
    follows_with settlement_abort_tac.
Qed.

Lemma settlement_attempt_follows_payout p :
  settlement_attempt p -> follows payout_protocol settlement_abort Pre p.
Proof.
  intros [(code & n & ->)|[(tok & id & ->)|(tok & ->)]].
  - unfold Payout.post_release_funds, Payout.executePayout.
    follows_with settlement_abort_tac.
  - unfold Payout.post_verify_payout, Payout.executePayoutLink.
    follows_with settlement_abort_tac.
  - unfold Payout.post_release_milestone.
    follows_with settlement_abort_tac.
Qed.

(** *** A claim that affects no row *)

Lemma update_where_none {T} (p : T -> bool) f l :
  existsb p l = false -> update_where p f l = l.
Proof.
  unfold update_where. induction l as [|x l IH]; simpl; [reflexivity|].
  intros H. apply orb_false_iff in H. destruct H as [Hx Hl].
  rewrite Hx, IH by exact Hl. reflexivity.
Qed.

Lemma filter_none {T} (p : T -> bool) l :
  existsb p l = false -> filter p l = [].
Proof.
  induction l as [|x l IH]; simpl; [reflexivity|].
  intros H. apply orb_false_iff in H. destruct H as [Hx Hl].
  rewrite Hx. apply IH, Hl.
Qed.

Lemma claim_code_lost id d :
  settle_claimable d (CodeUnit id) = false ->
  exec (ClaimConfirmationCode id) d = (d, []).
Proof.
  simpl. intros H. rewrite (filter_none _ _ H). simpl. f_equal.
  unfold with_confirmation_codes. rewrite (update_where_none _ _ _ H).
  destruct d; reflexivity.
Qed.

(** [executePayout] and [executePayoutLink] on a unit that has no unclaimed
    row: the store is left as it is and the already-processed error is
    thrown before anything else happens. *)
Lemma executePayout_already_processed id d o n :
  settle_claimable d (CodeUnit id) = false ->
  exec_prog (Payout.executePayout id) o n d
    = (d, [EvQuery (ClaimConfirmationCode id) []],
       Thrown (AlreadyProcessedError id)) /\
  exec_prog (Payout.executePayoutLink id) o n d
    = (d, [EvQuery (ClaimConfirmationCode id) []],
       Thrown (AlreadyProcessedError id)).
Proof.
  intros H. unfold Payout.executePayout, Payout.executePayoutLink.
  cbn [bind query exec_prog]. rewrite (claim_code_lost _ _ H).
  split; reflexivity.
Qed.

(** *** Reusing a credential after a successful release *)

Lemma filter_update_where {T} (p q : T -> bool) f l :
  (forall x, p (f x) = p x) ->
  filter p (update_where q f l) = update_where q f (filter p l).
Proof.
  intros Hf. unfold update_where. induction l as [|x l IH]; simpl; [reflexivity|].
  destruct (q x) eqn:Eq.
  - rewrite Hf. destruct (p x); simpl; rewrite ?Eq, IH; reflexivity.
  - destruct (p x); simpl; rewrite ?Eq, IH; reflexivity.
Qed.

Lemma filter_update_where_cleared {T} (p q : T -> bool) f l :
  (forall x, p (f x) = false) ->
  filter p (update_where q f l) = filter (fun x => negb (q x)) (filter p l).
Proof.
  intros Hf. unfold update_where. induction l as [|x l IH]; simpl; [reflexivity|].
  destruct (q x) eqn:Eq.
  - rewrite Hf. destruct (p x); simpl; rewrite ?Eq, IH; reflexivity.
  - destruct (p x); simpl; rewrite ?Eq, IH; reflexivity.
Qed.

Lemma code_success_store d o n0 code n d1 evs :
  exec_prog (Payout.post_release_funds code n) o n0 d
    = (d1, evs, Returned Payout.payout_processed) ->
  negb (truthy code) || negb (truthy n) = false /\
  exists inv rest,
    filter (fun i => String.eqb (i_invoicenumber i) n) (invoices d) = inv :: rest /\
    invoices d1 = update_where (fun i => i_id i =? i_id inv)
                               (set_invoice_status "completed") (invoices d).
Proof.
  unfold Payout.post_release_funds, Payout.executePayout.
  run_all; intros H; try discriminate H.
  all: inversion H; subst; clear H.
  all: split; [reflexivity|]; do 2 eexists; split; [reflexivity|run_prog; reflexivity].
Qed.

Lemma code_reuse d o code n d1 evs :
  exec_prog (Payout.post_release_funds code n) o 0 d
    = (d1, evs, Returned Payout.payout_processed) ->
  forall o' m, exists evs',
    exec_prog (Payout.post_release_funds code n) o' m d1
      = (d1, evs', Returned (Payout.already_paid_out n)) /\ withdrawals evs' = [].
Proof.
  intros H o' m. apply code_success_store in H.
  destruct H as (Hc & inv & rest & Hi & Hd1).
  unfold Payout.post_release_funds. rewrite Hc. run_prog.
  rewrite Hd1, filter_update_where by reflexivity. rewrite Hi.
  cbn [update_where map]; rewrite Z.eqb_refl; run_prog.
  cbn [set_invoice_status i_status String.eqb Ascii.eqb Bool.eqb].
  eexists; split; reflexivity.
Qed.

Lemma link_success_store d o n0 tok id d1 evs :
  exec_prog (Payout.post_verify_payout tok id) o n0 d
    = (d1, evs, Returned link_success) ->
  exists row rest,
    filter (fun c => String.eqb (c_verification_token c) tok)
           (confirmation_codes d) = row :: rest /\
    c_is_used row = false /\
    confirmation_codes d1
      = update_where (code_unclaimed (c_code_id row)) set_used
                     (confirmation_codes d).
Proof.
  unfold Payout.post_verify_payout, Payout.executePayoutLink, link_success.
  run_all; intros H; try discriminate H.
  all: inversion H; subst; clear H.
  all: do 2 eexists; split; [reflexivity|]; split; [assumption|run_prog; reflexivity].
Qed.

Lemma link_reuse d o tok id d1 evs :
  exec_prog (Payout.post_verify_payout tok id) o 0 d
    = (d1, evs, Returned link_success) ->
  forall o' m, exists evs',
    exec_prog (Payout.post_verify_payout tok id) o' m d1
      = (d1, evs', Returned Payout.link_expired) /\ withdrawals evs' = [].
Proof.
  intros H o' m. apply link_success_store in H.
  destruct H as (row & rest & Hrow & Hused & Hd1).
  unfold Payout.post_verify_payout. run_prog.
  rewrite Hd1, filter_update_where by reflexivity. rewrite Hrow.
  cbn [update_where map]. unfold code_unclaimed at 1.
  rewrite Z.eqb_refl, Hused. cbn [negb andb set_used c_is_used]. run_prog.
  eexists; split; reflexivity.
Qed.

Lemma milestone_success_store d o n0 tok d1 evs r :
  exec_prog (Payout.post_release_milestone tok) o n0 d = (d1, evs, Returned r) ->
  res_status r = 200 ->
  exists ms rest,
    filter (fun m => token_is (m_release_token m) tok) (invoice_milestones d)
      = ms :: rest /\
    String.eqb (m_status ms) "completed" = true /\
    invoice_milestones d1
      = update_where (milestone_claimable (m_id ms))
                     (set_milestone "released" None) (invoice_milestones d).
Proof.
  unfold Payout.post_release_milestone.
  run_all; intros H Hr; inversion H; subst; clear H; try discriminate Hr.
  all: do 2 eexists; split; [reflexivity|]; split;
    [apply negb_false_iff; assumption|run_prog; reflexivity].
Qed.

Lemma filter_filter_nil {T} (p q : T -> bool) l x :
  filter p l = [x] -> q x = true -> filter (fun y => negb (q y)) (filter p l) = [].
Proof. intros -> Hq. simpl. rewrite Hq. reflexivity. Qed.

Lemma milestone_reuse d o tok d1 evs r ms :
  filter (fun m => token_is (m_release_token m) tok) (invoice_milestones d) = [ms] ->
  exec_prog (Payout.post_release_milestone tok) o 0 d = (d1, evs, Returned r) ->
  res_status r = 200 ->
  forall o' m, exists evs',
    exec_prog (Payout.post_release_milestone tok) o' m d1
      = (d1, evs', Returned Payout.ms_invalid_link) /\ withdrawals evs' = [].
Proof.
  intros Huniq H Hr o' m.
  destruct (milestone_success_store _ _ _ _ H Hr) as (ms' & rest & Hms & Hst & Hd1).
  rewrite Huniq in Hms. inversion Hms; subst ms' rest; clear Hms.
  unfold Payout.post_release_milestone. run_prog.
  rewrite Hd1, filter_update_where_cleared by reflexivity.
  rewrite (filter_filter_nil _ (milestone_claimable (m_id ms)) _ Huniq).
  - run_prog. eexists; split; reflexivity.
  - unfold milestone_claimable. rewrite Z.eqb_refl, Hst. reflexivity.
Qed.

(** C1, as stated, fails on the milestone route: after a release with token
    "rel-1" succeeded, the same token is answered 404 "Invalid Link", which
    is none of the already-processed answers. *)
Lemma milestone_token_reuse_not_already_processed :
  let first := exec_prog (Payout.post_release_milestone "rel-1") world_up 0 sample_db in
  let again := exec_prog (Payout.post_release_milestone "rel-1") world_up 0
                         (final_store first) in
  outcome_in first = Returned (Payout.ms_released_page 19600 "Design" 1) /\
  outcome_in again = Returned Payout.ms_invalid_link /\
  ~ already_processed_response Payout.ms_invalid_link.
Proof.
  split; [vm_compute; reflexivity|]. split; [vm_compute; reflexivity|].
  unfold already_processed_response.
  intros [H|[H|[n H]]]; discriminate H.
Qed.

Lemma is_act_transfer e : is_act transfer_protocol e = is_withdraw e.
Proof.
  unfold is_act, is_claim. destruct e as [R q r|c b|s|n]; simpl;
    rewrite ?andb_true_r; try reflexivity.
Qed.

Lemma is_act_payout e : is_act payout_protocol e = is_payout_insert e.
Proof.
  unfold is_act, is_claim. destruct e as [R q r|c b|s|n]; simpl;
    rewrite ?andb_true_r; try reflexivity.
  destruct q; reflexivity.
Qed.

(** C1 (amended).  In every interleaving of settlement attempts the
    conditional update of a unit (confirmation code row or milestone) affects
    a row for at most one attempt; an attempt sends a withdraw call to the
    gateway and records a Payout only after its own update affected a row,
    at most once each; an attempt whose update affected no row has ended
    with that update as its last step: [executePayout]/[executePayoutLink]
    throw the already-processed error, which the route answers with its
    generic error, and the milestone route answers "Already Released".  A
    later reuse of a credential that was used successfully changes nothing
    and sends no withdraw call: the code route answers "already paid out",
    the link route "Link Expired", and the milestone route, whose token the
    claim cleared, answers 404 "Invalid Link". *)
Theorem settlement_claimed_once
  (d : db) (attempts : list (prog response)) (sch : schedule)
  (Hattempts : Forall settlement_attempt attempts) :
  let s := run_sched sch (start d attempts) in
  (* every interleaving *)
  safe_outcome transfer_protocol settlement_abort s /\
  safe_outcome payout_protocol settlement_abort s /\
  (forall e, is_act transfer_protocol e = is_withdraw e) /\
  (forall e, is_act payout_protocol e = is_payout_insert e) /\
  (* a claim that affects no row, inside the two payout functions *)
  (forall id o n,
     settle_claimable d (CodeUnit id) = false ->
     exec_prog (Payout.executePayout id) o n d
       = (d, [EvQuery (ClaimConfirmationCode id) []],
          Thrown (AlreadyProcessedError id)) /\
     exec_prog (Payout.executePayoutLink id) o n d
       = (d, [EvQuery (ClaimConfirmationCode id) []],
          Thrown (AlreadyProcessedError id))) /\
  (* reuse after a successful release *)
  (forall o code n d1 evs,
     exec_prog (Payout.post_release_funds code n) o 0 d
       = (d1, evs, Returned Payout.payout_processed) ->
     forall o' m, exists evs',
       exec_prog (Payout.post_release_funds code n) o' m d1
         = (d1, evs', Returned (Payout.already_paid_out n)) /\
       withdrawals evs' = []) /\
  (forall o tok id d1 evs,
     exec_prog (Payout.post_verify_payout tok id) o 0 d
       = (d1, evs, Returned link_success) ->
     forall o' m, exists evs',
       exec_prog (Payout.post_verify_payout tok id) o' m d1
         = (d1, evs', Returned Payout.link_expired) /\
       withdrawals evs' = []) /\
  (forall o tok ms d1 evs r,
     filter (fun m => token_is (m_release_token m) tok) (invoice_milestones d)
       = [ms] ->
     exec_prog (Payout.post_release_milestone tok) o 0 d
       = (d1, evs, Returned r) ->
     res_status r = 200 ->
     forall o' m, exists evs',
       exec_prog (Payout.post_release_milestone tok) o' m d1
         = (d1, evs', Returned Payout.ms_invalid_link) /\
       withdrawals evs' = []).
Proof.
  intros s.
  split.
  { apply (discipline_safe transfer_protocol_sound).
    eapply Forall_impl; [|exact Hattempts].
    apply settlement_attempt_follows_transfer. }
  split.
  { apply (discipline_safe payout_protocol_sound).
    eapply Forall_impl; [|exact Hattempts].
    apply settlement_attempt_follows_payout. }
  split; [exact is_act_transfer|].
  split; [exact is_act_payout|].
  split; [intros; apply executePayout_already_processed; assumption|].
  split; [intros; eapply code_reuse; eassumption|].
  split; [intros; eapply link_reuse; eassumption|].
  intros; eapply milestone_reuse; eassumption.
Qed.

Lemma settlement_claimed_once_witness :
  Forall settlement_attempt sample_attempts /\
  safe_outcome transfer_protocol settlement_abort
    (run_sched sample_schedule (start sample_db sample_attempts)) /\
  (let d1 := final_store (exec_prog (Payout.post_release_funds "ABCD2345" "INV-1")
                                    world_up 0 sample_db) in
   exists evs',
     exec_prog (Payout.post_release_funds "ABCD2345" "INV-1") world_up 0 d1
       = (d1, evs', Returned (Payout.already_paid_out "INV-1")) /\
     withdrawals evs' = []).
Proof.
  assert (H : Forall settlement_attempt sample_attempts).
  { unfold sample_attempts, settlement_attempt.
    repeat (apply Forall_cons || apply Forall_nil); eauto 6. }
  pose proof (settlement_claimed_once sample_db sample_schedule H) as T.
  split; [exact H|]. split; [exact (proj1 T)|].
  destruct T as (_ & _ & _ & _ & _ & Hcode & _).
  apply (Hcode world_up "ABCD2345" "INV-1" _
           (events_in (exec_prog (Payout.post_release_funds "ABCD2345" "INV-1")
                                 world_up 0 sample_db))).
  vm_compute. reflexivity.
Defined.

(** ** The fee split of the payout paths *)

Lemma claim_rows_nonempty {T V} (f : T -> V) p l :
  existsb p l = true -> exists z zs, map f (filter p l) = z :: zs.
Proof.
  induction l as [|c l IH]; simpl; [discriminate|].
  destruct (p c); simpl; eauto.
Qed.

Lemma In_filter_head {T} (p : T -> bool) l x rest :
  filter p l = x :: rest -> In x l /\ p x = true.
Proof.
  intros H. apply filter_In. rewrite H. left. reflexivity.
Qed.

Lemma existsb_of_In {T} (p : T -> bool) l x :
  In x l -> p x = true -> existsb p l = true.
Proof. intros Hin Hp. apply existsb_exists. eauto. Qed.

Lemma seller_id_of_filter (uid : Z) (l : list user) seller rest :
  filter (fun u => u_id u =? uid) l = seller :: rest -> u_id seller = uid.
Proof.
  intros H. destruct (In_filter_head _ _ H) as [_ Hp].
  apply Z.eqb_eq. exact Hp.
Qed.

(** Crediting is the balance update of the credit step. *)
Lemma credited_once_update id amount l :
  update_where (fun u => u_id u =? id) (add_balance amount) l
  = credited_once id amount l.
Proof. reflexivity. Qed.

Lemma credited_once_balance id amount l u :
  filter (fun x => u_id x =? id) l = [u] ->
  map u_referral_balance (filter (fun x => u_id x =? id) (credited_once id amount l))
  = [u_referral_balance u + amount].
Proof.
  unfold credited_once. revert u. induction l as [|x l IH]; intros u H; [discriminate H|].
  cbn [map filter] in *.
  destruct (u_id x =? id) eqn:E.
  - cbn [u_id]. rewrite E. inversion H as [[Hx Hl]]. subst x. cbn [map u_referral_balance].
    f_equal. clear -Hl. induction l as [|y l IH]; [reflexivity|].
    cbn [map filter] in *. destruct (u_id y =? id) eqn:E; [discriminate Hl|].
    rewrite E. apply IH, Hl.
  - rewrite E. apply IH, H.
Qed.

(** Whether the balance update goes through is whether the amount fits the
    one row. *)
Lemma credit_fits_row id amount l u :
  filter (fun x => u_id x =? id) l = [u] ->
  int4 amount
  && forallb (fun x => int4 (u_referral_balance x + amount))
             (filter (fun x => u_id x =? id) l) = credit_fits amount u.
Proof.
  intros H. rewrite H. unfold credit_fits. cbn [forallb].
  rewrite andb_true_r. reflexivity.
Qed.

Lemma floor_share_pos gross :
  (0 <? Math_floor (times gross REFERRAL_FEE_RATE)) = false ->
  ~ 0 < Qfloor (inject_Z gross * (5 # 1000))%Q.
Proof.
  intros E. apply Z.ltb_ge in E.
  unfold Math_floor, times, REFERRAL_FEE_RATE in E. lia.
Qed.

(** Ends the credit conjunct of a payout path once the run is evaluated. *)
Ltac credit_conjunct :=
  unfold credits_referrer, fee_split; cbn [referralShare];
  let r' := fresh "r" in let ref := fresh "referrer" in
  let Hr := fresh "Hr" in let Href := fresh "Href" in let Hp := fresh "Hp" in
  let Hk := fresh "Hk" in let Hfit := fresh "Hfit" in
  intros r' ref Hr Href Hp Hk;
  try discriminate Hr; try (inversion Hr; subst);
  try (cbn [is_some referralShare] in Hp; lia);
  try match goal with
      | E : (0 <? _) = false |- _ => exfalso; apply (floor_share_pos _ E); exact Hp
      end;
  try match goal with
      | E : existsb _ (referral_earnings _) = true |- _ =>
          rewrite E in Hk; discriminate Hk
      end;
  try match goal with
      | E : _ && forallb _ _ = ?b |- _ =>
          pose proof (eq_trans (eq_sym (@credit_fits_row _ _ _ _ Href)) E) as Hfit;
          cbn [is_some referralShare];
          unfold final_store; run_prog; rewrite ?credited_once_update;
          split; [reflexivity|];
          split; intros Hfit';
          first
            [ reflexivity
            | split; [reflexivity|apply credited_once_balance; assumption]
            | exfalso;
              match type of Hfit' with
              | _ = ?b' =>
                  assert (X : b = b') by (rewrite <- Hfit; exact Hfit');
                  discriminate X
              end ]
      end.

(** Ends a payout path once the run is evaluated: the breakdown, the
    withdraw call and the payout row are read off, the credit is left. *)
Ltac path_done :=
  split;
  [ split; [|split]; try reflexivity;
    unfold logged, pick;
    cbn [flat_map log_of app totalFee platformShare referralShare sellerReceives
         events_in fst snd];
    rewrite ?Z.sub_0_r; reflexivity
  | try (split; [|reflexivity]); credit_conjunct ].

Lemma fee_split_code_path d o invoiceId inv rest seller rest' :
  existsb (code_unclaimed invoiceId) (confirmation_codes d) = true ->
  filter (fun i => i_id i =? invoiceId) (invoices d) = inv :: rest ->
  filter (fun u => u_id u =? i_userid inv) (users d) = seller :: rest' ->
  gateway_up o ->
  let run := exec_prog (Payout.executePayout invoiceId) o 0 d in
  paid_out_as run d (i_amount inv) seller invoiceId (i_invoicenumber inv)
    ("Fonlok payout for invoice " ^^ i_invoicenumber inv) (i_invoicenumber inv) /\
  credits_referrer run d (i_amount inv) seller (i_invoicenumber inv) /\
  outcome_in run = Returned true.
Proof.
  intros Hc Hi Hu Hg run. subst run. unfold gateway_up in Hg.
  destruct (claim_rows_nonempty c_code_id _ _ Hc) as (z & zs & E). clear Hc.
  pose proof (@seller_id_of_filter _ _ _ _ Hu) as Hsid.
  unfold paid_out_as, credits_referrer.
  unfold Payout.executePayout, fee_split, creditReferralIf, creditReferral.
  run_known.
  destruct (u_referred_by seller) as [r|] eqn:Eref; run_known.
  - destruct (0 <? _) eqn:Epos; run_known.
    + destruct (existsb _ (referral_earnings d)) eqn:Ekey; run_known.
      * rewrite Hsid. path_done.
      * destruct (int4 _ && forallb _ _) eqn:Efit; run_known;
          rewrite Hsid; path_done.
    + rewrite Hsid. path_done.
  - rewrite Hsid. path_done.
Qed.

Lemma executePayoutLink_same id :
  Payout.executePayoutLink id = Payout.executePayout id.
Proof. reflexivity. Qed.

Lemma fee_split_milestone_path d o token ms rest inv rest1 seller rest2 :
  filter (fun m => token_is (m_release_token m) token) (invoice_milestones d)
    = ms :: rest ->
  m_status ms = "completed" ->
  filter (fun i => i_id i =? m_invoice_id ms) (invoices d) = inv :: rest1 ->
  filter (fun u => u_id u =? i_userid inv) (users d) = seller :: rest2 ->
  gateway_up o ->
  let run := exec_prog (Payout.post_release_milestone token) o 0 d in
  paid_out_as run d (m_amount ms) seller (i_id inv) (i_invoicenumber inv)
    ("Fonlok milestone payout: " ^^ m_label ms ^^ " (Invoice "
     ^^ i_invoicenumber inv ^^ ")")
    ("milestone-" ^^ Z_to_string (m_id ms)) /\
  credits_referrer run d (m_amount ms) seller
    (i_invoicenumber inv ^^ "-ms" ^^ Z_to_string (m_id ms)).
Proof.
  intros Hms Hst Hi Hu Hg run. subst run. unfold gateway_up in Hg.
  assert (Hc : existsb (milestone_claimable (m_id ms)) (invoice_milestones d) = true).
  { destruct (In_filter_head _ _ Hms) as [Hin _].
    apply (existsb_of_In _ _ _ Hin).
    unfold milestone_claimable. rewrite Z.eqb_refl, Hst. reflexivity. }
  destruct (claim_rows_nonempty m_id _ _ Hc) as (z & zs & E). clear Hc.
  pose proof (@seller_id_of_filter _ _ _ _ Hu) as Hsid.
  unfold paid_out_as, credits_referrer.
  unfold Payout.post_release_milestone, fee_split, creditReferralIf, creditReferral.
  run_known. rewrite Hst.
  cbn [String.eqb Ascii.eqb Bool.eqb negb]. run_known.
  destruct (u_referred_by seller) as [r|] eqn:Eref; run_known.
  - destruct (0 <? _) eqn:Epos; run_known.
    + destruct (existsb _ (referral_earnings d)) eqn:Ekey; run_known.
      * destruct (Nat.eqb _ 0); run_known; rewrite Hsid; path_done.
      * destruct (int4 _ && forallb _ _) eqn:Efit; run_known;
          destruct (Nat.eqb _ 0); run_known; rewrite Hsid; path_done.
    + destruct (Nat.eqb _ 0); run_known; rewrite Hsid; path_done.
  - destruct (Nat.eqb _ 0); run_known; rewrite Hsid; path_done.
Qed.

Lemma fee_split_dispute_seller_path d o token dsp rest inv rest1 seller rest2 :
  filter (fun x => String.eqb (d_admin_token x) token) (disputes d) = dsp :: rest ->
  d_status dsp = "open" ->
  filter (fun i => String.eqb (i_invoicenumber i) (d_invoicenumber dsp)) (invoices d)
    = inv :: rest1 ->
  filter (fun u => u_id u =? i_userid inv) (users d) = seller :: rest2 ->
  gateway_up o ->
  let run := exec_prog (Dispute.post_resolve token "seller") o 0 d in
  paid_out_as run d (i_amount inv) seller (i_id inv) (i_invoicenumber inv)
    ("Dispute resolved - payout for invoice " ^^ i_invoicenumber inv)
    (i_invoicenumber inv) /\
  credits_referrer run d (i_amount inv) seller (i_invoicenumber inv).
Proof.
  intros Hd Hst Hi Hu Hg run. subst run. unfold gateway_up in Hg.
  pose proof (@seller_id_of_filter _ _ _ _ Hu) as Hsid.
  unfold paid_out_as, credits_referrer.
  unfold Dispute.post_resolve, Dispute.system_message, fee_split,
    creditReferralIf, creditReferral.
  run_known. rewrite Hst.
  cbn [String.eqb Ascii.eqb Bool.eqb negb]. run_known.
  destruct (u_referred_by seller) as [r|] eqn:Eref; run_known.
  - destruct (0 <? _) eqn:Epos; run_known.
    + destruct (existsb _ (referral_earnings d)) eqn:Ekey; run_known.
      * destruct (filter _ (chats d)) as [|ch chs]; run_known;
          destruct (filter _ (guests d)) as [|g gs]; run_known;
          rewrite Hsid; path_done.
      * destruct (int4 _ && forallb _ _) eqn:Efit; run_known;
          destruct (filter _ (chats d)) as [|ch chs]; run_known;
          destruct (filter _ (guests d)) as [|g gs]; run_known;
          rewrite Hsid; path_done.
    + destruct (filter _ (chats d)) as [|ch chs]; run_known;
        destruct (filter _ (guests d)) as [|g gs]; run_known;
        rewrite Hsid; path_done.
  - destruct (filter _ (chats d)) as [|ch chs]; run_known;
      destruct (filter _ (guests d)) as [|g gs]; run_known;
      rewrite Hsid; path_done.
Qed.

(** C2.  The three seller-payout paths (code, link, milestone), and the
    dispute path that pays the seller, log, withdraw and record the split
    totalFee = floor(gross * 0.02), referralShare = floor(gross * 0.005) with
    a referrer and 0 without, platformShare = totalFee - referralShare, seller
    = gross - totalFee.  The referrer earns referralShare: an earnings row of
    that amount is recorded, and the amount is added to the referrer's
    balance when the sum stays within INTEGER (no balance changes when it
    does not).  For gross = 100,000 the seller receives 98,000
    in both cases, the referrer 500 and the platform 1,500 with a referrer,
    the platform 2,000 without. *)
Theorem payout_paths_fee_split :
  (forall d o invoiceId inv rest seller rest',
     existsb (code_unclaimed invoiceId) (confirmation_codes d) = true ->
     filter (fun i => i_id i =? invoiceId) (invoices d) = inv :: rest ->
     filter (fun u => u_id u =? i_userid inv) (users d) = seller :: rest' ->
     gateway_up o ->
     forall run,
       run = exec_prog (Payout.executePayout invoiceId) o 0 d \/
       run = exec_prog (Payout.executePayoutLink invoiceId) o 0 d ->
       paid_out_as run d (i_amount inv) seller invoiceId (i_invoicenumber inv)
         ("Fonlok payout for invoice " ^^ i_invoicenumber inv)
         (i_invoicenumber inv) /\
       credits_referrer run d (i_amount inv) seller (i_invoicenumber inv) /\
       outcome_in run = Returned true) /\
  (forall d o token ms rest inv rest1 seller rest2,
     filter (fun m => token_is (m_release_token m) token) (invoice_milestones d)
       = ms :: rest ->
     m_status ms = "completed" ->
     filter (fun i => i_id i =? m_invoice_id ms) (invoices d) = inv :: rest1 ->
     filter (fun u => u_id u =? i_userid inv) (users d) = seller :: rest2 ->
     gateway_up o ->
     let run := exec_prog (Payout.post_release_milestone token) o 0 d in
     paid_out_as run d (m_amount ms) seller (i_id inv) (i_invoicenumber inv)
       ("Fonlok milestone payout: " ^^ m_label ms ^^ " (Invoice "
        ^^ i_invoicenumber inv ^^ ")")
       ("milestone-" ^^ Z_to_string (m_id ms)) /\
     credits_referrer run d (m_amount ms) seller
       (i_invoicenumber inv ^^ "-ms" ^^ Z_to_string (m_id ms))) /\
  (forall d o token dsp rest inv rest1 seller rest2,
     filter (fun x => String.eqb (d_admin_token x) token) (disputes d)
       = dsp :: rest ->
     d_status dsp = "open" ->
     filter (fun i => String.eqb (i_invoicenumber i) (d_invoicenumber dsp))
            (invoices d) = inv :: rest1 ->
     filter (fun u => u_id u =? i_userid inv) (users d) = seller :: rest2 ->
     gateway_up o ->
     let run := exec_prog (Dispute.post_resolve token "seller") o 0 d in
     paid_out_as run d (i_amount inv) seller (i_id inv) (i_invoicenumber inv)
       ("Dispute resolved - payout for invoice " ^^ i_invoicenumber inv)
       (i_invoicenumber inv) /\
     credits_referrer run d (i_amount inv) seller (i_invoicenumber inv)) /\
  (forall gross,
     totalFee (fee_split gross true) = gross * 2 / 100 /\
     referralShare (fee_split gross true) = gross * 5 / 1000 /\
     totalFee (fee_split gross false) = gross * 2 / 100) /\
  fee_split 100000 true = mkSplit 2000 500 1500 98000 /\
  fee_split 100000 false = mkSplit 2000 0 2000 98000.
Proof.
  split.
  { intros d o invoiceId inv rest seller rest' Hc Hi Hu Hg run Hrun.
    assert (Hrun' : run = exec_prog (Payout.executePayout invoiceId) o 0 d)
      by (destruct Hrun as [-> | ->]; reflexivity).
    subst run.
    exact (@fee_split_code_path d o invoiceId inv rest seller rest' Hc Hi Hu Hg). }
  split.
  { intros d o token ms rest inv rest1 seller rest2 Hms Hst Hi Hu Hg.
    exact (@fee_split_milestone_path d o token ms rest inv rest1 seller rest2
             Hms Hst Hi Hu Hg). }
  split.
  { intros d o token dsp rest inv rest1 seller rest2 Hd Hst Hi Hu Hg.
    exact (@fee_split_dispute_seller_path d o token dsp rest inv rest1 seller
             rest2 Hd Hst Hi Hu Hg). }
  split; [intros gross; repeat split; reflexivity|].
  split; reflexivity.
Qed.

Lemma payout_paths_fee_split_witness :
  let code := exec_prog (Payout.executePayout 1) world_up 0 sample_db in
  let ms := exec_prog (Payout.post_release_milestone "rel-1") world_up 0 sample_db in
  let dsp := exec_prog (Dispute.post_resolve "adm-3" "seller") world_up 0
                       referred_dispute_db in
  (paid_out_as code sample_db 100000 seller10 1 "INV-1"
     "Fonlok payout for invoice INV-1" "INV-1" /\
   referral_earnings (final_store code) = [mkEarning 1 11 10 "INV-1" 100000 500] /\
   users (final_store code)
     = [seller10; mkUser 11 "Ref" "ref@x.cm" "237600000002" None 5500; seller12]) /\
  (paid_out_as ms sample_db 20000 seller10 2 "INV-2"
     "Fonlok milestone payout: Design (Invoice INV-2)" "milestone-1" /\
   referral_earnings (final_store ms)
     = [mkEarning 1 11 10 "INV-2-ms1" 20000 100] /\
   map u_referral_balance (users (final_store ms)) = [0; 5100; 0]) /\
  (paid_out_as dsp referred_dispute_db 100000 seller12_referred 3 "INV-3"
     "Dispute resolved - payout for invoice INV-3" "INV-3" /\
   withdrawals (events_in dsp)
     = [CampayWithdraw 98000 "237600000004"
          "Dispute resolved - payout for invoice INV-3" "INV-3"] /\
   referral_earnings (final_store dsp) = [mkEarning 1 11 12 "INV-3" 100000 500] /\
   map u_referral_balance (users (final_store dsp)) = [0; 5500; 0]).
Proof.
  intros code ms dsp.
  destruct payout_paths_fee_split as (Hcode & Hms & Hd & _).
  split; [|split].
  - destruct (Hcode sample_db world_up 1 invoice1 [] seller10 []
                eq_refl eq_refl eq_refl (fun n => eq_refl) code
                (or_introl eq_refl)) as (Hpaid & Hcredit & _).
    destruct (Hcredit 11 referrer11 eq_refl eq_refl ltac:(vm_compute; reflexivity)
                eq_refl) as (He & Hfits & _).
    destruct (Hfits eq_refl) as (Hu & _).
    split; [exact Hpaid|]. split; [exact He|exact Hu].
  - destruct (Hms sample_db world_up "rel-1" milestone1 [] invoice2 [] seller10 []
                eq_refl eq_refl eq_refl eq_refl (fun n => eq_refl))
      as (Hpaid & Hcredit).
    destruct (Hcredit 11 referrer11 eq_refl eq_refl ltac:(vm_compute; reflexivity)
                eq_refl) as (He & Hfits & _).
    destruct (Hfits eq_refl) as (Hu & _).
    split; [exact Hpaid|]. split; [exact He|].
    fold ms in Hu. rewrite Hu. reflexivity.
  - destruct (Hd referred_dispute_db world_up "adm-3" dispute3 [] invoice3 []
                seller12_referred []
                eq_refl eq_refl eq_refl eq_refl (fun n => eq_refl))
      as (Hpaid & Hcredit).
    destruct (Hcredit 11 referrer11 eq_refl eq_refl ltac:(vm_compute; reflexivity)
                eq_refl) as (He & Hfits & _).
    destruct (Hfits eq_refl) as (Hu & _).
    split; [exact Hpaid|].
    split; [destruct Hpaid as (_ & Hw & _); exact Hw|].
    split; [exact He|].
    fold dsp in Hu. rewrite Hu. reflexivity.
Defined.

(** ** Dispute resolved for the buyer *)





(** ** Milestone ordering *)





(** ** Confirmation pages *)

(** C8.  GET /verify-payout/:token/:id and GET /release-milestone/:token
    change nothing: whatever the store and the token, every step is a SELECT,
    the store after the request is the store before it, and no withdraw call
    is sent.  The POST of the same link is what claims: on the sample store
    it uses up the confirmation code, or releases the milestone. *)
Theorem confirmation_pages_do_not_mutate (d : db) (o : nat -> input) (n : nat)
  (token id : string) :
  let page := exec_prog (Payout.get_verify_payout token id) o n d in
  let ms_page := exec_prog (Payout.get_release_milestone token) o n d in
  final_store page = d /\ final_store ms_page = d /\
  forallb is_select (events_in page) = true /\
  forallb is_select (events_in ms_page) = true /\
  withdrawals (events_in page) = [] /\ withdrawals (events_in ms_page) = [] /\
  confirmation_codes
    (final_store (exec_prog (Payout.post_verify_payout "tok-1" "1") world_up 0
                            sample_db))
    <> confirmation_codes sample_db /\
  invoice_milestones
    (final_store (exec_prog (Payout.post_release_milestone "rel-1") world_up 0
                            sample_db))
    <> invoice_milestones sample_db.
Proof.
  intros page ms_page. subst page ms_page.
  unfold Payout.get_verify_payout, Payout.get_release_milestone.
  run_prog.
  destruct (filter _ (confirmation_codes d)) as [|c cs];
    destruct (filter _ (invoice_milestones d)) as [|m ms]; run_prog;
    try destruct (c_is_used c); try destruct (String.eqb (m_status m) "released");
    try destruct (negb (String.eqb (m_status m) "completed")); run_prog;
    (repeat split; try reflexivity; intros H; vm_compute in H; discriminate H).
Qed.

(** ** What a rejected release reveals *)

(** C9, as stated, fails: with the same wrong code, an invoice number that
    has no invoice is answered 404 "does not exist" and an existing, paid
    invoice is answered 401 "code incorrect". *)
Lemma release_rejection_reveals_existence :
  outcome_in (exec_prog (Payout.post_release_funds "WRONGCOD" "INV-404")
                        world_up 0 sample_db)
    = Returned (Payout.invoice_does_not_exist "INV-404") /\
  outcome_in (exec_prog (Payout.post_release_funds "WRONGCOD" "INV-1")
                        world_up 0 sample_db)
    = Returned Payout.code_incorrect /\
  res_status (Payout.invoice_does_not_exist "INV-404")
    <> res_status Payout.code_incorrect.
Proof.
  split; [vm_compute; reflexivity|]. split; [vm_compute; reflexivity|].
  simpl. discriminate.
Qed.

(** C9 (amended).  POST /release-funds with a code and an invoice number:
    when no invoice has the number, the answer is 404 "Invoice N does not
    exist."; when the invoice exists, is not completed, is paid and has an
    unused confirmation code that differs from the one sent, the answer is
    the fixed 401 "code incorrect" message.  Both leave the store as it is
    and send no withdraw call; the two answers differ, so the answer tells
    whether the invoice exists. *)
Theorem release_funds_rejections
  d o n0 code invoiceNumber
  (Hcode : truthy code = true) (Hnum : truthy invoiceNumber = true) :
  let run := exec_prog (Payout.post_release_funds code invoiceNumber) o n0 d in
  (filter (fun i => String.eqb (i_invoicenumber i) invoiceNumber) (invoices d) = [] ->
   outcome_in run = Returned (Payout.invoice_does_not_exist invoiceNumber) /\
   final_store run = d /\ withdrawals (events_in run) = []) /\
  (forall inv rest pay rest1 row rest2,
     filter (fun i => String.eqb (i_invoicenumber i) invoiceNumber) (invoices d)
       = inv :: rest ->
     String.eqb (i_status inv) "completed" = false ->
     filter (fun p => p_invoiceid p =? i_id inv) (payments d) = pay :: rest1 ->
     p_status pay = "paid" ->
     filter (fun c => c_code_id c =? i_id inv) (confirmation_codes d)
       = row :: rest2 ->
     c_is_used row = false ->
     String.eqb (c_code row) code = false ->
     outcome_in run = Returned Payout.code_incorrect /\
     final_store run = d /\ withdrawals (events_in run) = []) /\
  res_status Payout.code_incorrect
    <> res_status (Payout.invoice_does_not_exist invoiceNumber).
Proof.
  intros run. subst run. unfold Payout.post_release_funds.
  rewrite Hcode, Hnum. cbn [negb orb].
  split; [|split].
  - intros Hnone. run_known. repeat split; reflexivity.
  - intros inv rest pay rest1 row rest2 Hinv Hst Hpay Hpaid Hrow Hused Hneq.
    run_known. rewrite Hpaid.
    cbn [String.eqb Ascii.eqb Bool.eqb negb]. run_known.
    rewrite Hused. run_known. cbn [negb]. run_known.
    repeat split; reflexivity.
  - simpl. discriminate.
Qed.

Lemma release_funds_rejections_witness :
  outcome_in (exec_prog (Payout.post_release_funds "WRONGCOD" "INV-1")
                        world_up 0 sample_db)
    = Returned Payout.code_incorrect /\
  final_store (exec_prog (Payout.post_release_funds "WRONGCOD" "INV-1")
                         world_up 0 sample_db) = sample_db.
Proof.
  pose proof (@release_funds_rejections sample_db world_up 0%nat "WRONGCOD" "INV-1"
                eq_refl eq_refl) as (_ & H & _).
  specialize (H invoice1 [] (mkPayment 1 1 "uuid-1" 100000 "paid") []
                (mkCode "ABCD2345" 1 "tok-1" 10 1 false) []
                eq_refl eq_refl eq_refl eq_refl eq_refl eq_refl eq_refl).
  destruct H as (H1 & H2 & _). split; assumption.
Defined.

(** ** Payment processing is claimed once per reference *)

Lemma payment_sound cost n :
  sound (mkProtocol String.eqb payment_claim_unit payment_claim_won
                    cost n marker_free any_stmt).
Proof.
  split; simpl.
  - intros u v. apply String.eqb_eq.
  - intros R q u d Hq Hw. destruct q; try discriminate Hq.
    inversion Hq; subst; clear Hq. unfold marker_free. simpl in *.
    destruct (existsb (String.eqb u) (processed_payments d)) eqn:E;
      simpl in *; [discriminate Hw|].
    split; [reflexivity|].
    rewrite existsb_app. simpl. rewrite String.eqb_refl, orb_true_r. reflexivity.
  - intros R q d u _ Hu. unfold marker_free in *.
    destruct q; simpl in *; repeat break_if; simpl; try exact Hu.
    rewrite existsb_app. apply negb_false_iff in Hu. rewrite Hu. reflexivity.
Qed.

Lemma paid_protocol_sound : sound paid_protocol.
Proof. apply payment_sound. Qed.

Lemma mint_protocol_sound : sound mint_protocol.
Proof. apply payment_sound. Qed.

(** The minting loop sets no invoice to 'paid' ... *)
Lemma mint_follows_paid {A} (L : outcome A -> Prop) fuel invoiceId idUser n
  (k : string * string -> prog A) :
  (forall x, follows paid_protocol L (Won n) (k x)) ->
  follows paid_protocol L (Won n)
          (bind (Payments.mintConfirmation fuel invoiceId idUser) k).
Proof.
  intros Hk. induction fuel as [|fuel IH]; simpl.
  - apply follows_Spin. discriminate.
  - unfold random_string, query. cbn [bind].
    eapply follows_Random; [intros ?; reflexivity | intros code].
    eapply follows_Random; [intros ?; reflexivity | intros token].
    eapply follows_Query; [reflexivity | intros ?; reflexivity | intros err].
    destruct err as [c|]; cbn [bind]; [|apply Hk].
    destruct (String.eqb c "23505"); [exact IH|].
    cbn [bind]. apply follows_Throw. discriminate.
Qed.

(** ... and inserts a pair without error at most once: the loop ends there. *)
Lemma mint_follows_mint {A} (L : outcome A -> Prop) fuel invoiceId idUser
  (k : string * string -> prog A) :
  (forall x, follows mint_protocol L (Won 0) (k x)) ->
  follows mint_protocol L (Won 1)
          (bind (Payments.mintConfirmation fuel invoiceId idUser) k).
Proof.
  intros Hk. induction fuel as [|fuel IH]; simpl.
  - apply follows_Spin. discriminate.
  - unfold random_string, query. cbn [bind].
    eapply follows_Random; [intros ?; reflexivity | intros code].
    eapply follows_Random; [intros ?; reflexivity | intros token].
    eapply follows_Query with
      (next := fun err => match err with Some _ => Won 1 | None => Won 0 end);
      [reflexivity | intros [c|]; reflexivity | intros err].
    destruct err as [c|]; cbn [bind]; [|apply Hk].
    destruct (String.eqb c "23505"); [exact IH|].
    cbn [bind]. apply follows_Throw. discriminate.
Qed.

Lemma processSuccessfulPayment_follows_paid fuel ref :
  follows paid_protocol payment_abort Pre
          (Payments.processSuccessfulPayment fuel ref).
Proof.
  unfold Payments.processSuccessfulPayment.
  follows_with payment_abort_tac.
  all: apply mint_follows_paid; intros minted; follows_with payment_abort_tac.
Qed.

Lemma processSuccessfulPayment_follows_mint fuel ref :
  follows mint_protocol payment_abort Pre
          (Payments.processSuccessfulPayment fuel ref).
Proof.
  unfold Payments.processSuccessfulPayment.
  follows_with payment_abort_tac.
  all: apply mint_follows_mint; intros minted; follows_with payment_abort_tac.
Qed.


Lemma psp_marked fuel ref o n d :
  marker_free d ref = false ->
  exec_prog (Payments.processSuccessfulPayment fuel ref) o n d
    = (d, [EvQuery (InsertProcessedPayment ref) 0%nat], Returned "already_done").
Proof.
  unfold marker_free. intros H. apply negb_false_iff in H.
  unfold Payments.processSuccessfulPayment. run_prog. rewrite H. reflexivity.
Qed.





Lemma is_act_paid e : is_act paid_protocol e = is_paid_transition e.
Proof.
  unfold is_act, is_claim. destruct e as [R q r|c b|s|n]; simpl;
    rewrite ?andb_true_r; try reflexivity.
  destruct q; simpl; rewrite ?andb_true_r, ?andb_false_r; reflexivity.
Qed.

Lemma is_act_mint e : is_act mint_protocol e = is_code_minted e.
Proof.
  unfold is_act, is_claim. destruct e as [R q r|c b|s|n]; simpl;
    rewrite ?andb_true_r; try reflexivity.
  destruct q; simpl; rewrite ?andb_true_r, ?andb_false_r; reflexivity.
Qed.



(** ** The referral credit is claimed once per key *)

Lemma credit_protocol_sound : sound credit_protocol.
Proof.
  split; simpl.
  - intros u v. apply String.eqb_eq.
  - intros R q u d Hq Hw. destruct q; try discriminate Hq.
    inversion Hq; subst; clear Hq. unfold key_free. simpl in *.
    destruct (existsb _ (referral_earnings d)) eqn:E; simpl in *; [discriminate Hw|].
    split; [reflexivity|].
    rewrite existsb_app. simpl. rewrite String.eqb_refl, orb_true_r. reflexivity.
  - intros R q d u _ Hu. unfold key_free in *.
    destruct q; simpl in *; repeat break_if; simpl; try exact Hu.
    rewrite existsb_app. apply negb_false_iff in Hu. rewrite Hu. reflexivity.
Qed.

Lemma creditReferral_follows referrerId sellerId key grossAmount referralEarning :
  follows credit_protocol credit_abort Pre
          (creditReferral referrerId sellerId key grossAmount referralEarning).
Proof.
  unfold creditReferral.
  follows_with ltac:(unfold credit_abort; reflexivity).
Qed.

Lemma is_act_credit e : is_act credit_protocol e = is_credit e.
Proof.
  unfold is_act, is_claim. destruct e as [R q r|c b|s|n]; simpl;
    rewrite ?andb_true_r; try reflexivity.
  destruct q; simpl; rewrite ?andb_true_r, ?andb_false_r; reflexivity.
Qed.

(** The key is recorded already: the step only attempts the insert. *)
Lemma credit_recorded r s key g e o n d :
  key_free d key = false ->
  exec_prog (creditReferral r s key g e) o n d
    = (d, [EvQuery (InsertReferralEarning r s key g e) []], Returned tt).
Proof.
  unfold key_free. intros H. apply negb_false_iff in H.
  unfold creditReferral. run_prog. rewrite H. reflexivity.
Qed.

(** The key is new and the share fits the balance of the referrer: the
    earning is recorded and the balance updated. *)
Lemma credit_new r s key g e o n d referrer :
  key_free d key = true ->
  filter (fun u => u_id u =? r) (users d) = [referrer] ->
  credit_fits e referrer = true ->
  exists d1 id,
    exec_prog (creditReferral r s key g e) o n d
      = (d1, [EvQuery (InsertReferralEarning r s key g e) [id];
              EvQuery (CreditReferralBalance e r) None], Returned tt) /\
    users d1 = credited_once r e (users d) /\
    referral_earnings d1 = referral_earnings d ++ [mkEarning id r s key g e] /\
    key_free d1 key = false.
Proof.
  unfold key_free. intros H Href Hfit. apply negb_true_iff in H.
  unfold creditReferral. run_prog. rewrite H. run_prog.
  rewrite (@credit_fits_row _ _ _ _ Href), Hfit. run_prog.
  do 2 eexists. split; [reflexivity|]. split; [reflexivity|].
  split; [reflexivity|].
  simpl. rewrite existsb_app. simpl. rewrite String.eqb_refl, orb_true_r. reflexivity.
Qed.

(** The key is new and the share does not fit: the earning is recorded, the
    balance update fails, the error is caught. *)
Lemma credit_overflow r s key g e o n d referrer :
  key_free d key = true ->
  filter (fun u => u_id u =? r) (users d) = [referrer] ->
  credit_fits e referrer = false ->
  exists d1 id,
    exec_prog (creditReferral r s key g e) o n d
      = (d1, [EvQuery (InsertReferralEarning r s key g e) [id];
              EvQuery (CreditReferralBalance e r) (Some "22003")], Returned tt) /\
    users d1 = users d /\
    referral_earnings d1 = referral_earnings d ++ [mkEarning id r s key g e] /\
    key_free d1 key = false.
Proof.
  unfold key_free. intros H Href Hfit. apply negb_true_iff in H.
  unfold creditReferral. run_prog. rewrite H. run_prog.
  rewrite (@credit_fits_row _ _ _ _ Href), Hfit. run_prog.
  do 2 eexists. split; [reflexivity|]. split; [reflexivity|].
  split; [reflexivity|].
  simpl. rewrite existsb_app. simpl. rewrite String.eqb_refl, orb_true_r. reflexivity.
Qed.

Lemma credit_race r s key g e d N sch referrer :
  key_free d key = true ->
  filter (fun u => u_id u =? r) (users d) = [referrer] ->
  credit_fits e referrer = true ->
  (0 < N)%nat ->
  let sy := run_sched sch (start d (repeat (creditReferral r s key g e) N)) in
  all_finished sy = true ->
  users (store sy) = credited_once r e (users d) /\
  count (fun te => is_credited (snd te)) (trace sy) = 1%nat.
Proof.
  intros Hfree Href Hfit HN. cbv zeta. set (sy := run_sched sch _). intros Hfin.
  pose proof (creditReferral_follows r s key g e) as Hf.
  unfold creditReferral, query_or_throw, query in Hf. cbn [bind catch] in Hf.
  assert (Hclaimed : forall d0,
    claimable credit_protocol (fst (exec (InsertReferralEarning r s key g e) d0)) key
      = false).
  { intros d0. simpl. unfold key_free.
    destruct (existsb _ (referral_earnings d0)) eqn:E; simpl.
    - rewrite E. reflexivity.
    - rewrite existsb_app. simpl. rewrite String.eqb_refl, orb_true_r. reflexivity. }
  assert (Hlost : forall d0, claimable credit_protocol d0 key = false ->
    fst (exec (InsertReferralEarning r s key g e) d0) = d0 /\
    claim_won credit_protocol (InsertReferralEarning r s key g e)
              (snd (exec (InsertReferralEarning r s key g e) d0)) = false).
  { intros d0 H. simpl in *. unfold key_free in H. apply negb_false_iff in H.
    rewrite H. split; reflexivity. }
  destruct (race_finished credit_protocol_sound Hf eq_refl Hclaimed Hlost d sch HN Hfin)
    as (w & ins & out & Hw & Hns & Hex & _ & _ & Hcount).
  destruct (@credit_new r s key g e (oracle_of ins) 0%nat d referrer Hfree Href Hfit)
    as (d1 & id & Hex' & Hu & _).
  unfold creditReferral, query_or_throw, query in Hex'. cbn [bind catch] in Hex'.
  rewrite Hex in Hex'. inversion Hex' as [[Hd He Ho]].
  subst sy. split; [transitivity (users d1); [f_equal; exact Hd|exact Hu]|].
  etransitivity; [apply (Hcount is_credited); reflexivity|].
  rewrite He. reflexivity.
Qed.

(** C6 (as the code has it).  Runs of the referral-credit step, interleaved
    in any way: for each key (invoice number, or invoice number and
    milestone) at most one run's insert returns a row, only that run issues
    the balance update, once, and a run whose insert returned no row made no
    further step.  With the key recorded already, the step attempts the
    insert and changes nothing.  With a new key and a referrer whose balance
    the share fits (the sum stays within INTEGER), the step twice in
    sequence, or any number of concurrent duplicates once all have finished,
    leave the referrer's balance increased by the share exactly once.  When
    the share does not fit, the earning is recorded all the same, the balance
    update fails and is caught, and no balance changes: the balance is
    raised zero times, also by the second run. *)
Theorem referral_credited_once
  (d : db) (referrerId sellerId : Z) (key : string)
  (grossAmount referralShare : Z) :
  let step := creditReferral referrerId sellerId key grossAmount referralShare in
  (* every interleaving of credit steps *)
  (forall steps sch,
     Forall credit_step steps ->
     safe_outcome credit_protocol credit_abort (run_sched sch (start d steps))) /\
  (forall e, is_act credit_protocol e = is_credit e) /\
  (* conflict: no row returned, no balance update *)
  (forall o n,
     key_free d key = false ->
     exec_prog step o n d
       = (d, [EvQuery (InsertReferralEarning referrerId sellerId key grossAmount
                                             referralShare) []],
          Returned tt)) /\
  (* a new key, the referrer and the seller being users *)
  (forall referrer,
     key_free d key = true ->
     filter (fun u => u_id u =? referrerId) (users d) = [referrer] ->
     existsb (fun u => u_id u =? sellerId) (users d) = true ->
     (* twice in sequence, the share fits *)
     (credit_fits referralShare referrer = true ->
      forall o n o' m,
        let run1 := exec_prog step o n d in
        let run2 := exec_prog step o' m (final_store run1) in
        users (final_store run2) = credited_once referrerId referralShare (users d) /\
        map u_referral_balance
            (filter (fun u => u_id u =? referrerId) (users (final_store run2)))
          = [u_referral_balance referrer + referralShare] /\
        count is_credited (events_in run1 ++ events_in run2) = 1%nat /\
        count is_credit (events_in run1 ++ events_in run2) = 1%nat /\
        key_free (final_store run2) key = false) /\
     (* concurrent duplicates, the share fits *)
     (credit_fits referralShare referrer = true ->
      forall N sch,
        (0 < N)%nat ->
        let s := run_sched sch (start d (repeat step N)) in
        all_finished s = true ->
        users (store s) = credited_once referrerId referralShare (users d) /\
        map u_referral_balance
            (filter (fun u => u_id u =? referrerId) (users (store s)))
          = [u_referral_balance referrer + referralShare] /\
        count (fun te => is_credited (snd te)) (trace s) = 1%nat) /\
     (* twice in sequence, the share does not fit *)
     (credit_fits referralShare referrer = false ->
      forall o n o' m,
        let run1 := exec_prog step o n d in
        let run2 := exec_prog step o' m (final_store run1) in
        outcome_in run1 = Returned tt /\
        users (final_store run2) = users d /\
        count is_credited (events_in run1 ++ events_in run2) = 0%nat /\
        key_free (final_store run2) key = false)).
Proof.
  intros step. split.
  { intros steps sch Hsteps. apply discipline_safe; [apply credit_protocol_sound|].
    eapply Forall_impl; [|exact Hsteps].
    intros p (r & s & k & g & e & ->). apply creditReferral_follows. }
  split; [apply is_act_credit|].
  split; [intros o n H; apply credit_recorded; exact H|].
  intros referrer Hfree Href _. split; [|split].
  - intros Hfit o n o' m run1 run2. subst run1 run2 step.
    destruct (@credit_new referrerId sellerId key grossAmount referralShare o n d
                referrer Hfree Href Hfit) as (d1 & id & Hex & Hu & _ & Hk).
    rewrite Hex. unfold final_store, events_in. cbn [fst snd].
    rewrite (@credit_recorded referrerId sellerId key grossAmount referralShare
               o' m d1 Hk).
    cbn [fst snd].
    split; [exact Hu|]. split; [rewrite Hu; apply credited_once_balance; exact Href|].
    split; [reflexivity|]. split; [reflexivity|exact Hk].
  - intros Hfit N sch HN s Hfin.
    destruct (@credit_race referrerId sellerId key grossAmount referralShare d N sch
                referrer Hfree Href Hfit HN Hfin) as [Hu Hc].
    split; [exact Hu|]. split; [|exact Hc].
    subst s step. rewrite Hu. apply credited_once_balance. exact Href.
  - intros Hfit o n o' m run1 run2. subst run1 run2 step.
    destruct (@credit_overflow referrerId sellerId key grossAmount referralShare o n d
                referrer Hfree Href Hfit) as (d1 & id & Hex & Hu & _ & Hk).
    rewrite Hex. unfold final_store, events_in, outcome_in. cbn [fst snd].
    rewrite (@credit_recorded referrerId sellerId key grossAmount referralShare
               o' m d1 Hk).
    cbn [fst snd].
    split; [reflexivity|]. split; [exact Hu|]. split; [reflexivity|exact Hk].
Qed.

Lemma referral_credited_once_witness :
  let step := creditReferral 11 10 "INV-1" 100000 500 in
  Forall credit_step (repeat step 3) /\
  key_free sample_db "INV-1" = true /\
  (let s := run_sched credit_schedule (start sample_db (repeat step 3)) in
   safe_outcome credit_protocol credit_abort s /\
   all_finished s = true /\
   users (store s) = [seller10; mkUser 11 "Ref" "ref@x.cm" "237600000002" None 5500;
                      seller12] /\
   count (fun te => is_credited (snd te)) (trace s) = 1%nat) /\
  (let run1 := exec_prog step world_up 0 sample_db in
   let run2 := exec_prog step world_up 0 (final_store run1) in
   map u_referral_balance (users (final_store run2)) = [0; 5500; 0] /\
   count is_credited (events_in run1 ++ events_in run2) = 1%nat).
Proof.
  intros step.
  assert (H : Forall credit_step (repeat step 3)).
  { repeat (apply Forall_cons || apply Forall_nil);
      exists 11, 10, "INV-1", 100000, 500; reflexivity. }
  pose proof (referral_credited_once sample_db 11 10 "INV-1" 100000 500) as T.
  cbv zeta in T. destruct T as (Hsafe & _ & _ & Hnew).
  destruct (Hnew referrer11 eq_refl eq_refl eq_refl) as (Hseq & Hrace & _).
  split; [exact H|]. split; [reflexivity|].
  split.
  { split; [apply Hsafe; exact H|].
    assert (Hfin : all_finished (run_sched credit_schedule
              (start sample_db (repeat step 3))) = true) by (vm_compute; reflexivity).
    split; [exact Hfin|].
    destruct (Hrace eq_refl 3%nat credit_schedule ltac:(lia) Hfin) as (Hu & _ & Hc).
    split; [exact Hu|exact Hc]. }
  destruct (Hseq eq_refl world_up 0%nat world_up 0%nat) as (Hu & _ & Hc & _).
  split; [|exact Hc].
  fold step in Hu. rewrite Hu. reflexivity.
Defined.

(** C6, the case the claim leaves out.  User 11 holds 2,147,483,600 XAF of
    referral balance, 47 below the top of INTEGER.  The credit step for
    INV-1 (500 XAF) records the earning; its balance update fails (22003)
    and the error is caught, so the step ends normally with every balance as
    it was.  The second run finds the key recorded and does nothing: the
    balance is raised zero times, not once. *)
Lemma referral_credit_lost_on_overflow :
  let step := creditReferral 11 10 "INV-1" 100000 500 in
  let run1 := exec_prog step world_up 0 full_balance_db in
  let run2 := exec_prog step world_up 0 (final_store run1) in
  key_free full_balance_db "INV-1" = true /\
  run1 = (with_referral_earnings
            (fun _ => [mkEarning 1 11 10 "INV-1" 100000 500]) full_balance_db,
          [EvQuery (InsertReferralEarning 11 10 "INV-1" 100000 500) [1];
           EvQuery (CreditReferralBalance 500 11) (Some "22003")],
          Returned tt) /\
  run2 = (final_store run1,
          [EvQuery (InsertReferralEarning 11 10 "INV-1" 100000 500) []],
          Returned tt) /\
  map u_referral_balance (users (final_store run2)) = [0; 2147483600; 0] /\
  users (final_store run2)
    <> credited_once 11 500 (users full_balance_db).
Proof.
  intros step run1 run2.
  split; [reflexivity|]. split; [reflexivity|]. split; [reflexivity|].
  split; [reflexivity|]. vm_compute. discriminate.
Qed.

(** ** Dispute resolution: the status is read, not claimed *)

(** C4 (the code diverges).  The resolve handler reads the dispute, compares
    its status with 'open' in the handler, sends the transfer, and only then
    sets the status, with an update keyed on the admin token alone.  In
    sequence the second request is refused.  But two requests that move in
    turn both read 'open': both send a transfer and both record a payout;
    with opposite decisions the seller is paid and the buyer refunded. *)
Theorem dispute_resolve_not_claimed :
  (* the update that resolves is keyed on the token, not on the status *)
  (forall d status,
     disputes (fst (exec (UpdateDisputeStatus "resolved_seller" "adm-3")
                         (with_disputes
                            (fun _ => [set_dispute_status status dispute3]) d)))
       = [set_dispute_status "resolved_seller" dispute3]) /\
  (* in sequence: refused *)
  (let d1 := final_store (exec_prog (Dispute.post_resolve "adm-3" "seller")
                                    world_up 0 sample_db) in
   exec_prog (Dispute.post_resolve "adm-3" "seller") world_up 0 d1
     = (d1, [EvQuery (SelectDisputesByAdminToken "adm-3")
                     [set_dispute_status "resolved_seller" dispute3]],
        Returned (mkResp 400 "This dispute has already been resolved."))) /\
  (* two requests to release, in turn *)
  (let s := run_sched (turn_by_turn 20)
                      (start sample_db (resolve_requests "seller" "seller")) in
   statuses s = [Some 200; Some 200] /\
   sys_withdrawals s
     = [CampayWithdraw 98000 "237600000004"
          "Dispute resolved - payout for invoice INV-3" "INV-3";
        CampayWithdraw 98000 "237600000004"
          "Dispute resolved - payout for invoice INV-3" "INV-3"] /\
   List.length (payouts (store s)) = 2%nat) /\
  (* one to release and one to refund, in turn *)
  (let s := run_sched (turn_by_turn 20)
                      (start sample_db (resolve_requests "seller" "buyer")) in
   statuses s = [Some 200; Some 200] /\
   sys_withdrawals s
     = [CampayWithdraw 98000 "237600000003"
          "Dispute refund for invoice INV-3" "refund-INV-3";
        CampayWithdraw 98000 "237600000004"
          "Dispute resolved - payout for invoice INV-3" "INV-3"] /\
   List.length (payouts (store s)) = 2%nat).
Proof.
  split; [intros d status; reflexivity|].
  split; [vm_compute; reflexivity|].
  split; vm_compute; repeat split; reflexivity.
Qed.

(** ** Referral withdrawal: the deduction and the pending row are two steps *)

Lemma deduct_nonneg amount id d :
  balances_nonneg d = true ->
  balances_nonneg (fst (exec (DeductReferralBalance amount id) d)) = true.
Proof.
  unfold balances_nonneg. simpl. unfold update_where. intros H.
  rewrite forallb_forall in *. intros u Hu. apply in_map_iff in Hu.
  destruct Hu as (u0 & <- & Hin). specialize (H u0 Hin).
  destruct (can_deduct amount id (referral_withdrawals d) u0) eqn:E; [|exact H].
  unfold can_deduct in E. apply andb_true_iff in E. destruct E as [E _].
  apply andb_true_iff in E. destruct E as [_ E]. apply Z.leb_le in E.
  simpl. apply Z.leb_le. lia.
Qed.

Lemma deduct_refused amount id d :
  pending_withdrawals id d <> [] ->
  snd (exec (DeductReferralBalance amount id) d) = [] /\
  users (fst (exec (DeductReferralBalance amount id) d)) = users d.
Proof.
  unfold pending_withdrawals. intros H.
  assert (E : existsb (is_pending_of id) (referral_withdrawals d) = true).
  { destruct (filter (is_pending_of id) (referral_withdrawals d)) as [|w ws] eqn:F;
      [congruence|].
    assert (Hin : In w (filter (is_pending_of id) (referral_withdrawals d)))
      by (rewrite F; left; reflexivity).
    apply filter_In in Hin. apply existsb_exists. exists w. exact Hin. }
  assert (Hok : forall u, can_deduct amount id (referral_withdrawals d) u = false).
  { intros u. unfold can_deduct. rewrite E. simpl. apply andb_false_r. }
  assert (Hm : map (fun x => if can_deduct amount id (referral_withdrawals d) x
                             then add_balance (- amount) x else x) (users d)
               = map (fun u => u) (users d)).
  { apply map_ext. intros u. rewrite Hok. reflexivity. }
  assert (Hf : filter (can_deduct amount id (referral_withdrawals d)) (users d) = []).
  { clear Hm. induction (users d) as [|u l IH]; simpl; [reflexivity|].
    rewrite Hok. exact IH. }
  simpl. rewrite Hf. split; [reflexivity|].
  destruct d; simpl in *. unfold update_where. rewrite Hm. apply map_id.
Qed.

(** C10 (the code diverges).  The deduction is one conditional update: it
    leaves no balance negative, and affects no row while the user has a
    pending withdrawal.  When the gateway refuses the transfer, the amount is
    added back and the withdrawal is marked 'failed'.  But the pending row is
    inserted by a later statement: two requests of a user whose balance
    covers both, moving in turn, both pass the deduction before either has
    inserted its row, so the user has two pending withdrawals, and both are
    sent to the gateway. *)
Theorem withdraw_pending_not_exclusive :
  (* the conditional update *)
  (forall d amount userId,
     balances_nonneg d = true ->
     balances_nonneg (fst (exec (DeductReferralBalance amount userId) d)) = true) /\
  (forall d amount userId,
     pending_withdrawals userId d <> [] ->
     snd (exec (DeductReferralBalance amount userId) d) = [] /\
     users (fst (exec (DeductReferralBalance amount userId) d)) = users d) /\
  (* the gateway refuses *)
  (let r := exec_prog (Referral.post_withdraw 11 2000 "237600000002")
                      world_down 0 sample_db in
   res_status_of (outcome_in r) = Some 502 /\
   balance_of 11 (final_store r) = balance_of 11 sample_db /\
   map w_status (referral_withdrawals (final_store r)) = ["failed"] /\
   pending_withdrawals 11 (final_store r) = []) /\
  (* two requests in turn *)
  (let s := run_sched (turn_by_turn 2) (start sample_db withdraw_requests) in
   List.length (pending_withdrawals 11 (store s)) = 2%nat /\
   balance_of 11 (store s) = [1000]) /\
  (let s := run_sched (turn_by_turn 10) (start sample_db withdraw_requests) in
   statuses s = [Some 200; Some 200] /\
   sys_withdrawals s
     = [CampayWithdraw 2000 "237600000002" "Referral earnings withdrawal"
                       "ref-withdrawal-1";
        CampayWithdraw 2000 "237600000002" "Referral earnings withdrawal"
                       "ref-withdrawal-2"]).
Proof.
  split; [intros d amount userId; apply deduct_nonneg|].
  split.
  { intros d amount userId H. apply deduct_refused. exact H. }
  split; [vm_compute; repeat split; reflexivity|].
  split; vm_compute; repeat split; reflexivity.
Qed.

Lemma withdraw_pending_not_exclusive_witness :
  balances_nonneg sample_db = true /\
  balances_nonneg (fst (exec (DeductReferralBalance 2000 11) sample_db)) = true /\
  (let d := fst (exec (InsertWithdrawal 11 2000 "237600000002") sample_db) in
   pending_withdrawals 11 d <> [] /\
   snd (exec (DeductReferralBalance 2000 11) d) = []).
Proof.
  destruct withdraw_pending_not_exclusive as (Hn & Hr & _).
  split; [reflexivity|]. split; [apply Hn; reflexivity|].
  assert (Hp : pending_withdrawals 11
                 (fst (exec (InsertWithdrawal 11 2000 "237600000002") sample_db))
               <> []) by (vm_compute; discriminate).
  split; [exact Hp|]. apply (Hr _ 2000 11 Hp).
Defined.

(** * Further properties of the routes *)

(** ** Releases: failure, refusal, completion *)

Ltac payment_rows :=
  match goal with
  | H : negb match filter ?p (payments ?d) with [] => false | _ :: _ => _ end = false
    |- _ =>
      destruct (filter p (payments d)) eqn:?; [discriminate H|];
      apply negb_false_iff in H
  end.

Lemma release_failed_store d o n0 code n d1 evs :
  exec_prog (Payout.post_release_funds code n) o n0 d
    = (d1, evs, Returned Payout.payout_error) ->
  negb (truthy code) || negb (truthy n) = false /\
  exists inv rest pay rest1 row rest2,
    filter (fun i => String.eqb (i_invoicenumber i) n) (invoices d) = inv :: rest /\
    String.eqb (i_status inv) "completed" = false /\
    filter (fun p => p_invoiceid p =? i_id inv) (payments d) = pay :: rest1 /\
    String.eqb (p_status pay) "paid" = true /\
    filter (fun c => c_code_id c =? i_id inv) (confirmation_codes d) = row :: rest2 /\
    c_is_used row = false /\
    d1 = with_confirmation_codes (update_where (code_unclaimed (i_id inv)) set_used) d.
Proof.
  unfold Payout.post_release_funds, Payout.executePayout.
  run_all; intros H; try discriminate H.
  all: inversion H; subst; clear H.
  all: payment_rows.
  all: split; [reflexivity|]; do 6 eexists.
  all: repeat (split; [first [reflexivity | eassumption]|]).
  all: reflexivity.
Qed.

Lemma used_after_claim id row rest l :
  filter (fun c => c_code_id c =? id) l = row :: rest ->
  filter (fun c => c_code_id c =? id) (update_where (code_unclaimed id) set_used l)
    = (if c_is_used row then row else set_used row)
      :: update_where (code_unclaimed id) set_used rest.
Proof.
  intros H. rewrite filter_update_where by reflexivity. rewrite H.
  cbn [update_where map]. unfold code_unclaimed at 1.
  destruct (In_filter_head _ _ H) as [_ Hid]. rewrite Hid.
  destruct (c_is_used row); reflexivity.
Qed.

Lemma unclaimable_after_claim id l :
  existsb (code_unclaimed id) (update_where (code_unclaimed id) set_used l) = false.
Proof.
  unfold update_where. induction l as [|c l IH]; simpl; [reflexivity|].
  rewrite IH, orb_false_r.
  destruct (code_unclaimed id c) eqn:E; [|exact E].
  unfold code_unclaimed. simpl. apply andb_false_r.
Qed.

Lemma link_failed_store d o n0 tok id d1 evs :
  exec_prog (Payout.post_verify_payout tok id) o n0 d
    = (d1, evs, Returned Payout.system_error) ->
  exists row rest,
    filter (fun c => String.eqb (c_verification_token c) tok)
           (confirmation_codes d) = row :: rest /\
    c_is_used row = false /\
    d1 = with_confirmation_codes
           (update_where (code_unclaimed (c_code_id row)) set_used) d.
Proof.
  unfold Payout.post_verify_payout, Payout.executePayoutLink.
  run_all; intros H; try discriminate H.
  all: inversion H; subst; clear H.
  all: do 2 eexists; split; [reflexivity|]; split; [assumption|reflexivity].
Qed.

(** X1.  POST /release-funds and POST /verify-payout claim the confirmation
    code before they transfer.  When either route answers with its generic
    error (the gateway refused, or the invoice or the seller was missing after
    the claim), the code is used up all the same, while no payout is recorded
    and no invoice, user or referral row is changed; asking again with the
    same credential is refused as already paid out (the code route) or as an
    expired link, with no call to the gateway. *)
Theorem failed_transfer_keeps_claim (d : db) (o : nat -> input) (n0 : nat) :
  (forall code invoiceNumber d1 evs,
     exec_prog (Payout.post_release_funds code invoiceNumber) o n0 d
       = (d1, evs, Returned Payout.payout_error) ->
     (exists inv rest,
        filter (fun i => String.eqb (i_invoicenumber i) invoiceNumber) (invoices d)
          = inv :: rest /\
        d1 = with_confirmation_codes
               (update_where (code_unclaimed (i_id inv)) set_used) d /\
        settle_claimable d1 (CodeUnit (i_id inv)) = false) /\
     payouts d1 = payouts d /\ invoices d1 = invoices d /\
     users d1 = users d /\ referral_earnings d1 = referral_earnings d /\
     forall o' m, exists evs',
       exec_prog (Payout.post_release_funds code invoiceNumber) o' m d1
         = (d1, evs', Returned (Payout.already_paid_out invoiceNumber)) /\
       withdrawals evs' = []) /\
  (forall token id d1 evs,
     exec_prog (Payout.post_verify_payout token id) o n0 d
       = (d1, evs, Returned Payout.system_error) ->
     (exists row rest,
        filter (fun c => String.eqb (c_verification_token c) token)
               (confirmation_codes d) = row :: rest /\
        d1 = with_confirmation_codes
               (update_where (code_unclaimed (c_code_id row)) set_used) d /\
        settle_claimable d1 (CodeUnit (c_code_id row)) = false) /\
     payouts d1 = payouts d /\ invoices d1 = invoices d /\
     users d1 = users d /\ referral_earnings d1 = referral_earnings d /\
     forall o' m, exists evs',
       exec_prog (Payout.post_verify_payout token id) o' m d1
         = (d1, evs', Returned Payout.link_expired) /\
       withdrawals evs' = []).
Proof.
  split.
  - intros code n d1 evs H. apply release_failed_store in H.
    destruct H as (Hc & inv & rest & pay & rest1 & row & rest2
                   & Hi & Hst & Hp & Hpaid & Hrow & Hused & ->).
    split.
    { exists inv, rest. split; [exact Hi|]. split; [reflexivity|].
      apply unclaimable_after_claim. }
    repeat (split; [reflexivity|]).
    intros o' m. unfold Payout.post_release_funds. rewrite Hc. run_prog.
    rewrite Hi. run_prog. rewrite Hst. run_prog. rewrite Hp. run_prog.
    rewrite Hpaid. cbn [negb]. run_prog.
    rewrite (used_after_claim _ _ Hrow), Hused. run_prog.
    cbn [set_used c_is_used]. eexists; split; reflexivity.
  - intros tok id d1 evs H. apply link_failed_store in H.
    destruct H as (row & rest & Hrow & Hused & ->).
    split.
    { exists row, rest. split; [exact Hrow|]. split; [reflexivity|].
      apply unclaimable_after_claim. }
    repeat (split; [reflexivity|]).
    intros o' m. unfold Payout.post_verify_payout. run_prog.
    rewrite filter_update_where by reflexivity. rewrite Hrow.
    cbn [update_where map]. unfold code_unclaimed at 1.
    rewrite Z.eqb_refl, Hused. cbn [negb andb set_used c_is_used]. run_prog.
    eexists; split; reflexivity.
Qed.

Lemma failed_transfer_keeps_claim_witness :
  let run := exec_prog (Payout.post_release_funds "ABCD2345" "INV-1")
                       world_down 0 sample_db in
  let run' := exec_prog (Payout.post_verify_payout "tok-3" "3")
                        world_down 0 sample_db in
  outcome_in run = Returned Payout.payout_error /\
  outcome_in run' = Returned Payout.system_error /\
  payouts (final_store run) = [] /\
  settle_claimable (final_store run) (CodeUnit 1) = false /\
  (exists evs',
     exec_prog (Payout.post_release_funds "ABCD2345" "INV-1") world_up 0
               (final_store run)
       = (final_store run, evs', Returned (Payout.already_paid_out "INV-1")) /\
     withdrawals evs' = []) /\
  (exists evs',
     exec_prog (Payout.post_verify_payout "tok-3" "3") world_up 0 (final_store run')
       = (final_store run', evs', Returned Payout.link_expired) /\
     withdrawals evs' = []).
Proof.
  intros run run'.
  assert (H : exec_prog (Payout.post_release_funds "ABCD2345" "INV-1")
                        world_down 0 sample_db
              = (final_store run, events_in run, Returned Payout.payout_error))
    by (vm_compute; reflexivity).
  assert (H' : exec_prog (Payout.post_verify_payout "tok-3" "3")
                         world_down 0 sample_db
               = (final_store run', events_in run', Returned Payout.system_error))
    by (vm_compute; reflexivity).
  destruct (failed_transfer_keeps_claim sample_db world_down 0) as [T T'].
  destruct (T _ _ _ _ H) as (_ & _ & _ & _ & _ & Hretry).
  destruct (T' _ _ _ _ H') as (_ & _ & _ & _ & _ & Hretry').
  split; [vm_compute; reflexivity|]. split; [vm_compute; reflexivity|].
  split; [vm_compute; reflexivity|]. split; [vm_compute; reflexivity|].
  split; [apply Hretry|apply Hretry'].
Defined.
Lemma milestone_failed_store d o n0 tok d1 evs :
  exec_prog (Payout.post_release_milestone tok) o n0 d
    = (d1, evs, Returned Payout.ms_error) ->
  exists ms rest,
    filter (fun m => token_is (m_release_token m) tok) (invoice_milestones d)
      = ms :: rest /\
    String.eqb (m_status ms) "completed" = true /\
    d1 = with_invoice_milestones
           (update_where (milestone_claimable (m_id ms))
                         (set_milestone "released" None)) d.
Proof.
  unfold Payout.post_release_milestone.
  run_all; intros H; inversion H; subst; clear H.
  all: do 2 eexists; split; [reflexivity|]; split;
    [apply negb_false_iff; assumption|reflexivity].
Qed.

(** X2.  POST /release-milestone/:token claims the milestone before it
    transfers.  When the route answers with its error page, the milestone is
    'released' and its token cleared all the same, while no payout is recorded
    and no invoice, user or referral row is changed.  The token being unique,
    the link then answers 404 "Invalid Link", and the seller cannot mark the
    milestone complete again: it is no longer 'pending'. *)
Theorem failed_milestone_transfer_keeps_claim
  (d : db) (o : nat -> input) (n0 : nat) (token : string) (d1 : db)
  (evs : list event)
  (Hrun : exec_prog (Payout.post_release_milestone token) o n0 d
          = (d1, evs, Returned Payout.ms_error)) :
  exists ms rest,
    filter (fun m => token_is (m_release_token m) token) (invoice_milestones d)
      = ms :: rest /\
    d1 = with_invoice_milestones
           (update_where (milestone_claimable (m_id ms))
                         (set_milestone "released" None)) d /\
    payouts d1 = payouts d /\ invoices d1 = invoices d /\
    users d1 = users d /\ referral_earnings d1 = referral_earnings d /\
    (rest = [] ->
     forall o' m, exists evs',
       exec_prog (Payout.post_release_milestone token) o' m d1
         = (d1, evs', Returned Payout.ms_invalid_link) /\
       withdrawals evs' = []) /\
    (filter (fun m => m_id m =? m_id ms) (invoice_milestones d) = [ms] ->
     forall o' m,
       exec_prog (Invoice.patch_milestone_complete (m_id ms)) o' m d1
         = (d1, [EvQuery (SelectMilestoneById (m_id ms))
                         [set_milestone "released" None ms]],
            Returned (mkResp 400 "This milestone is already marked as 'released'."))).
Proof.
  apply milestone_failed_store in Hrun.
  destruct Hrun as (ms & rest & Hms & Hst & ->).
  exists ms, rest. split; [exact Hms|]. split; [reflexivity|].
  repeat (split; [reflexivity|]).
  assert (Hc : milestone_claimable (m_id ms) ms = true)
    by (unfold milestone_claimable; rewrite Z.eqb_refl, Hst; reflexivity).
  split.
  - intros -> o' m. unfold Payout.post_release_milestone. run_prog.
    rewrite filter_update_where_cleared by reflexivity.
    rewrite (filter_filter_nil _ (milestone_claimable (m_id ms)) _ Hms Hc).
    run_prog. eexists; split; reflexivity.
  - intros Hid o' m. unfold Invoice.patch_milestone_complete. run_prog.
    rewrite filter_update_where by reflexivity. rewrite Hid.
    cbn [update_where map]. rewrite Hc. run_prog. reflexivity.
Qed.

Lemma failed_milestone_transfer_keeps_claim_witness :
  let run := exec_prog (Payout.post_release_milestone "rel-1") world_down 0
                       sample_db in
  outcome_in run = Returned Payout.ms_error /\
  payouts (final_store run) = [] /\
  map m_status (invoice_milestones (final_store run)) = ["released"; "pending"] /\
  outcome_in (exec_prog (Payout.post_release_milestone "rel-1") world_up 0
                        (final_store run))
    = Returned Payout.ms_invalid_link /\
  outcome_in (exec_prog (Invoice.patch_milestone_complete 1) world_up 0
                        (final_store run))
    = Returned (mkResp 400 "This milestone is already marked as 'released'.").
Proof.
  intros run.
  assert (H : exec_prog (Payout.post_release_milestone "rel-1") world_down 0
                        sample_db
              = (final_store run, events_in run, Returned Payout.ms_error))
    by (vm_compute; reflexivity).
  destruct (failed_milestone_transfer_keeps_claim _ _ _ _ H)
    as (ms & rest & Hms & Hd1 & _ & _ & _ & _ & Hlink & Hcomplete).
  assert (E : ms = milestone1 /\ rest = []).
  { vm_compute in Hms. inversion Hms. split; reflexivity. }
  destruct E as [-> ->].
  split; [vm_compute; reflexivity|]. split; [vm_compute; reflexivity|].
  split; [vm_compute; reflexivity|].
  split.
  - destruct (Hlink eq_refl world_up 0%nat) as (evs' & E & _).
    unfold outcome_in. rewrite E. reflexivity.
  - pose proof (Hcomplete eq_refl world_up 0%nat) as E.
    change (m_id milestone1) with 1 in E.
    unfold outcome_in. rewrite E. reflexivity.
Defined.
Lemma claim_milestone_nonempty tok ms rest l :
  filter (fun m => token_is (m_release_token m) tok) l = ms :: rest ->
  String.eqb (m_status ms) "completed" = true ->
  map m_id (filter (milestone_claimable (m_id ms)) l) <> [].
Proof.
  intros H Hst E.
  destruct (In_filter_head _ _ H) as [Hin _].
  assert (Hc : milestone_claimable (m_id ms) ms = true)
    by (unfold milestone_claimable; rewrite Z.eqb_refl, Hst; reflexivity).
  destruct (claim_rows_nonempty m_id _ _ (existsb_of_In _ _ _ Hin Hc)) as (z & zs & Hz).
  rewrite Hz in E. discriminate E.
Qed.

(** X3.  The three POST routes that release funds always answer, and an
    answer other than 200 and 500 means that nothing happened: the store is
    the one the request found, every statement was a SELECT, and no call was
    sent to the gateway. *)
Theorem release_refusals_change_nothing (d : db) (o : nat -> input) (n0 : nat) :
  (forall code invoiceNumber,
     let run := exec_prog (Payout.post_release_funds code invoiceNumber) o n0 d in
     exists r, outcome_in run = Returned r /\
       (res_status r <> 200 -> res_status r <> 500 ->
        final_store run = d /\ forallb is_select (events_in run) = true /\
        withdrawals (events_in run) = [])) /\
  (forall token id,
     let run := exec_prog (Payout.post_verify_payout token id) o n0 d in
     exists r, outcome_in run = Returned r /\
       (res_status r <> 200 -> res_status r <> 500 ->
        final_store run = d /\ forallb is_select (events_in run) = true /\
        withdrawals (events_in run) = [])) /\
  (forall token,
     let run := exec_prog (Payout.post_release_milestone token) o n0 d in
     exists r, outcome_in run = Returned r /\
       (res_status r <> 200 -> res_status r <> 500 ->
        final_store run = d /\ forallb is_select (events_in run) = true /\
        withdrawals (events_in run) = [])).
Proof.
  split; [|split].
  - intros code n run. subst run.
    unfold Payout.post_release_funds, Payout.executePayout.
    run_all; eexists; (split; [reflexivity|]); intros H2 H5;
      try (exfalso; apply H2; reflexivity); try (exfalso; apply H5; reflexivity);
      repeat split; reflexivity.
  - intros tok id run. subst run.
    unfold Payout.post_verify_payout, Payout.executePayoutLink.
    run_all; eexists; (split; [reflexivity|]); intros H2 H5;
      try (exfalso; apply H2; reflexivity); try (exfalso; apply H5; reflexivity);
      repeat split; reflexivity.
  - intros tok run. subst run.
    unfold Payout.post_release_milestone.
    run_all; eexists; (split; [reflexivity|]); intros H2 H5;
      try (exfalso; apply H2; reflexivity); try (exfalso; apply H5; reflexivity);
      try (repeat split; reflexivity).
    all: exfalso; eapply claim_milestone_nonempty; try eassumption.
    all: apply negb_false_iff; assumption.
Qed.

Lemma release_refusals_change_nothing_witness :
  let run1 := exec_prog (Payout.post_release_funds "WRONGCOD" "INV-1") world_up 0
                        sample_db in
  let run2 := exec_prog (Payout.post_verify_payout "tok-1" "2") world_up 0
                        sample_db in
  let run3 := exec_prog (Payout.post_release_milestone "rel-9") world_up 0
                        sample_db in
  (outcome_in run1 = Returned Payout.code_incorrect /\ final_store run1 = sample_db) /\
  (res_status_of (outcome_in run2) = Some 400 /\ final_store run2 = sample_db) /\
  (outcome_in run3 = Returned Payout.ms_invalid_link /\ final_store run3 = sample_db).
Proof.
  intros run1 run2 run3.
  destruct (release_refusals_change_nothing sample_db world_up 0) as (T1 & T2 & T3).
  split; [|split].
  - split; [vm_compute; reflexivity|].
    destruct (T1 "WRONGCOD" "INV-1") as (r & Hr & H).
    assert (E : r = Payout.code_incorrect)
      by (vm_compute in Hr; inversion Hr; reflexivity).
    subst r. apply H; simpl; discriminate.
  - split; [vm_compute; reflexivity|].
    destruct (T2 "tok-1" "2") as (r & Hr & H).
    assert (E : res_status r = 400)
      by (vm_compute in Hr; inversion Hr; reflexivity).
    apply H; rewrite E; discriminate.
  - split; [vm_compute; reflexivity|].
    destruct (T3 "rel-9") as (r & Hr & H).
    assert (E : r = Payout.ms_invalid_link)
      by (vm_compute in Hr; inversion Hr; reflexivity).
    subst r. apply H; simpl; discriminate.
Defined.
(** X4.  The confirmation pages and their POST routes look the credential up
    the same way: unless the GET shows the confirmation form, the POST of the
    same link gives the very answer the GET gave (no such token, link expired,
    already released, not ready) and leaves the store as it is. *)
Theorem refused_page_refused_post
  (d : db) (o o' : nat -> input) (n n' : nat) (token id : string) :
  let page := exec_prog (Payout.get_verify_payout token id) o n d in
  let post := exec_prog (Payout.post_verify_payout token id) o' n' d in
  let ms_page := exec_prog (Payout.get_release_milestone token) o n d in
  let ms_post := exec_prog (Payout.post_release_milestone token) o' n' d in
  (outcome_in page = Returned (Payout.confirm_release_page token id) \/
   (outcome_in post = outcome_in page /\ events_in post = events_in page /\
    final_store post = d)) /\
  ((exists label, outcome_in ms_page = Returned (Payout.ms_confirm_page token label)) \/
   (outcome_in ms_post = outcome_in ms_page /\ events_in ms_post = events_in ms_page /\
    final_store ms_post = d)).
Proof.
  intros page post ms_page ms_post. subst page post ms_page ms_post. split.
  - unfold Payout.get_verify_payout, Payout.post_verify_payout. run_prog.
    destruct (filter _ (confirmation_codes d)) as [|c cs]; run_prog;
      [right; repeat split; reflexivity|].
    destruct (c_is_used c); run_prog;
      [right; repeat split; reflexivity|left; reflexivity].
  - unfold Payout.get_release_milestone, Payout.post_release_milestone. run_prog.
    destruct (filter _ (invoice_milestones d)) as [|m ms]; run_prog;
      [right; repeat split; reflexivity|].
    destruct (String.eqb (m_status m) "released"); run_prog;
      [right; repeat split; reflexivity|].
    destruct (negb (String.eqb (m_status m) "completed")); run_prog;
      [right; repeat split; reflexivity|left; eexists; reflexivity].
Qed.
Lemma milestone_released_store d o n0 tok d1 evs r :
  exec_prog (Payout.post_release_milestone tok) o n0 d = (d1, evs, Returned r) ->
  res_status r = 200 ->
  exists ms rest,
    filter (fun m => token_is (m_release_token m) tok) (invoice_milestones d)
      = ms :: rest /\
    String.eqb (m_status ms) "completed" = true /\
    invoice_milestones d1
      = update_where (milestone_claimable (m_id ms))
                     (set_milestone "released" None) (invoice_milestones d) /\
    invoices d1
      = (if Nat.eqb (List.length (filter (milestone_unreleased (m_invoice_id ms))
                                         (invoice_milestones d1))) 0
         then update_where (fun i => i_id i =? m_invoice_id ms)
                           (set_invoice_status "completed") (invoices d)
         else invoices d) /\
    exists sellerReceives,
      r = Payout.ms_released_page sellerReceives (m_label ms)
            (List.length (filter (milestone_unreleased (m_invoice_id ms))
                                 (invoice_milestones d1))).
Proof.
  unfold Payout.post_release_milestone.
  run_all; intros H Hr; inversion H; subst; clear H; try discriminate Hr.
  all: do 2 eexists; split; [reflexivity|]; split;
    [apply negb_false_iff; assumption|].
  all: run_prog.
  all: split; [reflexivity|].
  all: match goal with H : Nat.eqb _ 0 = _ |- _ => rewrite H end.
  all: split; [reflexivity|eexists; reflexivity].
Qed.
Lemma unreleased_after_claim ms l :
  filter (fun m => m_id m =? m_id ms) l = [ms] ->
  String.eqb (m_status ms) "completed" = true ->
  List.length (filter (milestone_unreleased (m_invoice_id ms)) l)
  = S (List.length
         (filter (milestone_unreleased (m_invoice_id ms))
                 (update_where (milestone_claimable (m_id ms))
                               (set_milestone "released" None) l))).
Proof.
  intros Hid Hst. induction l as [|x l IH]; [discriminate Hid|].
  cbn [update_where map filter] in *.
  destruct (m_id x =? m_id ms) eqn:E.
  - inversion Hid as [[Hx Hl]]. subst x.
    assert (Hc : milestone_claimable (m_id ms) ms = true)
      by (unfold milestone_claimable; rewrite Z.eqb_refl, Hst; reflexivity).
    rewrite Hc.
    assert (Hu : milestone_unreleased (m_invoice_id ms) ms = true).
    { unfold milestone_unreleased. rewrite Z.eqb_refl. simpl.
      apply String.eqb_eq in Hst. rewrite Hst. reflexivity. }
    rewrite Hu.
    assert (Hr : milestone_unreleased (m_invoice_id ms)
                   (set_milestone "released" None ms) = false).
    { unfold milestone_unreleased, set_milestone. simpl. apply andb_false_r. }
    rewrite Hr. simpl. f_equal.
    assert (Hnone : existsb (milestone_claimable (m_id ms)) l = false).
    { clear -Hl. induction l as [|y l IH]; [reflexivity|]. simpl in *.
      unfold milestone_claimable at 1.
      destruct (m_id y =? m_id ms); [discriminate Hl|]. simpl. apply IH, Hl. }
    fold (update_where (milestone_claimable (m_id ms))
                       (set_milestone "released" None) l).
    rewrite (update_where_none _ _ _ Hnone). reflexivity.
  - assert (Hc : milestone_claimable (m_id ms) x = false)
      by (unfold milestone_claimable; rewrite E; reflexivity).
    rewrite Hc. specialize (IH Hid).
    fold (update_where (milestone_claimable (m_id ms))
                       (set_milestone "released" None) l) in *.
    destruct (milestone_unreleased (m_invoice_id ms) x); simpl; rewrite IH; reflexivity.
Qed.

(** X5.  A milestone release that answers 200 marks the invoice 'completed'
    exactly when no milestone of the invoice is left unreleased once this one
    is released; otherwise no invoice changes.  The page tells which: it says
    that the invoice is fully settled when none is left, and that the seller
    will proceed with the next milestone otherwise.  With milestone ids
    unique, the number of unreleased milestones the route counts is one less
    than before the release. *)
Theorem milestone_release_completes_invoice
  (d : db) (o : nat -> input) (n0 : nat) (token : string) (d1 : db)
  (evs : list event) (r : response)
  (Hrun : exec_prog (Payout.post_release_milestone token) o n0 d
          = (d1, evs, Returned r))
  (H200 : res_status r = 200) :
  exists ms rest,
    filter (fun m => token_is (m_release_token m) token) (invoice_milestones d)
      = ms :: rest /\
    let remaining :=
      List.length (filter (milestone_unreleased (m_invoice_id ms))
                          (invoice_milestones d1)) in
    (exists sellerReceives,
       r = Payout.ms_released_page sellerReceives (m_label ms) remaining) /\
    (remaining = 0%nat ->
     invoices d1 = invoices_marked (m_invoice_id ms) "completed" (invoices d)) /\
    (remaining <> 0%nat -> invoices d1 = invoices d) /\
    (filter (fun m => m_id m =? m_id ms) (invoice_milestones d) = [ms] ->
     List.length (filter (milestone_unreleased (m_invoice_id ms))
                         (invoice_milestones d)) = S remaining).
Proof.
  destruct (milestone_released_store _ _ _ _ Hrun H200)
    as (ms & rest & Hms & Hst & Hm1 & Hi1 & s & Hr).
  exists ms, rest. split; [exact Hms|]. intros remaining.
  split; [exists s; exact Hr|].
  split; [intros E; fold remaining in Hi1; rewrite E in Hi1; exact Hi1|].
  split.
  - intros E. fold remaining in Hi1.
    destruct remaining; [congruence|exact Hi1].
  - intros Hid. subst remaining. rewrite Hm1.
    apply unreleased_after_claim; assumption.
Qed.

Lemma milestone_release_completes_invoice_witness :
  let first := exec_prog (Payout.post_release_milestone "rel-1") world_up 0
                         sample_db in
  let last := exec_prog (Payout.post_release_milestone "r4nd0m") world_up 0
                        second_completed_db in
  res_status_of (outcome_in first) = Some 200 /\
  res_status_of (outcome_in last) = Some 200 /\
  invoices (final_store first) = invoices sample_db /\
  map i_status (invoices (final_store last)) = ["paid"; "completed"; "delivered"].
Proof.
  intros first last.
  split; [vm_compute; reflexivity|]. split; [vm_compute; reflexivity|].
  split.
  - assert (H : exists r, exec_prog (Payout.post_release_milestone "rel-1")
                                    world_up 0 sample_db
                          = (final_store first, events_in first, Returned r) /\
                          res_status r = 200)
      by (eexists; split; vm_compute; reflexivity).
    destruct H as (r & H & H200).
    destruct (milestone_release_completes_invoice _ _ _ _ H H200)
      as (ms & rest & Hms & _ & _ & Hsome & _).
    assert (E : ms = milestone1) by (vm_compute in Hms; inversion Hms; reflexivity).
    subst ms. apply Hsome. vm_compute. discriminate.
  - assert (H : exists r, exec_prog (Payout.post_release_milestone "r4nd0m")
                                    world_up 0 second_completed_db
                          = (final_store last, events_in last, Returned r) /\
                          res_status r = 200)
      by (eexists; split; vm_compute; reflexivity).
    destruct H as (r & H & H200).
    destruct (milestone_release_completes_invoice _ _ _ _ H H200)
      as (ms & rest & Hms & _ & Hnone & _ & _).
    assert (E : m_invoice_id ms = 2)
      by (vm_compute in Hms; inversion Hms; reflexivity).
    rewrite Hnone; [|rewrite E; vm_compute; reflexivity].
    rewrite E. vm_compute. reflexivity.
Defined.

(** ** Releases and disputes *)

(** X6.  The three POST routes that release funds never look at the disputes
    table: on two stores that differ only in their disputes, a request makes
    the same statements with the same results, gets the same answer, and
    leaves the same store, disputes apart.  An open dispute on an invoice does
    not hold its funds. *)
Theorem release_ignores_disputes (disp : list dispute) :
  (forall code invoiceNumber,
     same_run_under disp (Payout.post_release_funds code invoiceNumber)) /\
  (forall token id, same_run_under disp (Payout.post_verify_payout token id)) /\
  (forall token, same_run_under disp (Payout.post_release_milestone token)).
Proof.
  unfold same_run_under, under_disputes, final_store, events_in, outcome_in.
  split; [|split].
  - intros code n d o n0.
    unfold Payout.post_release_funds, Payout.executePayout.
    run_all; reflexivity.
  - intros tok id d o n0.
    unfold Payout.post_verify_payout, Payout.executePayoutLink.
    run_all; reflexivity.
  - intros tok d o n0.
    unfold Payout.post_release_milestone.
    run_all; reflexivity.
Qed.

Lemma release_processed_frame d o n0 code n d1 evs :
  exec_prog (Payout.post_release_funds code n) o n0 d
    = (d1, evs, Returned Payout.payout_processed) ->
  disputes d1 = disputes d /\ chats d1 = chats d /\ guests d1 = guests d /\
  (users d1 = users d \/
   exists r e, users d1 = update_where (fun u => u_id u =? r) (add_balance e) (users d)) /\
  (exists row, payouts d1 = payouts d ++ [row]) /\
  exists c, withdrawals evs = [c].
Proof.
  unfold Payout.post_release_funds, Payout.executePayout.
  run_all; intros H; try discriminate H.
  all: inversion H; subst; clear H.
  all: repeat (split; [reflexivity|]).
  all: split; [first [left; reflexivity | right; do 2 eexists; reflexivity]|].
  all: split; eexists; reflexivity.
Qed.

Lemma seller_kept uid (l l' : list user) seller rest :
  filter (fun u => u_id u =? uid) l = seller :: rest ->
  (l' = l \/ exists r e, l' = update_where (fun u => u_id u =? r) (add_balance e) l) ->
  exists seller' rest',
    filter (fun u => u_id u =? uid) l' = seller' :: rest' /\
    u_phone seller' = u_phone seller /\ u_email seller' = u_email seller /\
    u_referred_by seller' = u_referred_by seller.
Proof.
  intros H [->|(r & e & ->)].
  - exists seller, rest. auto.
  - rewrite filter_update_where by reflexivity. rewrite H.
    cbn [update_where map].
    destruct (u_id seller =? r); eexists; eexists; split; try reflexivity; auto.
Qed.

Lemma resolve_seller_answers d o n token dsp rest inv rest1 seller rest2 :
  filter (fun x => String.eqb (d_admin_token x) token) (disputes d) = dsp :: rest ->
  d_status dsp = "open" ->
  filter (fun i => String.eqb (i_invoicenumber i) (d_invoicenumber dsp)) (invoices d)
    = inv :: rest1 ->
  filter (fun u => u_id u =? i_userid inv) (users d) = seller :: rest2 ->
  gateway_up o ->
  let run := exec_prog (Dispute.post_resolve token "seller") o n d in
  outcome_in run
    = Returned (mkResp 200 "Dispute resolved. Funds released to seller.") /\
  withdrawals (events_in run)
    = [CampayWithdraw
         (i_amount inv - Math_floor (times (i_amount inv) Dispute.DISPUTE_TOTAL_FEE_RATE))
         (u_phone seller)
         ("Dispute resolved - payout for invoice " ^^ i_invoicenumber inv)
         (i_invoicenumber inv)] /\
  payouts (final_store run)
    = payouts d ++ [mkPayout (i_userid inv)
         (i_amount inv - Math_floor (times (i_amount inv) Dispute.DISPUTE_TOTAL_FEE_RATE))
         "Mobile Money" "paid" (i_id inv) (i_invoicenumber inv)].
Proof.
  intros Hd Hst Hi Hu Hg run. subst run. unfold gateway_up in Hg.
  unfold Dispute.post_resolve, Dispute.system_message,
    creditReferralIf, creditReferral.
  run_known. rewrite Hst.
  cbn [String.eqb Ascii.eqb Bool.eqb negb]. run_known.
  destruct (filter _ (chats d)) as [|ch chs];
    destruct (u_referred_by seller) as [r|]; run_known;
    try (destruct (0 <? _) eqn:Epos; run_known;
         try (destruct (existsb _ (referral_earnings d)) eqn:Ekey; run_known;
              try (destruct (int4 _ && forallb _ _) eqn:Efit; run_known)));
    destruct (filter _ (guests d)) as [|g gs]; run_known;
    repeat split; reflexivity.
Qed.

(** X7.  Resolving a dispute for the seller does not look at whether the
    invoice was paid out.  When POST /release-funds has paid the seller of an
    invoice that is under an open dispute, the invoice is 'completed' and the
    dispute still open; a resolve request for the seller then answers 200,
    sends the seller's share to the gateway once more and records a second
    payout. *)
Theorem resolve_after_release_pays_again
  (d : db) (o : nat -> input) (n0 : nat) (code invoiceNumber : string)
  (d1 : db) (evs : list event)
  (token : string) (dsp : dispute) (drest : list dispute)
  (inv : invoice) (rest : list invoice) (seller : user) (srest : list user)
  (Hrun : exec_prog (Payout.post_release_funds code invoiceNumber) o n0 d
          = (d1, evs, Returned Payout.payout_processed))
  (Hdispute : filter (fun x => String.eqb (d_admin_token x) token) (disputes d)
              = dsp :: drest)
  (Hopen : d_status dsp = "open")
  (Hnumber : d_invoicenumber dsp = invoiceNumber)
  (Hinvoice : filter (fun i => String.eqb (i_invoicenumber i) invoiceNumber)
                     (invoices d) = inv :: rest)
  (Hseller : filter (fun u => u_id u =? i_userid inv) (users d) = seller :: srest)
  (o' : nat -> input) (m : nat) (Hgateway : gateway_up o') :
  let again := exec_prog (Dispute.post_resolve token "seller") o' m d1 in
  let share :=
    i_amount inv - Math_floor (times (i_amount inv) Dispute.DISPUTE_TOTAL_FEE_RATE) in
  (* after the release *)
  (exists c, withdrawals evs = [c]) /\
  map i_status (filter (fun i => String.eqb (i_invoicenumber i) invoiceNumber)
                       (invoices d1))
    = "completed" :: map i_status (update_where (fun i => i_id i =? i_id inv)
                                     (set_invoice_status "completed") rest) /\
  disputes d1 = disputes d /\
  (* the resolve request *)
  outcome_in again
    = Returned (mkResp 200 "Dispute resolved. Funds released to seller.") /\
  withdrawals (events_in again)
    = [CampayWithdraw share (u_phone seller)
         ("Dispute resolved - payout for invoice " ^^ invoiceNumber)
         invoiceNumber] /\
  List.length (payouts (final_store again)) = (2 + List.length (payouts d))%nat.
Proof.
  intros again share. subst again share.
  destruct (release_processed_frame _ _ _ _ _ Hrun)
    as (Hdisp & Hchats & Hguests & Husers & (row & Hpay) & Hw).
  destruct (code_success_store _ _ _ _ _ Hrun) as (_ & inv' & rest' & Hi' & Hinv1).
  rewrite Hinvoice in Hi'. inversion Hi'; subst inv' rest'; clear Hi'.
  assert (Hnum : i_invoicenumber inv = invoiceNumber).
  { destruct (In_filter_head _ _ Hinvoice) as [_ E]. apply String.eqb_eq in E. exact E. }
  assert (Hi1 : filter (fun i => String.eqb (i_invoicenumber i) invoiceNumber)
                       (invoices d1)
                = set_invoice_status "completed" inv
                  :: update_where (fun i => i_id i =? i_id inv)
                                  (set_invoice_status "completed") rest).
  { rewrite Hinv1, filter_update_where by reflexivity. rewrite Hinvoice.
    cbn [update_where map]. rewrite Z.eqb_refl. reflexivity. }
  destruct (seller_kept _ Hseller Husers) as (s' & srest' & Hs' & Hphone & _ & _).
  split; [exact Hw|].
  split; [rewrite Hi1; reflexivity|].
  split; [exact Hdisp|].
  assert (Hd1 : filter (fun x => String.eqb (d_admin_token x) token) (disputes d1)
                = dsp :: drest) by (rewrite Hdisp; exact Hdispute).
  assert (Hi1' : filter (fun i => String.eqb (i_invoicenumber i) (d_invoicenumber dsp))
                        (invoices d1)
                 = set_invoice_status "completed" inv
                   :: update_where (fun i => i_id i =? i_id inv)
                                   (set_invoice_status "completed") rest)
    by (rewrite Hnumber; exact Hi1).
  destruct (@resolve_seller_answers d1 o' m token dsp drest
              (set_invoice_status "completed" inv) _ s' srest'
              Hd1 Hopen Hi1' Hs' Hgateway) as (Hout & Hwd & Hpo).
  cbn [set_invoice_status i_amount i_userid i_invoicenumber i_id] in Hwd, Hpo.
  split; [exact Hout|].
  split; [rewrite Hwd, Hphone, Hnum; reflexivity|].
  rewrite Hpo, Hpay, !length_app. simpl. lia.
Qed.

Lemma resolve_after_release_pays_again_witness :
  let first := exec_prog (Payout.post_release_funds "WXYZ6789" "INV-3") world_up 0
                         sample_db in
  let again := exec_prog (Dispute.post_resolve "adm-3" "seller") world_up 0
                         (final_store first) in
  outcome_in first = Returned Payout.payout_processed /\
  d_status dispute3 = "open" /\
  outcome_in again
    = Returned (mkResp 200 "Dispute resolved. Funds released to seller.") /\
  withdrawals (events_in again)
    = [CampayWithdraw 98000 "237600000004"
         "Dispute resolved - payout for invoice INV-3" "INV-3"] /\
  List.length (payouts (final_store again)) = 2%nat.
Proof.
  intros first again.
  assert (H : exec_prog (Payout.post_release_funds "WXYZ6789" "INV-3") world_up 0
                        sample_db
              = (final_store first, events_in first, Returned Payout.payout_processed))
    by (vm_compute; reflexivity).
  assert (Hg : gateway_up world_up) by (intros n; reflexivity).
  destruct (@resolve_after_release_pays_again sample_db world_up 0 "WXYZ6789" "INV-3"
              _ _ "adm-3" dispute3 [] invoice3 [] seller12 []
              H eq_refl eq_refl eq_refl eq_refl eq_refl world_up 0%nat Hg)
    as (_ & _ & _ & Hout & Hw & Hp).
  split; [vm_compute; reflexivity|]. split; [reflexivity|].
  split; [exact Hout|]. split; [exact Hw|exact Hp].
Defined.


(** ** Payment processing: what the marker costs *)

(** X9.  [processSuccessfulPayment] records the marker before it looks the
    payment up.  A call for a reference that has no payments row returns
    "no_payment", and a call whose invoice already has a confirmation code
    returns "already_done"; both leave the marker as their only change.  From
    then on, whatever else the store holds, every call for the reference
    returns "already_done" and changes nothing: a payments row that arrives
    after the first call is never processed. *)
Theorem payment_marker_is_kept
  (fuel : nat) (ref : string) (d : db) (o : nat -> input) (n : nat)
  (Hfree : marker_free d ref = true) :
  let run := exec_prog (Payments.processSuccessfulPayment fuel ref) o n d in
  let marked := with_processed_payments (fun l => l ++ [ref]) d in
  (filter (fun p => String.eqb (p_providerpaymentid p) ref) (payments d) = [] ->
   run = (marked,
          [EvQuery (InsertProcessedPayment ref) 1%nat;
           EvQuery (SelectPaymentsByProvider ref) []],
          Returned "no_payment")) /\
  (forall pay rest c cs,
     filter (fun p => String.eqb (p_providerpaymentid p) ref) (payments d)
       = pay :: rest ->
     filter (fun c => c_code_id c =? p_invoiceid pay) (confirmation_codes d)
       = c :: cs ->
     run = (marked,
            [EvQuery (InsertProcessedPayment ref) 1%nat;
             EvQuery (SelectPaymentsByProvider ref) (pay :: rest);
             EvQuery (SelectCodesByCodeId (p_invoiceid pay)) (c :: cs)],
            Returned "already_done")) /\
  (forall d2 o' m,
     processed_payments d2 = processed_payments marked ->
     exec_prog (Payments.processSuccessfulPayment fuel ref) o' m d2
       = (d2, [EvQuery (InsertProcessedPayment ref) 0%nat],
          Returned "already_done")).
Proof.
  intros run marked. subst run marked.
  unfold marker_free in Hfree. apply negb_true_iff in Hfree.
  split; [|split].
  - intros Hnone. unfold Payments.processSuccessfulPayment. run_prog.
    rewrite Hfree. cbn [Nat.eqb]. run_prog. rewrite Hnone. run_prog. reflexivity.
  - intros pay rest c cs Hpay Hcode.
    unfold Payments.processSuccessfulPayment. run_prog.
    rewrite Hfree. cbn [Nat.eqb]. run_prog. rewrite Hpay. run_prog.
    rewrite Hcode. run_prog. reflexivity.
  - intros d2 o' m Hp. apply psp_marked. unfold marker_free. rewrite Hp.
    simpl. rewrite existsb_app. simpl. rewrite String.eqb_refl, orb_true_r.
    reflexivity.
Qed.

Lemma payment_marker_is_kept_witness :
  let run := exec_prog (Payments.processSuccessfulPayment 3 "uuid-9") world_up 0
                       sample_db in
  let later := with_payments
                 (fun l => l ++ [mkPayment 9 1 "uuid-9" 100000 "pending"])
                 (final_store run) in
  let legacy := with_payments
                  (fun l => l ++ [mkPayment 9 1 "uuid-9" 100000 "pending"])
                  sample_db in
  marker_free sample_db "uuid-9" = true /\
  outcome_in run = Returned "no_payment" /\
  exec_prog (Payments.processSuccessfulPayment 3 "uuid-9") world_up 0 later
    = (later, [EvQuery (InsertProcessedPayment "uuid-9") 0%nat],
       Returned "already_done") /\
  outcome_in (exec_prog (Payments.processSuccessfulPayment 3 "uuid-9") world_up 0
                        legacy)
    = Returned "already_done" /\
  payments (final_store (exec_prog (Payments.processSuccessfulPayment 3 "uuid-9")
                                   world_up 0 legacy))
    = payments legacy.
Proof.
  intros run later legacy.
  destruct (@payment_marker_is_kept 3 "uuid-9" sample_db world_up 0 eq_refl)
    as (Hnone & _ & Hlater).
  destruct (@payment_marker_is_kept 3 "uuid-9" legacy world_up 0 eq_refl)
    as (_ & Hcode & _).
  split; [reflexivity|].
  split; [unfold run; rewrite (Hnone eq_refl); reflexivity|].
  split; [apply Hlater; vm_compute; reflexivity|].
  rewrite (Hcode (mkPayment 9 1 "uuid-9" 100000 "pending") []
                 (mkCode "ABCD2345" 1 "tok-1" 10 1 false) [] eq_refl eq_refl).
  split; reflexivity.
Defined.

(** ** The webhook *)

Lemma exec_prog_catch {A} (p : prog A) (h : error -> prog A) o n d :
  exec_prog (catch p h) o n d =
  let '(d1, ev1, out1) := exec_prog p o n d in
  match out1 with
  | Returned a => (d1, ev1, Returned a)
  | Thrown e =>
      let '(d2, ev2, out2) := exec_prog (h e) o (n + List.length ev1) d1 in
      (d2, ev1 ++ ev2, out2)
  | Spinning => (d1, ev1, Spinning)
  end.
Proof.
  revert n d. induction p as [a|e|R q k IH|c k IH|k IH|e p IH|]; intros n d;
    cbn [catch exec_prog].
  - reflexivity.
  - simpl. rewrite Nat.add_0_r. destruct (exec_prog (h e) o n d) as [[? ?] ?].
    reflexivity.
  - destruct (exec q d) as [d' r]. rewrite IH.
    destruct (exec_prog (k r) o (S n) d') as [[d1 ev1] out1].
    destruct out1; try reflexivity. simpl List.length.
    replace (n + S (List.length ev1))%nat with (S n + List.length ev1)%nat by lia.
    destruct (exec_prog (h e) o _ d1) as [[? ?] ?]. reflexivity.
  - rewrite IH.
    destruct (exec_prog (k _) o (S n) d) as [[d1 ev1] out1].
    destruct out1; try reflexivity. simpl List.length.
    replace (n + S (List.length ev1))%nat with (S n + List.length ev1)%nat by lia.
    destruct (exec_prog (h e) o _ d1) as [[? ?] ?]. reflexivity.
  - rewrite IH.
    destruct (exec_prog (k _) o (S n) d) as [[d1 ev1] out1].
    destruct out1; try reflexivity. simpl List.length.
    replace (n + S (List.length ev1))%nat with (S n + List.length ev1)%nat by lia.
    destruct (exec_prog (h e) o _ d1) as [[? ?] ?]. reflexivity.
  - rewrite IH.
    destruct (exec_prog p o (S n) d) as [[d1 ev1] out1].
    destruct out1; try reflexivity. simpl List.length.
    replace (n + S (List.length ev1))%nat with (S n + List.length ev1)%nat by lia.
    destruct (exec_prog (h e0) o _ d1) as [[? ?] ?]. reflexivity.
  - reflexivity.
Qed.

(** X10.  The webhook.  A delivery whose signature does not verify is
    answered 401 (500 for any other error of the verification) before any
    statement; a verified delivery whose status is not SUCCESSFUL is answered
    200 "OK" with nothing done.  A verified SUCCESSFUL delivery does what
    [processSuccessfulPayment] does on the reference, no more: it is answered
    200 "OK" whatever the function returned, "no_payment" included, and 500
    when the function threw. *)
Theorem webhook_runs_the_processing
  (fuel : nat) (d : db) (o : nat -> input) (n : nat) (paymentUUID status : string) :
  let processing :=
    exec_prog (Payments.processSuccessfulPayment fuel paymentUUID) o n d in
  (forall name,
     exec_prog (Webhook.post_confirmation fuel (Some name) paymentUUID status) o n d
     = (d, [],
        Returned (if String.eqb name "JsonWebTokenError"
                     || String.eqb name "TokenExpiredError"
                  then mkResp 401 "Invalid Signature"
                  else mkResp 500 "Internal error"))) /\
  (status <> "SUCCESSFUL" ->
   exec_prog (Webhook.post_confirmation fuel None paymentUUID status) o n d
   = (d, [], Returned (mkResp 200 "OK"))) /\
  (status = "SUCCESSFUL" ->
   exec_prog (Webhook.post_confirmation fuel None paymentUUID status) o n d
   = (final_store processing, events_in processing,
      webhook_answer (outcome_in processing))).
Proof.
  intros processing. subst processing. split; [|split].
  - intros name. unfold Webhook.post_confirmation.
    destruct (_ || _); reflexivity.
  - intros Hs. unfold Webhook.post_confirmation.
    apply String.eqb_neq in Hs. rewrite Hs. reflexivity.
  - intros ->. unfold Webhook.post_confirmation.
    rewrite String.eqb_refl, exec_prog_catch, !exec_prog_bind.
    destruct (exec_prog (Payments.processSuccessfulPayment fuel paymentUUID) o n d)
      as [[d1 ev1] out1].
    unfold final_store, events_in, outcome_in. cbn [fst snd].
    destruct out1 as [a|e|]; cbn [exec_prog webhook_answer];
      rewrite ?app_nil_r; reflexivity.
Qed.

Lemma webhook_runs_the_processing_witness :
  "PENDING" <> "SUCCESSFUL" /\
  exec_prog (Webhook.post_confirmation 3 None "uuid-4" "PENDING") world_up 0
            pending_db
    = (pending_db, [], Returned (mkResp 200 "OK")) /\
  (let run := exec_prog (Webhook.post_confirmation 3 None "uuid-4" "SUCCESSFUL")
                        world_up 0 pending_db in
   outcome_in run = Returned (mkResp 200 "OK") /\
   map i_status (invoices (final_store run))
     = ["paid"; "paid"; "delivered"; "paid"]) /\
  outcome_in (exec_prog (Webhook.post_confirmation 3 None "uuid-9" "SUCCESSFUL")
                        world_up 0 pending_db)
    = Returned (mkResp 200 "OK").
Proof.
  assert (Hne : "PENDING" <> "SUCCESSFUL") by discriminate.
  destruct (webhook_runs_the_processing 3 pending_db world_up 0 "uuid-4" "PENDING")
    as (_ & Hother & _).
  destruct (webhook_runs_the_processing 3 pending_db world_up 0 "uuid-4" "SUCCESSFUL")
    as (_ & _ & Hok).
  destruct (webhook_runs_the_processing 3 pending_db world_up 0 "uuid-9" "SUCCESSFUL")
    as (_ & _ & Hnone).
  split; [exact Hne|]. split; [exact (Hother Hne)|].
  split.
  - cbv zeta. rewrite (Hok eq_refl). split; vm_compute; reflexivity.
  - rewrite (Hnone eq_refl). vm_compute. reflexivity.
Defined.

Lemma follows_webhook_wrap {U} (P : protocol U) {A} (L : outcome A -> Prop)
  (L' : outcome response -> Prop) ph (p : prog A) (ok failed : response) :
  (forall out, L out ->
     L' (match out with
         | Returned _ => Returned ok
         | Thrown _ => Returned failed
         | Spinning => Spinning
         end)) ->
  follows P L ph p ->
  follows P L' ph
    (catch (bind (bind p (fun _ => Ret tt)) (fun _ => Ret ok))
           (fun _ => Ret failed)).
Proof.
  intros HL H.
  induction H as [ph a Ha|ph e He|ph Hs|ph R q k next Hall Hadv Hk IH
                  |ph c k next Hadv Hk IH|ph k next Hadv Hk IH|ph e k ph' Hadv Hk IH];
    cbn [bind catch].
  - apply follows_Ret. intros E. exact (HL _ (Ha E)).
  - apply follows_Ret. intros E. exact (HL _ (He E)).
  - apply follows_Spin. intros E. exact (HL _ (Hs E)).
  - eapply follows_Query; [exact Hall|exact Hadv|exact IH].
  - eapply follows_Gateway; [exact Hadv|exact IH].
  - eapply follows_Random; [exact Hadv|exact IH].
  - eapply follows_Emit; [exact Hadv|exact IH].
Qed.

Lemma post_confirmation_follows {U} (P : protocol U) fuel verify uuid status :
  follows P payment_abort Pre (Payments.processSuccessfulPayment fuel uuid) ->
  follows P webhook_abort Pre (Webhook.post_confirmation fuel verify uuid status).
Proof.
  intros H. unfold Webhook.post_confirmation.
  destruct verify as [name|].
  - destruct (_ || _); apply follows_Ret; discriminate.
  - destruct (String.eqb status "SUCCESSFUL").
    + apply (follows_webhook_wrap (L := payment_abort)); [|exact H].
      intros out ->. reflexivity.
    + cbn [bind catch]. apply follows_Ret. discriminate.
Qed.

(** X11.  Deliveries to the webhook, forged, repeated or concurrent, in any
    interleaving: for each payment reference at most one delivery inserts the
    marker; only that delivery sets an invoice to 'paid' and mints a
    code/token pair, at most once each; and a delivery whose insert affected
    no row made no further step and was answered 200 "OK". *)
Theorem webhook_deliveries_processed_once
  (fuel : nat) (d : db) (deliveries : list (option string * string * string))
  (sch : schedule) :
  let s := run_sched sch (start d (webhook_deliveries fuel deliveries)) in
  safe_outcome paid_protocol webhook_abort s /\
  safe_outcome mint_protocol webhook_abort s /\
  (forall e, is_act paid_protocol e = is_paid_transition e) /\
  (forall e, is_act mint_protocol e = is_code_minted e).
Proof.
  intros s. subst s.
  split; [|split; [|split; [apply is_act_paid|apply is_act_mint]]];
    apply discipline_safe;
    try apply paid_protocol_sound; try apply mint_protocol_sound;
    unfold webhook_deliveries; apply Forall_forall; intros p Hp;
    apply in_map_iff in Hp; destruct Hp as (x & <- & _);
    apply post_confirmation_follows.
  - apply processSuccessfulPayment_follows_paid.
  - apply processSuccessfulPayment_follows_mint.
Qed.

(** ** Marking an invoice delivered *)

Lemma mark_delivered_answers (d : db) (o : nat -> input) (n : nat) (id : option Z) :
  let run := exec_prog (Delivery.patch_mark_delivered id) o n d in
  exists r, outcome_in run = Returned r /\
    ((forall z, id = Some z -> int4 z = false) ->
     r = Delivery.failed /\ events_in run = [] /\ final_store run = d) /\
    (forall invoiceId, id = Some invoiceId -> int4 invoiceId = true ->
     let found := filter (fun i => i_id i =? invoiceId) (invoices d) in
     (found = [] -> r = Delivery.not_found /\ final_store run = d) /\
     (forall inv rest, found = inv :: rest -> i_status inv <> "paid" ->
        r = Delivery.not_paid /\ final_store run = d) /\
     (forall inv rest, found = inv :: rest -> i_status inv = "paid" ->
        res_status r = 200 /\
        final_store run
          = with_invoices (invoices_marked invoiceId "delivered") d)).
Proof.
  intros run. subst run. unfold Delivery.patch_mark_delivered.
  destruct id as [invoiceId|].
  2: { run_prog. eexists. split; [reflexivity|].
       split; [intros _; repeat split; reflexivity|].
       intros z H. discriminate H. }
  unfold query_bound. cbn [forallb]. rewrite andb_true_r.
  destruct (int4 invoiceId) eqn:Ein.
  2: { run_prog. eexists. split; [reflexivity|].
       split; [intros _; repeat split; reflexivity|].
       intros z H Hz. inversion H; subst. congruence. }
  run_prog.
  destruct (filter _ (invoices d)) as [|inv rest] eqn:Hf; run_prog.
  - eexists. split; [reflexivity|].
    split; [intros H; specialize (H _ eq_refl); congruence|].
    intros z H _. inversion H; subst z. rewrite Hf.
    split; [intros _; split; reflexivity|].
    split; intros inv rest H'; discriminate H'.
  - destruct (String.eqb (i_status inv) "paid") eqn:Hst; cbn [negb]; run_prog.
    + apply String.eqb_eq in Hst.
      destruct (filter _ (guests d)) as [|g gs]; run_prog;
        (eexists; split; [reflexivity|];
         split; [intros H; specialize (H _ eq_refl); congruence|];
         intros z H _; inversion H; subst z; rewrite Hf;
         split; [intros H'; discriminate H'|];
         split; [intros inv' rest' H' Hn; inversion H'; subst; contradiction|];
         intros inv' rest' H' _; split; reflexivity).
    + eexists. split; [reflexivity|].
      split; [intros H; specialize (H _ eq_refl); congruence|].
      intros z H _. inversion H; subst z. rewrite Hf.
      split; [intros H'; discriminate H'|].
      split.
      * intros inv' rest' H' _. split; reflexivity.
      * intros inv' rest' H' Hp. inversion H'; subst.
        rewrite Hp in Hst. discriminate Hst.
Qed.

(** Once the invoices of the id are 'delivered', the request is refused. *)
Lemma mark_delivered_again d invoiceId inv rest d1 o m :
  int4 invoiceId = true ->
  filter (fun i => i_id i =? invoiceId) (invoices d) = inv :: rest ->
  invoices d1 = invoices_marked invoiceId "delivered" (invoices d) ->
  exec_prog (Delivery.patch_mark_delivered (Some invoiceId)) o m d1
    = (d1, [EvQuery (SelectInvoiceById invoiceId)
              (invoices_marked invoiceId "delivered" (inv :: rest))],
       Returned Delivery.not_paid).
Proof.
  intros Ein Hf Hd1.
  assert (Hid : (i_id inv =? invoiceId) = true)
    by (destruct (In_filter_head _ _ Hf) as [_ E]; exact E).
  unfold Delivery.patch_mark_delivered, query_bound.
  cbn [forallb]. rewrite andb_true_r, Ein. run_prog.
  rewrite Hd1.
  change (invoices_marked invoiceId "delivered" (invoices d))
    with (update_where (fun i => i_id i =? invoiceId)
                       (set_invoice_status "delivered") (invoices d)).
  rewrite filter_update_where by reflexivity. rewrite Hf.
  unfold invoices_marked. cbn [update_where map]. rewrite !Hid.
  run_prog. reflexivity.
Qed.

(** X12.  PATCH /mark-delivered/:id always answers.  When the URL segment
    is not an integer within the range of INTEGER the answer is 500 and
    nothing happened.  Otherwise the answer is 200 exactly when the invoice
    of that id exists and is 'paid'; then every invoice of that id becomes
    'delivered' and nothing else in the store changes.  With no such invoice
    the answer is 404, with an invoice that is not 'paid' it is 403, and the
    store is left as it is.  Marking twice is refused: after a 200, the same
    request answers 403. *)
Theorem mark_delivered_only_when_paid
  (d : db) (o : nat -> input) (n : nat) (id : option Z) :
  let run := exec_prog (Delivery.patch_mark_delivered id) o n d in
  exists r, outcome_in run = Returned r /\
    ((forall z, id = Some z -> int4 z = false) ->
     r = Delivery.failed /\ events_in run = [] /\ final_store run = d) /\
    (forall invoiceId, id = Some invoiceId -> int4 invoiceId = true ->
     let found := filter (fun i => i_id i =? invoiceId) (invoices d) in
     (found = [] -> r = Delivery.not_found /\ final_store run = d) /\
     (forall inv rest, found = inv :: rest -> i_status inv <> "paid" ->
        r = Delivery.not_paid /\ final_store run = d) /\
     (forall inv rest, found = inv :: rest -> i_status inv = "paid" ->
        res_status r = 200 /\
        final_store run
          = with_invoices (invoices_marked invoiceId "delivered") d /\
        forall o' m,
          exec_prog (Delivery.patch_mark_delivered id) o' m (final_store run)
            = (final_store run,
               [EvQuery (SelectInvoiceById invoiceId)
                        (invoices_marked invoiceId "delivered" found)],
               Returned Delivery.not_paid))).
Proof.
  intros run.
  destruct (mark_delivered_answers d o n id) as (r & Hr & Hbad & Hgood).
  exists r. split; [exact Hr|]. split; [exact Hbad|].
  intros invoiceId Hid Hin found.
  destruct (Hgood invoiceId Hid Hin) as (Hnone & Hnot & Hpaid).
  split; [exact Hnone|]. split; [exact Hnot|].
  intros inv rest Hf Hst. destruct (Hpaid inv rest Hf Hst) as [H200 Hstore].
  split; [exact H200|]. split; [exact Hstore|].
  intros o' m. fold run in Hstore. rewrite Hstore, Hid.
  subst found. rewrite Hf.
  apply (@mark_delivered_again d invoiceId inv rest _ o' m Hin Hf). reflexivity.
Qed.

Lemma mark_delivered_only_when_paid_witness :
  let run := exec_prog (Delivery.patch_mark_delivered (Some 1)) world_up 0
                       sample_db in
  let refused := exec_prog (Delivery.patch_mark_delivered (Some 3)) world_up 0
                           sample_db in
  let beyond := exec_prog (Delivery.patch_mark_delivered (Some 2147483648))
                          world_up 0 sample_db in
  res_status_of (outcome_in run) = Some 200 /\
  map i_status (invoices (final_store run)) = ["delivered"; "paid"; "delivered"] /\
  outcome_in (exec_prog (Delivery.patch_mark_delivered (Some 1)) world_up 0
                        (final_store run))
    = Returned Delivery.not_paid /\
  outcome_in refused = Returned Delivery.not_paid /\
  final_store refused = sample_db /\
  outcome_in beyond
    = Returned (mkResp 500 "Something went wrong. Please try again.") /\
  final_store beyond = sample_db.
Proof.
  intros run refused beyond.
  destruct (mark_delivered_only_when_paid sample_db world_up 0 (Some 1))
    as (r & Hr & _ & Hin).
  destruct (Hin 1 eq_refl eq_refl) as (_ & _ & Hpaid).
  destruct (Hpaid invoice1 [] eq_refl eq_refl) as (H200 & Hstore & Hagain).
  destruct (mark_delivered_only_when_paid sample_db world_up 0 (Some 3))
    as (r3 & Hr3 & _ & Hin3).
  destruct (Hin3 3 eq_refl eq_refl) as (_ & Hnot & _).
  assert (Hne : i_status invoice3 <> "paid") by discriminate.
  destruct (Hnot invoice3 [] eq_refl Hne) as (E3 & Hsame).
  destruct (mark_delivered_only_when_paid sample_db world_up 0 (Some 2147483648))
    as (rb & Hrb & Hout & _).
  assert (Hrange : forall z, Some 2147483648 = Some z -> int4 z = false)
    by (intros z H; inversion H; reflexivity).
  destruct (Hout Hrange) as (Eb & _ & Hsameb).
  split; [unfold run; rewrite Hr; simpl; rewrite H200; reflexivity|].
  split; [unfold run; rewrite Hstore; reflexivity|].
  split; [unfold run; rewrite (Hagain world_up 0%nat); reflexivity|].
  split; [unfold refused; rewrite Hr3, E3; reflexivity|].
  split; [exact Hsame|].
  split; [unfold beyond; rewrite Hrb, Eb; reflexivity|exact Hsameb].
Defined.

(** ** The code generator *)

Lemma charAt_chars_in (i : Z) :
  0 <= i < 32 ->
  exists c, charAt chars i = String c EmptyString /\
            In c (list_ascii_of_string chars).
Proof.
  intros Hi. unfold charAt.
  destruct (i <? 0) eqn:E; [apply Z.ltb_lt in E; lia|].
  assert (Hn : (Z.to_nat i < 32)%nat) by lia.
  remember (Z.to_nat i) as k. clear Heqk E Hi.
  do 32 (destruct k as [|k]; [eexists; split; [reflexivity|]; simpl; tauto|]).
  lia.
Qed.

Lemma Math_floor_index (r : Q) :
  (0 <= r)%Q -> (r < 1)%Q -> 0 <= Math_floor (r * inject_Z 32)%Q < 32.
Proof.
  intros H0 H1. unfold Math_floor. split.
  - change 0 with (Qfloor (inject_Z 0)). apply Qfloor_resp_le.
    change (inject_Z 0) with (0 * inject_Z 32)%Q.
    apply Qmult_le_compat_r; [exact H0|discriminate].
  - assert (H : (r * inject_Z 32 < inject_Z 32)%Q).
    { setoid_replace (inject_Z 32) with (1 * inject_Z 32)%Q at 2 by ring.
      apply Qmult_lt_compat_r; [reflexivity|exact H1]. }
    pose proof (Qfloor_le (r * inject_Z 32)) as Hle.
    assert (Hlt : (inject_Z (Qfloor (r * inject_Z 32)) < inject_Z 32)%Q)
      by (eapply Qle_lt_trans; eassumption).
    rewrite <- Zlt_Qlt in Hlt. exact Hlt.
Qed.

Lemma generate_from_spec n i random result :
  (forall k, (i <= k < i + n)%nat -> (0 <= random k)%Q /\ (random k < 1)%Q) ->
  exists suffix,
    generate_from n i random result = result ^^ suffix /\
    String.length suffix = n /\
    Forall (fun c => In c (list_ascii_of_string chars)) (list_ascii_of_string suffix).
Proof.
  revert i result. induction n as [|n IH]; intros i result Hr.
  - exists "". simpl. split; [|split; [reflexivity|constructor]].
    clear. induction result; simpl; congruence.
  - cbn [generate_from].
    destruct (Hr i ltac:(lia)) as [H0 H1].
    destruct (@charAt_chars_in _ (@Math_floor_index _ H0 H1)) as (c & Hc & Hin).
    change (Z.of_nat (String.length chars)) with 32.
    rewrite Hc.
    destruct (IH (S i) (result ^^ String c "")) as (suffix & Hs & Hlen & Hall).
    { intros k Hk. apply Hr. lia. }
    exists (String c suffix). split; [|split].
    + rewrite Hs. clear. induction result; simpl; [reflexivity|].
      f_equal. exact IHresult.
    + simpl. f_equal. exact Hlen.
    + simpl. constructor; assumption.
Qed.

(** X13.  [generate8CharCode]: whatever [Math.random] returns within its
    range [0, 1), the code has exactly 8 characters, each of them one of the
    32 characters of the alphabet, so none is 0, O, I or 1. *)
Theorem generate8CharCode_alphabet (random : nat -> Q)
  (Hrange : forall k, (k < 8)%nat -> (0 <= random k)%Q /\ (random k < 1)%Q) :
  let code := generate8CharCode random in
  String.length code = 8%nat /\
  Forall (fun c => In c (list_ascii_of_string chars)) (list_ascii_of_string code) /\
  Forall (fun c => c <> "0"%char /\ c <> "O"%char /\ c <> "I"%char /\ c <> "1"%char)
         (list_ascii_of_string code).
Proof.
  intros code. subst code. unfold generate8CharCode.
  destruct (@generate_from_spec 8 0 random "") as (suffix & Hs & Hlen & Hall).
  { intros k Hk. apply Hrange. lia. }
  rewrite Hs. cbn [String.append].
  split; [exact Hlen|]. split; [exact Hall|].
  eapply Forall_impl; [|exact Hall].
  intros c Hin. simpl in Hin.
  repeat (destruct Hin as [<-|Hin]; [repeat split; discriminate|]).
  contradiction.
Qed.

Lemma generate8CharCode_alphabet_witness :
  generate8CharCode (fun k => inject_Z (Z.of_nat k) / 8)%Q = "AEJNSW26" /\
  String.length (generate8CharCode (fun k => inject_Z (Z.of_nat k) / 8)%Q) = 8%nat.
Proof.
  split; [vm_compute; reflexivity|].
  apply (@generate8CharCode_alphabet (fun k => inject_Z (Z.of_nat k) / 8)%Q).
  intros k Hk.
  do 8 (destruct k as [|k]; [split; vm_compute; congruence|]).
  lia.
Defined.

(** ** Pagination *)




(** ** Referral withdrawals *)

Lemma update_where_filter_nil {T} (p : T -> bool) f l :
  filter p l = [] -> update_where p f l = l.
Proof.
  unfold update_where. induction l as [|x l IH]; simpl; [reflexivity|].
  destruct (p x); [discriminate|]. intros H. rewrite IH by exact H. reflexivity.
Qed.

Lemma deduct_no_row amount id d :
  map (fun u => u_referral_balance u - amount)
      (filter (can_deduct amount id (referral_withdrawals d)) (users d)) = [] ->
  with_users (update_where (can_deduct amount id (referral_withdrawals d))
                           (add_balance (- amount))) d = d.
Proof.
  intros H. apply map_eq_nil in H. unfold with_users.
  rewrite (update_where_filter_nil _ _ _ H). destruct d; reflexivity.
Qed.

Lemma sum_Z_app l1 l2 : sum_Z (l1 ++ l2) = sum_Z l1 + sum_Z l2.
Proof. unfold sum_Z. induction l1 as [|x l IH]; simpl; lia. Qed.

Lemma fold_max_ge (ids : list Z) x : In x ids -> x <= fold_right Z.max 0 ids.
Proof.
  induction ids as [|y ids IH]; simpl; [contradiction|].
  intros [->|H]; [lia|]. specialize (IH H). lia.
Qed.

Lemma next_id_fresh {T} (f : T -> Z) (l : list T) :
  existsb (fun x => f x =? next_id (map f l)) l = false.
Proof.
  assert (H : forall x, In x l -> (f x =? next_id (map f l)) = false).
  { intros x Hin. apply Z.eqb_neq. unfold next_id.
    pose proof (fold_max_ge (map f l) (f x) (in_map f l x Hin)). lia. }
  revert H. generalize (next_id (map f l)). intros k H.
  induction l as [|x l IH]; simpl; [reflexivity|].
  rewrite (H x (or_introl eq_refl)). simpl. apply IH.
  intros y Hy. apply H. right. exact Hy.
Qed.

Lemma update_where_app {T} (p : T -> bool) f l1 l2 :
  update_where p f (l1 ++ l2) = update_where p f l1 ++ update_where p f l2.
Proof. unfold update_where. apply map_app. Qed.

(** The withdrawals after the insert of a pending row and the update of its
    status. *)
Lemma withdrawals_after v userId amount momo st ws :
  sum_Z (map w_amount
     (filter (counts_as_withdrawn v)
        (update_where (fun w => w_id w =? next_id (map w_id ws))
                      (set_withdrawal_status st)
                      (ws ++ [mkWithdrawal (next_id (map w_id ws)) userId amount
                                           momo "pending"]))))
  = sum_Z (map w_amount (filter (counts_as_withdrawn v) ws))
    + (if (userId =? v) && negb (String.eqb st "failed") then amount else 0).
Proof.
  rewrite update_where_app, (update_where_none _ _ _ (next_id_fresh w_id ws)).
  rewrite filter_app, map_app, sum_Z_app. f_equal.
  cbn [update_where map filter]. cbn [w_id]. rewrite Z.eqb_refl.
  unfold counts_as_withdrawn. cbn [set_withdrawal_status w_userid w_status w_amount].
  destruct ((userId =? v) && negb (String.eqb st "failed")); simpl; lia.
Qed.

Lemma balance_after_update v (q : user -> bool) delta (l : list user) :
  sum_Z (map u_referral_balance
           (filter (fun u => u_id u =? v) (update_where q (add_balance delta) l)))
  = sum_Z (map u_referral_balance (filter (fun u => u_id u =? v) l))
    + delta * Z.of_nat (List.length (filter (fun u => (u_id u =? v) && q u) l)).
Proof.
  unfold update_where. induction l as [|x l IH]; [simpl; lia|].
  cbn [map filter].
  assert (Hid : u_id (if q x then add_balance delta x else x) = u_id x)
    by (destruct (q x); reflexivity).
  rewrite Hid.
  destruct (u_id x =? v) eqn:Ev; cbn [andb]; [|exact IH].
  destruct (q x) eqn:Eq; cbn [map List.length];
    change (sum_Z (?a :: ?l)) with (a + sum_Z l); rewrite IH;
    cbn [add_balance u_referral_balance];
    rewrite ?Nat2Z.inj_succ, ?Z.mul_succ_r; lia.
Qed.

Lemma filter_and {T} (p q : T -> bool) l :
  filter (fun x => p x && q x) l = filter q (filter p l).
Proof.
  induction l as [|x l IH]; simpl; [reflexivity|].
  destruct (p x); simpl; [destruct (q x); rewrite IH; reflexivity|exact IH].
Qed.

Lemma filter_false {T} (p : T -> bool) l :
  (forall x, p x = false) -> filter p l = [].
Proof.
  intros H. induction l as [|x l IH]; simpl; [reflexivity|]. rewrite H. exact IH.
Qed.

Lemma filter_id_update v (q : user -> bool) delta l :
  filter (fun u => u_id u =? v) (update_where q (add_balance delta) l)
  = update_where q (add_balance delta) (filter (fun u => u_id u =? v) l).
Proof. apply filter_update_where. intros x. reflexivity. Qed.

(** The user whose balance the deduction lowered is the one row of that id. *)
Lemma deducted_row amount userId ws (l : list user) u z zs :
  filter (fun x => u_id x =? userId) l = [u] ->
  map (fun x => u_referral_balance x - amount) (filter (can_deduct amount userId ws) l)
    = z :: zs ->
  filter (can_deduct amount userId ws) [u] = [u].
Proof.
  intros Hu Hz.
  assert (E : filter (can_deduct amount userId ws) l
              = filter (can_deduct amount userId ws) (filter (fun x => u_id x =? userId) l)).
  { rewrite <- filter_and. apply filter_ext. intros x. unfold can_deduct.
    destruct (u_id x =? userId); reflexivity. }
  rewrite Hu in E. rewrite E in Hz. simpl in Hz. simpl.
  destruct (can_deduct amount userId ws u); [reflexivity|discriminate Hz].
Qed.

Lemma deduct_count v amount userId ws (l : list user) u z zs :
  filter (fun x => u_id x =? userId) l = [u] ->
  map (fun x => u_referral_balance x - amount) (filter (can_deduct amount userId ws) l)
    = z :: zs ->
  List.length (filter (fun x => (u_id x =? v) && can_deduct amount userId ws x) l)
  = if userId =? v then 1%nat else 0%nat.
Proof.
  intros Hu Hz. pose proof (deducted_row _ _ _ _ Hu Hz) as Hd.
  destruct (userId =? v) eqn:E.
  - apply Z.eqb_eq in E. subst v. rewrite filter_and, Hu, Hd. reflexivity.
  - rewrite filter_false; [reflexivity|]. intros x. unfold can_deduct.
    destruct (u_id x =? v) eqn:E1; [|reflexivity].
    destruct (u_id x =? userId) eqn:E2; [|reflexivity].
    apply Z.eqb_eq in E1, E2. apply Z.eqb_neq in E. congruence.
Qed.

Lemma deduct_count_nil v amount userId ws (l : list user) :
  map (fun x => u_referral_balance x - amount) (filter (can_deduct amount userId ws) l)
    = [] ->
  List.length (filter (fun x => (u_id x =? v) && can_deduct amount userId ws x) l)
  = 0%nat.
Proof.
  intros H. apply map_eq_nil in H.
  assert (E : filter (fun x => (u_id x =? v) && can_deduct amount userId ws x) l
              = filter (fun x => u_id x =? v) (filter (can_deduct amount userId ws) l)).
  { rewrite <- filter_and. apply filter_ext. intros x. apply andb_comm. }
  rewrite E, H. reflexivity.
Qed.

Lemma credit_count v userId (q : user -> bool) delta (l : list user) u :
  filter (fun x => u_id x =? userId) l = [u] ->
  List.length (filter (fun x => (u_id x =? v) && (u_id x =? userId))
                      (update_where q (add_balance delta) l))
  = if userId =? v then 1%nat else 0%nat.
Proof.
  intros Hu. destruct (userId =? v) eqn:E.
  - apply Z.eqb_eq in E. subst v.
    rewrite filter_and, filter_id_update, Hu.
    cbn [update_where map filter].
    assert (Hid : u_id (if q u then add_balance delta u else u) = u_id u)
      by (destruct (q u); reflexivity).
    rewrite Hid. destruct (In_filter_head _ _ Hu) as [_ Hi]. rewrite Hi. reflexivity.
  - rewrite filter_false; [reflexivity|]. intros x.
    destruct (u_id x =? v) eqn:E1; [|reflexivity].
    destruct (u_id x =? userId) eqn:E2; [|reflexivity].
    apply Z.eqb_eq in E1, E2. apply Z.eqb_neq in E. congruence.
Qed.

Lemma forallb_update_where {T} (p q : T -> bool) f l :
  (forall x, p x = true -> q x = true -> p (f x) = true) ->
  forallb p l = true -> forallb p (update_where q f l) = true.
Proof.
  intros H. unfold update_where. induction l as [|x l IH]; simpl; [reflexivity|].
  intros Hl. apply andb_true_iff in Hl. destruct Hl as [Hx Hl].
  rewrite (IH Hl), andb_true_r.
  destruct (q x) eqn:Eq; [apply H; assumption|exact Hx].
Qed.

(** The restoring update of a failed withdrawal goes through: the row it
    restores held the amount before the deduction. *)
Lemma restore_fits amount userId ws (l : list user) u z zs :
  filter (fun x => u_id x =? userId) l = [u] ->
  map (fun x => u_referral_balance x - amount) (filter (can_deduct amount userId ws) l)
    = z :: zs ->
  int4 amount = true ->
  int4 (u_referral_balance u) = true ->
  int4 amount
  && forallb (fun x => int4 (u_referral_balance x + amount))
       (filter (fun x => u_id x =? userId)
               (update_where (can_deduct amount userId ws) (add_balance (- amount)) l))
  = true.
Proof.
  intros Hu Hz Ha Hb. rewrite Ha. cbn [andb].
  rewrite filter_id_update, Hu. cbn [update_where map].
  pose proof (deducted_row _ _ _ _ Hu Hz) as Hd. cbn [filter] in Hd.
  destruct (can_deduct amount userId ws u); [|discriminate Hd].
  cbn [forallb add_balance u_referral_balance]. rewrite andb_true_r.
  replace (u_referral_balance u + - amount + amount) with (u_referral_balance u) by lia.
  exact Hb.
Qed.

(** X15.  POST /referral/withdraw always answers, with 200, 400, 404, 500 or
    502.  A request below the minimum of 2,000 XAF, or whose number is not a
    Cameroonian MoMo number, is refused with 400 before any statement.  An
    amount above the range of INTEGER is answered 500: the deduction is
    refused when its parameters are bound, and nothing happened.  Every
    answer 400 or 404 means that nothing happened: the store is the one the
    request found and no call was sent to the gateway.  With one users row
    for the requester, whose balance is within INTEGER, the answer is 500
    only for an amount or a user id out of that range. *)
Theorem withdraw_refusals_change_nothing
  (d : db) (o : nat -> input) (n : nat) (userId amount : Z) (momo_number : string) :
  let run := exec_prog (Referral.post_withdraw userId amount momo_number) o n d in
  exists r, outcome_in run = Returned r /\
    (res_status r = 200 \/ res_status r = 400 \/ res_status r = 404 \/
     res_status r = 500 \/ res_status r = 502) /\
    (amount < Referral.MIN_WITHDRAWAL_AMOUNT \/ Referral.valid_momo momo_number = false ->
     res_status r = 400 /\ events_in run = []) /\
    (Referral.valid_momo momo_number = true -> INT4_MAX < amount ->
     r = mkResp 500 "An unexpected error occurred. Please try again." /\
     events_in run = [] /\ final_store run = d) /\
    (res_status r = 400 \/ res_status r = 404 ->
     final_store run = d /\ withdrawals (events_in run) = [] /\
     forallb (fun e => match e with EvGateway _ _ => false | _ => true end)
             (events_in run) = true) /\
    (forall u,
       filter (fun x => u_id x =? userId) (users d) = [u] ->
       int4 (u_referral_balance u) = true ->
       res_status r = 500 ->
       int4 amount = false \/ int4 userId = false).
Proof.
  intros run. subst run. unfold Referral.post_withdraw.
  assert (Hempty : forall s, Referral.valid_momo s = true -> truthy s = true)
    by (intros s Hs; destruct s; [discriminate Hs|reflexivity]).
  assert (early : forall body,
    (amount =? 0) || negb (truthy momo_number) = true \/ amount <= 0 \/
    amount < Referral.MIN_WITHDRAWAL_AMOUNT \/ Referral.valid_momo momo_number = false ->
    let run := exec_prog (Ret (mkResp 400 body)) o n d in
    exists r, outcome_in run = Returned r /\
    (res_status r = 200 \/ res_status r = 400 \/ res_status r = 404 \/
     res_status r = 500 \/ res_status r = 502) /\
    (amount < Referral.MIN_WITHDRAWAL_AMOUNT \/ Referral.valid_momo momo_number = false ->
     res_status r = 400 /\ events_in run = []) /\
    (Referral.valid_momo momo_number = true -> INT4_MAX < amount ->
     r = mkResp 500 "An unexpected error occurred. Please try again." /\
     events_in run = [] /\ final_store run = d) /\
    (res_status r = 400 \/ res_status r = 404 ->
     final_store run = d /\ withdrawals (events_in run) = [] /\
     forallb (fun e => match e with EvGateway _ _ => false | _ => true end)
             (events_in run) = true) /\
    (forall u,
       filter (fun x => u_id x =? userId) (users d) = [u] ->
       int4 (u_referral_balance u) = true ->
       res_status r = 500 ->
       int4 amount = false \/ int4 userId = false)).
  { intros body Hwhy run. eexists. split; [reflexivity|]. split; [auto 6|].
    split; [intros _; split; reflexivity|].
    split; [|split; [intros _; repeat split; reflexivity|intros u _ _ H; discriminate H]].
    intros Hv Hbig. exfalso. unfold INT4_MAX, Referral.MIN_WITHDRAWAL_AMOUNT in *.
    destruct Hwhy as [H|[H|[H|H]]]; try lia; [|congruence].
    apply orb_true_iff in H. destruct H as [H|H]; [apply Z.eqb_eq in H; lia|].
    rewrite (Hempty _ Hv) in H. discriminate H. }
  destruct (_ || _) eqn:E0; [apply early; auto|].
  destruct (amount <=? 0) eqn:E1; [apply early; apply Z.leb_le in E1; auto|].
  destruct (amount <? Referral.MIN_WITHDRAWAL_AMOUNT) eqn:E2;
    [apply early; apply Z.ltb_lt in E2; auto|].
  destruct (Referral.valid_momo momo_number) eqn:E3; cbn [negb];
    [|apply early; auto 6].
  clear early. apply Z.ltb_ge in E2.
  unfold query_bound. cbn [forallb]. rewrite andb_true_r.
  destruct (int4 amount && int4 userId) eqn:Ein.
  2: { run_prog. eexists. split; [reflexivity|]. split; [simpl; auto 6|].
       split; [intros [H|H]; [lia|discriminate H]|].
       split; [intros _ _; repeat split; reflexivity|].
       split; [intros [H|H]; discriminate H|].
       intros u _ _ _. apply andb_false_iff in Ein. exact Ein. }
  apply andb_true_iff in Ein. destruct Ein as [Ha Hid].
  assert (Hsmall : ~ INT4_MAX < amount).
  { unfold int4 in Ha. apply andb_true_iff in Ha. destruct Ha as [_ Ha].
    apply Z.leb_le in Ha. lia. }
  run_all; eexists; (split; [reflexivity|]).
  all: split; [simpl; auto 6|].
  all: split; [intros [H|H]; [lia|discriminate H]|].
  all: split; [intros _ Hbig; contradiction|].
  all: split; [intros [H|H]; try discriminate H;
               rewrite deduct_no_row by assumption; repeat split; reflexivity|].
  all: intros u Hu Hb H; try discriminate H.
  all: exfalso;
    match goal with
    | Hz : map _ (filter (can_deduct _ _ _) _) = _ :: _,
      Ef : _ && forallb _ _ = false |- _ =>
        cbn [referral_withdrawals with_referral_withdrawals] in Ef;
        rewrite (@restore_fits _ _ _ _ _ _ _ Hu Hz Ha Hb) in Ef; discriminate Ef
    end.
Qed.

Lemma withdraw_refusals_change_nothing_witness :
  let small := exec_prog (Referral.post_withdraw 11 1500 "237600000002") world_up 0
                         sample_db in
  let large := exec_prog (Referral.post_withdraw 11 9000 "237600000002") world_up 0
                         sample_db in
  let huge := exec_prog (Referral.post_withdraw 11 2147483648 "237600000002")
                        world_up 0 sample_db in
  res_status_of (outcome_in small) = Some 400 /\ events_in small = [] /\
  outcome_in large
    = Returned (mkResp 400 "Insufficient balance. You have 5,000 XAF available.") /\
  final_store large = sample_db /\
  outcome_in huge
    = Returned (mkResp 500 "An unexpected error occurred. Please try again.") /\
  events_in huge = [] /\ final_store huge = sample_db.
Proof.
  intros small large huge.
  destruct (withdraw_refusals_change_nothing sample_db world_up 0 11 1500
              "237600000002") as (r & Hr & _ & Hsmall & _).
  destruct (Hsmall (or_introl eq_refl)) as [E Hev].
  destruct (withdraw_refusals_change_nothing sample_db world_up 0 11 9000
              "237600000002") as (r' & Hr' & _ & _ & _ & Hsame & _).
  assert (E' : res_status r' = 400)
    by (vm_compute in Hr'; inversion Hr'; reflexivity).
  destruct (Hsame (or_introl E')) as (Hst & _ & _).
  destruct (withdraw_refusals_change_nothing sample_db world_up 0 11 2147483648
              "237600000002") as (r'' & Hr'' & _ & _ & Hhuge & _).
  destruct (Hhuge eq_refl eq_refl) as (E'' & Hev'' & Hst'').
  split; [unfold small; rewrite Hr; simpl; rewrite E; reflexivity|].
  split; [exact Hev|]. split; [vm_compute; reflexivity|]. split; [exact Hst|].
  split; [unfold huge; rewrite Hr'', E''; reflexivity|].
  split; [exact Hev''|exact Hst''].
Defined.
(** The pending row of a withdrawal counts as withdrawn. *)
Lemma withdrawal_pending v userId amount momo id ws :
  sum_Z (map w_amount
     (filter (counts_as_withdrawn v)
             (ws ++ [mkWithdrawal id userId amount momo "pending"])))
  = sum_Z (map w_amount (filter (counts_as_withdrawn v) ws))
    + (if userId =? v then amount else 0).
Proof.
  rewrite filter_app, map_app, sum_Z_app. f_equal.
  cbn [filter]. unfold counts_as_withdrawn. cbn [w_userid w_status].
  destruct (userId =? v); simpl; lia.
Qed.

Ltac ledger_counts :=
  repeat match goal with
  | Hu : filter _ (users _) = [_], H : map _ (filter _ (users _)) = _ :: _
    |- context [List.length (filter (fun x => (u_id x =? ?v) && can_deduct _ _ _ x) _)] =>
      rewrite (@deduct_count v _ _ _ _ _ _ _ Hu H)
  | H : map _ (filter _ (users _)) = []
    |- context [List.length (filter (fun x => (u_id x =? ?v) && can_deduct _ _ _ x) _)] =>
      rewrite (@deduct_count_nil v _ _ _ _ H)
  | Hu : filter (fun x => u_id x =? ?uid) (users _) = [?u]
    |- context [List.length (filter (fun x => (u_id x =? ?v) && (u_id x =? ?uid))
                                    (update_where _ _ _))] =>
      rewrite (@credit_count v uid _ _ _ u Hu)
  end.

(** X16.  POST /referral/withdraw moves money between a user's balance and
    the withdrawals, and creates or loses none.  With one users row for the
    requester, after every run, however it ends, the balance of each user
    plus that user's withdrawals that did not fail is what it was before the
    request: a withdrawal that is sent lowers the balance by its amount, a
    withdrawal the gateway refused is marked 'failed' and its amount is back
    on the balance, a refused request changes neither.  The earnings are not
    touched, and no balance becomes negative. *)
Theorem withdraw_conserves_ledger
  (d : db) (o : nat -> input) (n : nat) (userId amount : Z) (momo_number : string)
  (u : user)
  (Huser : filter (fun x => u_id x =? userId) (users d) = [u]) :
  let run := exec_prog (Referral.post_withdraw userId amount momo_number) o n d in
  (forall v,
     balance_total v (final_store run) + withdrawn_total v (final_store run)
     = balance_total v d + withdrawn_total v d) /\
  referral_earnings (final_store run) = referral_earnings d /\
  (balances_nonneg d = true -> balances_nonneg (final_store run) = true).
Proof.
  intros run. subst run. unfold Referral.post_withdraw.
  destruct (_ || _) eqn:E0; [repeat split; auto|].
  destruct (amount <=? 0) eqn:E1; [repeat split; auto|].
  destruct (amount <? Referral.MIN_WITHDRAWAL_AMOUNT) eqn:E2; [repeat split; auto|].
  destruct (negb (Referral.valid_momo momo_number)) eqn:E3; [repeat split; auto|].
  apply Z.leb_gt in E1.
  unfold query_bound.
  destruct (forallb int4 [amount; userId]) eqn:Ein; [|repeat split; auto].
  unfold balance_total, withdrawn_total, balance_of, balances_nonneg, final_store.
  run_all;
    try (rewrite deduct_no_row by assumption; repeat split; auto);
    (split;
     [ intros v; try rewrite withdrawals_after; try rewrite withdrawal_pending;
       rewrite ?balance_after_update;
       ledger_counts; try (destruct (userId =? v)); simpl; lia
     | split;
       [ reflexivity
       | intros Hn; repeat (apply forallb_update_where; [|]); try exact Hn;
         intros x Hx Hq; cbn [add_balance u_referral_balance];
         apply Z.leb_le; apply Z.leb_le in Hx;
         try (unfold can_deduct in Hq; apply andb_true_iff in Hq;
              destruct Hq as [Hq _]; apply andb_true_iff in Hq;
              destruct Hq as [_ Hq]; apply Z.leb_le in Hq); lia ] ]).
Qed.

Lemma withdraw_conserves_ledger_witness :
  let sent := final_store (exec_prog (Referral.post_withdraw 11 3000 "237600000002")
                                     world_up 0 sample_db) in
  let back := final_store (exec_prog (Referral.post_withdraw 11 3000 "237600000002")
                                     world_down 0 sample_db) in
  balance_total 11 sample_db = 5000 /\
  balance_total 11 sent = 2000 /\
  balance_total 11 sent + withdrawn_total 11 sent
  = balance_total 11 sample_db + withdrawn_total 11 sample_db /\
  balance_total 11 back = 5000 /\
  withdrawn_total 11 back = withdrawn_total 11 sample_db /\
  balances_nonneg sent = true.
Proof.
  intros sent back.
  assert (Hu : exists u, filter (fun x => u_id x =? 11) (users sample_db) = [u])
    by (eexists; vm_compute; reflexivity).
  destruct Hu as [u Hu].
  destruct (@withdraw_conserves_ledger sample_db world_up 0 11 3000 "237600000002"
              u Hu) as (Hsent & _ & Hnonneg).
  destruct (@withdraw_conserves_ledger sample_db world_down 0 11 3000 "237600000002"
              u Hu) as (Hback & _ & _).
  split; [vm_compute; reflexivity|]. split; [vm_compute; reflexivity|].
  split; [exact (Hsent 11)|]. split; [vm_compute; reflexivity|].
  split; [|apply Hnonneg; vm_compute; reflexivity].
  pose proof (Hback 11) as H. fold back in H.
  assert (E : balance_total 11 back = balance_total 11 sample_db)
    by (vm_compute; reflexivity).
  rewrite E in H. lia.
Defined.

(** ** Referral credits *)

Lemma referrer_count v r (l : list user) u :
  filter (fun x => u_id x =? r) l = [u] ->
  List.length (filter (fun x => (u_id x =? v) && (u_id x =? r)) l)
  = if r =? v then 1%nat else 0%nat.
Proof.
  intros Hu. destruct (r =? v) eqn:E.
  - apply Z.eqb_eq in E. subst v.
    assert (Hf : filter (fun x => (u_id x =? r) && (u_id x =? r)) l
                 = filter (fun x => u_id x =? r) l)
      by (apply filter_ext; intros x; apply andb_diag).
    rewrite Hf, Hu. reflexivity.
  - rewrite filter_false; [reflexivity|]. intros x.
    destruct (u_id x =? v) eqn:E1; [|reflexivity].
    destruct (u_id x =? r) eqn:E2; [|reflexivity].
    apply Z.eqb_eq in E1, E2. apply Z.eqb_neq in E. congruence.
Qed.

(** X17.  The referral credit, as written out in the four payout paths,
    with one users row for the referrer and the seller a user.  The block
    never adds to a balance
    more than the earnings table records: the balance of every user less the
    earnings recorded for that user is not higher after the block than
    before.  It is the same when the share fits the balance of the referrer
    (the sum stays within INTEGER); when it does not fit and the key is new,
    the earning is recorded and no balance changes: the failed update is
    caught and the credit is lost.  A second run of the block with the same
    key leaves the store of the first as it is, in both cases. *)
Theorem referral_credit_is_recorded
  (d : db) (o o' : nat -> input) (n n' : nat)
  (referrerId sellerId : Z) (key : string) (grossAmount referralEarning : Z)
  (u : user)
  (Hreferrer : filter (fun x => u_id x =? referrerId) (users d) = [u])
  (Hseller : existsb (fun x => u_id x =? sellerId) (users d) = true) :
  let credit := creditReferralIf (Some referrerId) sellerId key grossAmount
                                 referralEarning in
  let d1 := final_store (exec_prog credit o n d) in
  (forall v, balance_total v d1 - earned_total v d1
             <= balance_total v d - earned_total v d) /\
  (credit_fits referralEarning u = true ->
   forall v, balance_total v d1 - earned_total v d1
             = balance_total v d - earned_total v d) /\
  (0 < referralEarning -> key_free d key = true ->
   credit_fits referralEarning u = false ->
   users d1 = users d /\
   earned_total referrerId d1 = earned_total referrerId d + referralEarning /\
   outcome_in (exec_prog credit o n d) = Returned tt) /\
  final_store (exec_prog credit o' n' d1) = d1.
Proof.
  intros credit d1. subst d1 credit. unfold creditReferralIf, creditReferral.
  destruct (0 <? referralEarning) eqn:E0.
  2: { apply Z.ltb_ge in E0. split; [intros v; reflexivity|].
       split; [intros _ v; reflexivity|]. split; [intros H; lia|reflexivity]. }
  apply Z.ltb_lt in E0.
  unfold final_store, outcome_in, key_free. run_prog.
  destruct (existsb _ (referral_earnings d)) eqn:Ex.
  { run_prog. rewrite Ex. run_prog.
    split; [intros v; reflexivity|]. split; [intros _ v; reflexivity|].
    split; [intros _ H; discriminate H|reflexivity]. }
  run_prog. rewrite Hreferrer. cbn [forallb]. rewrite andb_true_r.
  fold (credit_fits referralEarning u).
  assert (Hearned : forall v,
    earned_total v
      (with_referral_earnings
         (fun l => l ++ [mkEarning (next_id (map re_id (referral_earnings d)))
                                   referrerId sellerId key grossAmount
                                   referralEarning]) d)
    = earned_total v d + (if referrerId =? v then referralEarning else 0)).
  { intros v. unfold earned_total. cbn [referral_earnings with_referral_earnings].
    rewrite filter_app, map_app, sum_Z_app. cbn [filter re_referrer_userid].
    destruct (referrerId =? v); simpl; lia. }
  assert (Hagain :
    existsb (fun e => String.eqb (re_invoice_number e) key)
      (referral_earnings d
       ++ [mkEarning (next_id (map re_id (referral_earnings d))) referrerId sellerId
                     key grossAmount referralEarning]) = true).
  { rewrite existsb_app. cbn [existsb re_invoice_number].
    rewrite String.eqb_refl, orb_true_r. reflexivity. }
  destruct (credit_fits referralEarning u) eqn:Efit; run_prog.
  - assert (Hledger : forall v,
      balance_total v
        (with_users (update_where (fun x => u_id x =? referrerId)
                                  (add_balance referralEarning))
           (with_referral_earnings
              (fun l => l ++ [mkEarning (next_id (map re_id (referral_earnings d)))
                                        referrerId sellerId key grossAmount
                                        referralEarning]) d))
      - earned_total v
        (with_users (update_where (fun x => u_id x =? referrerId)
                                  (add_balance referralEarning))
           (with_referral_earnings
              (fun l => l ++ [mkEarning (next_id (map re_id (referral_earnings d)))
                                        referrerId sellerId key grossAmount
                                        referralEarning]) d))
      = balance_total v d - earned_total v d).
    { intros v.
      change (earned_total v (with_users ?f ?x)) with (earned_total v x).
      rewrite Hearned. unfold balance_total, balance_of.
      cbn [users with_users with_referral_earnings].
      rewrite balance_after_update, (@referrer_count v _ _ _ Hreferrer).
      destruct (referrerId =? v); simpl; lia. }
    split; [intros v; rewrite Hledger; lia|].
    split; [intros _ v; apply Hledger|].
    split; [intros _ _ H; discriminate H|].
    rewrite Hagain. run_prog. reflexivity.
  - split.
    { intros v. rewrite Hearned. unfold balance_total, balance_of.
      cbn [users with_referral_earnings].
      destruct (referrerId =? v); lia. }
    split; [intros H; discriminate H|].
    split.
    { intros _ _ _. split; [reflexivity|]. split; [|reflexivity].
      rewrite Hearned, Z.eqb_refl. reflexivity. }
    rewrite Hagain. run_prog. reflexivity.
Qed.

Lemma referral_credit_is_recorded_witness :
  let credit := creditReferralIf (Some 11) 10 "INV-9" 10000 50 in
  let d1 := final_store (exec_prog credit world_up 0 sample_db) in
  let lost := final_store (exec_prog credit world_up 0 full_balance_db) in
  balance_total 11 d1 = 5050 /\
  earned_total 11 d1 = earned_total 11 sample_db + 50 /\
  final_store (exec_prog credit world_up 0 d1) = d1 /\
  balance_total 11 lost = 2147483600 /\
  earned_total 11 lost = 50 /\
  final_store (exec_prog credit world_up 0 lost) = lost.
Proof.
  intros credit d1 lost.
  destruct (@referral_credit_is_recorded sample_db world_up world_up 0 0 11 10
              "INV-9" 10000 50 referrer11 eq_refl eq_refl)
    as (_ & Hledger & _ & Hagain).
  pose proof (Hledger eq_refl 11) as H. fold credit in H. fold d1 in H.
  assert (E : balance_total 11 d1 = 5050) by (vm_compute; reflexivity).
  assert (E0 : balance_total 11 sample_db = 5000) by (vm_compute; reflexivity).
  split; [exact E|]. split; [lia|]. split; [exact Hagain|].
  destruct (@referral_credit_is_recorded full_balance_db world_up world_up 0 0 11 10
              "INV-9" 10000 50 referrer11_full eq_refl eq_refl)
    as (_ & _ & Hlost & Hagain').
  destruct (Hlost ltac:(lia) eq_refl eq_refl) as (Hu & He & _).
  fold credit in Hu, He. fold lost in Hu, He.
  split; [unfold balance_total, balance_of; rewrite Hu; vm_compute; reflexivity|].
  split; [rewrite He; vm_compute; reflexivity|exact Hagain'].
Defined.
